(** * The plan/task execution engine of the service-management assistant

    A shallow embedding of [src/lib/agent/core.ts] (the planning, tool-use,
    autonomous, goal-oriented engines and the mission orchestrator), of the
    tool registry of [src/lib/agent/tools/base.ts] and of the mission route
    [src/app/api/missions/[id]/route.ts], together with the properties the
    specification states about them.

    Modelling conventions.
    - The relational store is a record of tables; a table is the list of its
      rows in insertion order.  [db.update(..).set(..).where(eq(id, k))] maps
      over the rows whose key is [k]; [db.delete] filters, and the rows that
      reference a deleted row with [onDelete: 'cascade'] go with it;
      [db.insert] appends and is refused (it throws) when the primary key is
      already present or when a foreign key names no row (the connection of
      [better-sqlite3] enforces foreign keys).  Updates always succeed: none
      of them changes a key.  The columns [parent_task_id], [metadata] and
      the time stamps of creation and update, which the engine never sets or
      reads, are left out of the rows.
    - Everything outside the store (the reasoning service, the tools, the
      clock, the id generator) is an oracle acting on an abstract [World].
    - An [async] function is a computation [State -> Exc A * State]: it
      returns or throws, and the writes made before a throw stay in the store.
    - The logger only writes the [execution_logs] table, which no function of
      the engine reads; its calls are left out. *)

From Stdlib Require Import QArith Qminmax.
From stdpp Require Import gmap strings list sorting pretty.

Set Warnings "-register-all,-clear-no-such-hyp".
Open Scope string_scope.
Open Scope Z_scope.

(** ** JSON payloads and the data model ([types.ts], [schema.ts])

    A [JObj] lists the own properties of an object, each key once; a
    [JNum] is a number that is an integer. *)

Inductive Json :=
| JNull
| JBool (b : bool)
| JNum (z : Z)
| JStr (s : string)
| JArr (items : list Json)
| JObj (fields : list (string * Json)).

(** [if (value)] and [value || other]: [undefined] (here [None]), [null],
    [false], [0] and the empty string are falsy. *)
Definition js_truthy (value : option Json) : bool :=
  match value with
  | None | Some JNull | Some (JBool false) | Some (JNum 0) | Some (JStr "") => false
  | Some _ => true
  end.

(** [value[key]] for a key that no prototype defines: the own property of
    an object, [undefined] for every other value.  A destructuring
    [const { key } = value] reads the same, for a [value] other than [null]. *)
Definition get_property (value : Json) (key : string) : option Json :=
  match value with
  | JObj fields =>
      match List.find (fun field => bool_decide (fst field = key)) fields with
      | Some field => Some (snd field)
      | None => None
      end
  | _ => None
  end.

(** *** Numbers

    The numbers of the engine that hold integers are modelled by [Z].  An
    integer is a double when it has at most 53 significant bits;
    [to_double] rounds to the nearest such integer, ties to the even
    mantissa, which is what [a + b] does to the exact sum (the overflow to
    [Infinity], beyond 2^1023, is left out). *)
Definition to_double (x : Z) : Z :=
  if bool_decide (Z.abs x <= 2 ^ 53) then x
  else
    let e := Z.log2 (Z.abs x) - 52 in
    let q := Z.abs x / 2 ^ e in
    let r := Z.abs x mod 2 ^ e in
    let up := bool_decide (2 ^ e < 2 * r) || (bool_decide (2 * r = 2 ^ e) && Z.odd q) in
    Z.sgn x * ((if up then q + 1 else q) * 2 ^ e).

Definition number_add (a b : Z) : Z := to_double (a + b).

Inductive MissionStatus :=
| MissionPending | MissionPlanning | MissionExecuting | MissionCompleted | MissionFailed.

Inductive PlanStatus :=
| PlanDraft | PlanActive | PlanCompleted | PlanFailed | PlanSuperseded.

Inductive TaskStatus :=
| TaskPending | TaskInProgress | TaskCompleted | TaskFailed | TaskSkipped.

Inductive MissionPriority := Low | Medium | High | Urgent.

#[global] Instance MissionStatus_eq_dec : EqDecision MissionStatus.
Proof. solve_decision. Defined.
#[global] Instance PlanStatus_eq_dec : EqDecision PlanStatus.
Proof. solve_decision. Defined.
#[global] Instance TaskStatus_eq_dec : EqDecision TaskStatus.
Proof. solve_decision. Defined.

Record Mission := {
  mission_id : string;
  mission_title : string;
  mission_description : string;
  mission_status : MissionStatus;
  mission_priority : MissionPriority;
  mission_completedAt : option Z;
}.

Record Task := {
  task_id : string;
  task_planId : string;
  task_title : string;
  task_status : TaskStatus;
  task_priority : Z;
  task_toolName : option string;
  task_toolParams : option Json;
  task_dependencies : option (list string);
  task_startedAt : option Z;
  task_completedAt : option Z;
  task_result : option Json;
}.

(** A row of the [plans] table, and the in-memory [Plan]: the row together
    with the tasks ([{ ...newPlan, tasks }]). *)
Record PlanRow := {
  plan_id : string;
  plan_missionId : string;
  plan_version : Z;
  plan_title : string;
  plan_description : option string;
  plan_status : PlanStatus;
  plan_estimatedDuration : option Z;
}.

Record Plan := {
  plan_row :> PlanRow;
  plan_tasks : list Task;
}.

Record ToolResult := {
  result_success : bool;
  result_data : option Json;
  result_error : option string;
}.

Record ToolUsage := {
  usage_taskId : option string;
  usage_toolName : string;
  usage_parameters : Json;
  usage_result : option Json;
  usage_success : bool;
  usage_duration : Z;
  usage_errorMessage : option string;
}.

Record ExecutionContext := {
  ctx_missionId : string;
  ctx_planId : string;
  ctx_taskId : option string;
}.

Record Reflection := {
  reflection_content : string;
  reflection_insights : list string;
  reflection_recommendations : list string;
}.

Record ExecutionResult := {
  exec_success : bool;
  exec_completedTasks : list Task;
  exec_failedTasks : list Task;
  exec_reflections : list Reflection;
  exec_error : option string;
}.

Record PlanningResult := {
  planning_plan : Plan;
  planning_reasoning : string;
  planning_confidence : Q;
}.

(** The parsed answer of the planning service ([JSON.parse(planResponse)]). *)
Record TaskData := {
  data_title : string;
  data_priority : option Z;
  data_toolName : option string;
  data_toolParams : option Json;
  data_dependencies : option (list string);
}.

Record PlanData := {
  data_plan_title : string;
  data_plan_description : option string;
  data_plan_estimatedDuration : option Z;
  data_plan_tasks : option (list TaskData);
  data_plan_reasoning : string;
  data_plan_confidence : Q;
}.

(** The parsed answer of the goal-completion judge. *)
Record Assessment := {
  assessment_completed : bool;
  assessment_completionPercentage : Q;
}.

(** What the planning service is asked for: the three prompts of
    [createPlan], [updatePlan] and [adjustStrategy]. *)
Inductive PlanRequest :=
| ForMission (m : Mission)
| ForUpdate (p : Plan) (feedback : string)
| ForAdjustment (m : Mission) (p : Plan) (progress : Q).

(** The outcome of a call: a value, or a thrown [Error] with its message. *)
Inductive Exc (A : Type) :=
| Return (a : A)
| Throw (message : string).
Arguments Return {A} a.
Arguments Throw {A} message.

#[global] Instance Exc_fmap : FMap Exc :=
  fun A B f r => match r with
                 | Return a => Return (f a)
                 | Throw e => Throw e
                 end.

(** ** Task Graph Sorter ([AutonomousEngine.sortTasksByPriorityAndDependencies]) *)

Module Sorter.

(** The three mutable locals of the function: the array [sorted] and the
    sets [visited] and [visiting]. *)
Record SortState := {
  sorted : list Task;
  visited : gset string;
  visiting : gset string;
}.

Definition initial : SortState :=
  {| sorted := []; visited := ∅; visiting := ∅ |}.

(** [task.dependencies] when truthy, nothing to iterate over otherwise. *)
Definition deps_of (t : Task) : list string :=
  match task_dependencies t with
  | Some ds => ds
  | None => []
  end.

(** [tasks.find(t => t.id === depId)] *)
Definition find_task (tasks : list Task) (depId : string) : option Task :=
  List.find (fun t => bool_decide (task_id t = depId)) tasks.

Definition circular_error (t : Task) : string :=
  "Circular dependency detected involving task: " ++ task_title t.

(** The [for (const depId of task.dependencies)] loop of [visit]; [rec] is
    the recursive call.  [None] means that the recursion budget ran out. *)
Fixpoint visit_deps (rec : Task -> SortState -> option (Exc SortState))
    (tasks : list Task) (deps : list string) (st : SortState)
    : option (Exc SortState) :=
  match deps with
  | [] => Some (Return st)
  | depId :: rest =>
      match find_task tasks depId with
      | Some depTask =>
          match rec depTask st with
          | Some (Return st') => visit_deps rec tasks rest st'
          | other => other
          end
      | None => visit_deps rec tasks rest st
      end
  end.

(** The closure [visit].  The recursion of the source is bounded by the
    number of ids that can be in [visiting]; [fuel] makes that bound
    explicit and [visit_fuel_enough] shows that it is never reached. *)
Fixpoint visit (fuel : nat) (tasks : list Task) (t : Task) (st : SortState)
    : option (Exc SortState) :=
  match fuel with
  | O => None
  | S fuel' =>
      if bool_decide (task_id t ∈ visiting st) then Some (Throw (circular_error t))
      else if bool_decide (task_id t ∈ visited st) then Some (Return st)
      else
        let st1 := {| sorted := sorted st; visited := visited st;
                      visiting := visiting st ∪ {[task_id t]} |} in
        match visit_deps (visit fuel' tasks) tasks (deps_of t) st1 with
        | Some (Return st2) =>
            Some (Return {| sorted := sorted st2 ++ [t];
                            visited := visited st2 ∪ {[task_id t]};
                            visiting := visiting st2 ∖ {[task_id t]} |})
        | other => other
        end
  end.

(** [[...tasks].sort((a, b) => a.priority - b.priority)]: the sort of an
    array is stable, so a task goes behind the tasks of equal priority that
    came before it. *)
Fixpoint insert_by_priority (t : Task) (l : list Task) : list Task :=
  match l with
  | [] => [t]
  | u :: l' =>
      if task_priority t <? task_priority u then t :: u :: l'
      else u :: insert_by_priority t l'
  end.

Definition prioritySorted (tasks : list Task) : list Task :=
  fold_left (fun acc t => insert_by_priority t acc) tasks [].

(** [for (const task of prioritySorted) visit(task)] *)
Fixpoint visit_all (fuel : nat) (tasks : list Task) (seeds : list Task)
    (st : SortState) : option (Exc SortState) :=
  match seeds with
  | [] => Some (Return st)
  | t :: rest =>
      match visit fuel tasks t st with
      | Some (Return st') => visit_all fuel tasks rest st'
      | other => other
      end
  end.

Definition sort_with_fuel (fuel : nat) (tasks : list Task) : option (Exc (list Task)) :=
  match visit_all fuel tasks (prioritySorted tasks) initial with
  | Some (Return st) => Some (Return (sorted st))
  | Some (Throw m) => Some (Throw m)
  | None => None
  end.

(** Every nested call of [visit] adds a new id of [tasks] to [visiting], so
    one more level than there are tasks is enough ([sort_fuel_enough]); the
    last branch is never taken. *)
Definition sortTasksByPriorityAndDependencies (tasks : list Task) : Exc (list Task) :=
  match sort_with_fuel (S (length tasks)) tasks with
  | Some r => r
  | None => Throw "Maximum call stack size exceeded"
  end.

End Sorter.

(** ** The world outside the engine *)

Class Oracles := {
  World : Type;
  (** [Date.now()] and [new Date()] *)
  dateNow : World -> Z * World;
  (** [createId()], the default of every primary key *)
  createId : World -> string * World;
  (** [deepseek.generatePlan] followed by [JSON.parse] *)
  generatePlan : PlanRequest -> World -> Exc PlanData * World;
  (** [deepseek.selectTool] followed by [JSON.parse(..).selectedTool] *)
  askSelectedTool : Task -> list string -> World -> Exc string * World;
  (** [deepseek.assessCompletion] followed by [JSON.parse] *)
  assessCompletion : Mission -> ExecutionResult -> World -> Exc Assessment * World;
}.

(** A tool of the registry: its [execute] returns a [ToolResult] or throws. *)
Record Tool `{Oracles} := {
  tool_name : string;
  tool_execute : Json -> World -> Exc ToolResult * World;
}.

(** ** The store *)

Record Database := {
  missions : list Mission;
  plans : list PlanRow;
  tasks : list Task;
  toolUsage : list ToolUsage;
}.

Record State `{Oracles} := {
  db : Database;
  world : World;
}.

Section Engine.
Context `{Oracles}.

(** *** Computations that return or throw *)

Definition M (A : Type) : Type := State -> Exc A * State.

Definition ret {A} (a : A) : M A := fun s => (Return a, s).

Definition bind {A B} (c : M A) (k : A -> M B) : M B :=
  fun s => match c s with
           | (Return a, s') => k a s'
           | (Throw e, s') => (Throw e, s')
           end.

Definition throw {A} (e : string) : M A := fun s => (Throw e, s).

(** [try { body } catch (error) { handler }]; the writes of [body] up to the
    throw are kept. *)
Definition try_catch {A} (body : M A) (handler : string -> M A) : M A :=
  fun s => match body s with
           | (Return a, s') => (Return a, s')
           | (Throw e, s') => handler e s'
           end.

Definition lift_exc {A} (r : Exc A) : M A := fun s => (r, s).

Definition ask {A} (oracle : World -> A * World) : M A :=
  fun s => let '(a, w) := oracle (world s) in (Return a, {| db := db s; world := w |}).

Definition ask_exc {A} (oracle : World -> Exc A * World) : M A :=
  fun s => let '(r, w) := oracle (world s) in (r, {| db := db s; world := w |}).

Definition query {A} (f : Database -> A) : M A := fun s => (Return (f (db s)), s).

Definition write (f : Database -> Database) : M unit :=
  fun s => (Return tt, {| db := f (db s); world := world s |}).

End Engine.

Notation "x <- c ;; k" := (bind c (fun x => k))
  (at level 100, c at next level, right associativity).
Notation "c ;;; k" := (bind c (fun _ => k))
  (at level 100, right associativity).

Section EngineOps.
Context `{Oracles}.

(** *** Table operations *)

Definition update_rows {R} (key : R -> string) (k : string) (f : R -> R) (rows : list R) : list R :=
  List.map (fun r => if bool_decide (key r = k) then f r else r) rows.

Arguments update_rows {R} key k f rows : simpl never.

Definition find_row {R} (key : R -> string) (k : string) (rows : list R) : option R :=
  List.find (fun r => bool_decide (key r = k)) rows.

(** A column given [undefined] in [.set({..})] keeps its value. *)
Definition set_if_defined {A} (new old : option A) : option A :=
  match new with
  | Some a => Some a
  | None => old
  end.

Definition with_missions (f : list Mission -> list Mission) (d : Database) : Database :=
  {| missions := f (missions d); plans := plans d; tasks := tasks d; toolUsage := toolUsage d |}.
Definition with_plans (f : list PlanRow -> list PlanRow) (d : Database) : Database :=
  {| missions := missions d; plans := f (plans d); tasks := tasks d; toolUsage := toolUsage d |}.
Definition with_tasks (f : list Task -> list Task) (d : Database) : Database :=
  {| missions := missions d; plans := plans d; tasks := f (tasks d); toolUsage := toolUsage d |}.
Definition with_toolUsage (f : list ToolUsage -> list ToolUsage) (d : Database) : Database :=
  {| missions := missions d; plans := plans d; tasks := tasks d; toolUsage := f (toolUsage d) |}.

Definition set_mission_status (st : MissionStatus) (completedAt : option Z) (m : Mission) : Mission :=
  {| mission_id := mission_id m; mission_title := mission_title m;
     mission_description := mission_description m; mission_status := st;
     mission_priority := mission_priority m;
     mission_completedAt := set_if_defined completedAt (mission_completedAt m) |}.

Definition set_plan_status (st : PlanStatus) (p : PlanRow) : PlanRow :=
  {| plan_id := plan_id p; plan_missionId := plan_missionId p; plan_version := plan_version p;
     plan_title := plan_title p; plan_description := plan_description p; plan_status := st;
     plan_estimatedDuration := plan_estimatedDuration p |}.

Definition set_task_started (now : Z) (t : Task) : Task :=
  {| task_id := task_id t; task_planId := task_planId t; task_title := task_title t;
     task_status := TaskInProgress; task_priority := task_priority t;
     task_toolName := task_toolName t; task_toolParams := task_toolParams t;
     task_dependencies := task_dependencies t; task_startedAt := Some now;
     task_completedAt := task_completedAt t; task_result := task_result t |}.

Definition set_task_finished (st : TaskStatus) (now : Z) (result : option Json) (t : Task) : Task :=
  {| task_id := task_id t; task_planId := task_planId t; task_title := task_title t;
     task_status := st; task_priority := task_priority t;
     task_toolName := task_toolName t; task_toolParams := task_toolParams t;
     task_dependencies := task_dependencies t; task_startedAt := task_startedAt t;
     task_completedAt := Some now; task_result := set_if_defined result (task_result t) |}.

Definition update_mission (k : string) (f : Mission -> Mission) : M unit :=
  write (with_missions (update_rows mission_id k f)).
Definition update_plan (k : string) (f : PlanRow -> PlanRow) : M unit :=
  write (with_plans (update_rows plan_id k f)).
Definition update_task (k : string) (f : Task -> Task) : M unit :=
  write (with_tasks (update_rows task_id k f)).

(** [db.insert(schema.plans).values(..).returning()]: the key comes from
    [createId()]; a key that is already in the table is refused, and so is
    a row whose [mission_id] names no mission ([references(() =>
    missions.id)]). *)
Definition insert_plan (row : string -> PlanRow) : M PlanRow :=
  k <- ask createId ;;
  existing <- query (fun d => find_row plan_id k (plans d)) ;;
  match existing with
  | Some _ => throw "UNIQUE constraint failed: plans.id"
  | None =>
      mission <- query (fun d => find_row mission_id (plan_missionId (row k)) (missions d)) ;;
      match mission with
      | None => throw "FOREIGN KEY constraint failed"
      | Some _ => write (with_plans (fun rows => (rows ++ [row k])%list)) ;;; ret (row k)
      end
  end.

(** The same for a task, whose [plan_id] references [plans.id]. *)
Definition insert_task (row : string -> Task) : M Task :=
  k <- ask createId ;;
  existing <- query (fun d => find_row task_id k (tasks d)) ;;
  match existing with
  | Some _ => throw "UNIQUE constraint failed: tasks.id"
  | None =>
      plan <- query (fun d => find_row plan_id (task_planId (row k)) (plans d)) ;;
      match plan with
      | None => throw "FOREIGN KEY constraint failed"
      | Some _ => write (with_tasks (fun rows => (rows ++ [row k])%list)) ;;; ret (row k)
      end
  end.

(** A usage record may be filed under a task: [task_id] references
    [tasks.id] and may be [null]. *)
Definition references_task (d : Database) (taskId : option string) : bool :=
  match taskId with
  | Some k => bool_decide (is_Some (find_row task_id k (tasks d)))
  | None => true
  end.

Arguments references_task d taskId : simpl never.

(** The [tool_usage] table is only ever appended to and never read back by
    key; its generated key column is left out.  The insert is refused when
    its [task_id] names no task. *)
Definition insert_toolUsage (row : ToolUsage) : M unit :=
  referenced <- query (fun d => references_task d (usage_taskId row)) ;;
  if (referenced : bool)
  then write (with_toolUsage (fun rows => (rows ++ [row])%list))
  else throw "FOREIGN KEY constraint failed".


End EngineOps.

(** ** The engines ([core.ts]) *)

Section Engines.
Context `{Oracles}.

(** *** [ToolRegistry] ([tools/base.ts]): a map from names to tools *)

Definition ToolRegistry : Type := list Tool.

Definition registry_get (registry : ToolRegistry) (name : string) : option Tool :=
  List.find (fun tool => bool_decide (tool_name tool = name)) registry.

Definition registry_getNames (registry : ToolRegistry) : list string :=
  List.map tool_name registry.

(** *** [ToolUseEngine] *)

(** [if (task.toolName)]: a missing or empty name is falsy. *)
Definition truthy_name (name : option string) : option string :=
  match name with
  | Some "" => None
  | other => other
  end.

Definition selectTool (registry : ToolRegistry) (task : Task) : M (option Tool) :=
  match truthy_name (task_toolName task) with
  | Some name => ret (registry_get registry name)
  | None =>
      try_catch
        (selected <- ask_exc (askSelectedTool task (registry_getNames registry)) ;;
         ret (registry_get registry selected))
        (fun _ => ret None)
  end.

Definition executeTool (tool : Tool) (params : Json) (context : ExecutionContext)
    : M ToolResult :=
  startTime <- ask dateNow ;;
  try_catch
    (result <- ask_exc (tool_execute tool params) ;;
     endTime <- ask dateNow ;;
     insert_toolUsage {| usage_taskId := ctx_taskId context;
                         usage_toolName := tool_name tool;
                         usage_parameters := params;
                         usage_result := result_data result;
                         usage_success := result_success result;
                         usage_duration := endTime - startTime;
                         usage_errorMessage := result_error result |} ;;;
     ret result)
    (fun error =>
     endTime <- ask dateNow ;;
     insert_toolUsage {| usage_taskId := ctx_taskId context;
                         usage_toolName := tool_name tool;
                         usage_parameters := params;
                         usage_result := None;
                         usage_success := false;
                         usage_duration := endTime - startTime;
                         usage_errorMessage := Some error |} ;;;
     throw error).

(** *** [AutonomousEngine] *)

(** [task.toolParams || {}] *)
Definition toolParams_or_empty (toolParams : option Json) : Json :=
  match toolParams with
  | Some value => if js_truthy toolParams then value else JObj []
  | None => JObj []
  end.

Definition with_taskId (context : ExecutionContext) (k : string) : ExecutionContext :=
  {| ctx_missionId := ctx_missionId context; ctx_planId := ctx_planId context;
     ctx_taskId := Some k |}.

Definition executeTask (registry : ToolRegistry) (task : Task) (context : ExecutionContext)
    : M ToolResult :=
  try_catch
    (startedAt <- ask dateNow ;;
     update_task (task_id task) (set_task_started startedAt) ;;;
     tool <- selectTool registry task ;;
     match tool with
     | None => throw ("No suitable tool found for task: " ++ task_title task)
     | Some tool =>
         result <- executeTool tool (toolParams_or_empty (task_toolParams task))
                     (with_taskId context (task_id task)) ;;
         let status := if result_success result then TaskCompleted else TaskFailed in
         completedAt <- ask dateNow ;;
         update_task (task_id task) (set_task_finished status completedAt (result_data result)) ;;;
         ret result
     end)
    (fun error =>
     completedAt <- ask dateNow ;;
     update_task (task_id task)
       (set_task_finished TaskFailed completedAt (Some (JObj [("error", JStr error)]))) ;;;
     throw error).

(** [task.dependencies.filter(depId => !dependencyStatuses.find(t =>
    t.id === depId && t.status === 'completed'))] *)
Definition incompleteDeps (dependencyStatuses : list Task) (deps : list string) : list string :=
  List.filter
    (fun depId =>
       negb (existsb (fun t => bool_decide (task_id t = depId)
                               && bool_decide (task_status t = TaskCompleted))
               dependencyStatuses))
    deps.

(** The test that makes [executePlan] skip a task: it has dependencies and,
    among the rows of the plan's tasks, one of them is not [completed]. *)
Definition dependenciesIncomplete (plan : Plan) (task : Task) (d : Database) : bool :=
  match task_dependencies task with
  | Some (depId :: rest) =>
      let dependencyStatuses :=
        List.filter (fun t => bool_decide (task_planId t = plan_id plan)) (tasks d) in
      negb (bool_decide (incompleteDeps dependencyStatuses (depId :: rest) = []))
  | _ => false
  end.

(** One iteration of the loop of [executePlan], on the two arrays
    [completedTasks] and [failedTasks]; a skipped task ([continue]) leaves
    both as they are. *)
Definition executePlan_step (registry : ToolRegistry) (plan : Plan)
    (context : ExecutionContext) (arrays : list Task * list Task) (task : Task)
    : M (list Task * list Task) :=
  let '(completedTasks, failedTasks) := arrays in
  try_catch
    (skip <- query (dependenciesIncomplete plan task) ;;
     if (skip : bool) then ret (completedTasks, failedTasks)
     else
       result <- executeTask registry task context ;;
       if result_success result
       then ret ((completedTasks ++ [task])%list, failedTasks)
       else ret (completedTasks, (failedTasks ++ [task])%list))
    (fun error => ret (completedTasks, (failedTasks ++ [task])%list)).

Fixpoint executePlan_loop (registry : ToolRegistry) (plan : Plan)
    (context : ExecutionContext) (sortedTasks : list Task)
    (arrays : list Task * list Task) : M (list Task * list Task) :=
  match sortedTasks with
  | [] => ret arrays
  | task :: rest =>
      arrays' <- executePlan_step registry plan context arrays task ;;
      executePlan_loop registry plan context rest arrays'
  end.

(** Of the statements of the outer [try] only the sorter throws, before the
    loop is entered: the handler finds both arrays empty. *)
Definition executePlan (registry : ToolRegistry) (plan : Plan) (context : ExecutionContext)
    : M ExecutionResult :=
  try_catch
    (update_plan (plan_id plan) (set_plan_status PlanActive) ;;;
     sortedTasks <- lift_exc (Sorter.sortTasksByPriorityAndDependencies (plan_tasks plan)) ;;
     arrays <- executePlan_loop registry plan context sortedTasks ([], []) ;;
     let '(completedTasks, failedTasks) := arrays in
     let finalStatus :=
       if bool_decide (failedTasks = []) then PlanCompleted else PlanFailed in
     update_plan (plan_id plan) (set_plan_status finalStatus) ;;;
     ret {| exec_success := bool_decide (failedTasks = []);
            exec_completedTasks := completedTasks;
            exec_failedTasks := failedTasks;
            exec_reflections := [];
            exec_error := None |})
    (fun error =>
     update_plan (plan_id plan) (set_plan_status PlanFailed) ;;;
     ret {| exec_success := false;
            exec_completedTasks := [];
            exec_failedTasks := [];
            exec_reflections := [];
            exec_error := Some error |}).

End Engines.

Section Planning.
Context `{Oracles}.

(** *** [PlanningEngine] *)

Definition new_task (planId : string) (taskData : TaskData) (k : string) : Task :=
  {| task_id := k; task_planId := planId; task_title := data_title taskData;
     task_status := TaskPending; task_priority := default 0 (data_priority taskData);
     task_toolName := data_toolName taskData; task_toolParams := data_toolParams taskData;
     task_dependencies := data_dependencies taskData; task_startedAt := None;
     task_completedAt := None; task_result := None |}.

(** [for (const taskData of planData.tasks) { insert; tasks.push(newTask) }] *)
Fixpoint insert_tasks (planId : string) (taskDatas : list TaskData) (created : list Task)
    : M (list Task) :=
  match taskDatas with
  | [] => ret created
  | taskData :: rest =>
      newTask <- insert_task (new_task planId taskData) ;;
      insert_tasks planId rest (created ++ [newTask])%list
  end.

Definition iterate_tasks (planData : PlanData) : M (list TaskData) :=
  match data_plan_tasks planData with
  | Some taskDatas => ret taskDatas
  | None => throw "planData.tasks is not iterable"
  end.

(** The [catch] of the three methods of the planning engine logs the error
    and throws it again; it is left out. *)
Definition createPlan (mission : Mission) (context : ExecutionContext) : M PlanningResult :=
  planData <- ask_exc (generatePlan (ForMission mission)) ;;
  newPlan <- insert_plan (fun k =>
               {| plan_id := k; plan_missionId := mission_id mission; plan_version := 1;
                  plan_title := data_plan_title planData;
                  plan_description := data_plan_description planData;
                  plan_status := PlanDraft;
                  plan_estimatedDuration := data_plan_estimatedDuration planData |}) ;;
  taskDatas <- iterate_tasks planData ;;
  created <- insert_tasks (plan_id newPlan) taskDatas [] ;;
  ret {| planning_plan := {| plan_row := newPlan; plan_tasks := created |};
         planning_reasoning := data_plan_reasoning planData;
         planning_confidence := data_plan_confidence planData |}.



(** *** [GoalOrientedEngine] *)

Definition count_completed (rows : list Task) : nat :=
  length (List.filter (fun t => bool_decide (task_status t = TaskCompleted)) rows).

(** [completedTasks.length / allTasks.length] for a non-empty [allTasks] *)
Definition ratio (n d : nat) : Q := Z.of_nat n # Pos.of_nat d.

Definition trackProgress (mission : Mission) (context : ExecutionContext) : M Q :=
  try_catch
    (missionPlans <- query (fun d => List.filter
                              (fun p => bool_decide (plan_missionId p = mission_id mission))
                              (plans d)) ;;
     match missionPlans with
     | [] => ret 0%Q
     | first :: _ =>
         allTasks <- query (fun d => List.filter
                              (fun t => bool_decide (task_planId t = plan_id first))
                              (tasks d)) ;;
         let progress :=
           match allTasks with
           | [] => 0%Q
           | _ => ratio (count_completed allTasks) (length allTasks)
           end in
         ret (Qmin progress 1)
     end)
    (fun _ => ret 0%Q).

Definition validateCompletion (mission : Mission) (result : ExecutionResult)
    (context : ExecutionContext) : M bool :=
  try_catch
    (assessmentData <- ask_exc (assessCompletion mission result) ;;
     ret (assessment_completed assessmentData
          && Qle_bool (9 # 10) (assessment_completionPercentage assessmentData)))
    (fun _ => ret false).

Definition adjustStrategy (mission : Mission) (plan : Plan) (context : ExecutionContext)
    : M Plan :=
  try_catch
    (progress <- trackProgress mission context ;;
     if negb (Qle_bool (1 # 2) progress) then
       adjustmentPlan <- ask_exc (generatePlan (ForAdjustment mission plan progress)) ;;
       newPlan <- insert_plan (fun k =>
                    {| plan_id := k; plan_missionId := mission_id mission;
                       plan_version := number_add (plan_version plan) 1;
                       plan_title := data_plan_title adjustmentPlan;
                       plan_description := data_plan_description adjustmentPlan;
                       plan_status := PlanDraft;
                       plan_estimatedDuration := data_plan_estimatedDuration adjustmentPlan |}) ;;
       update_plan (plan_id plan) (set_plan_status PlanSuperseded) ;;;
       ret {| plan_row := newPlan; plan_tasks := [] |}
     else ret plan)
    (fun _ => ret plan).

(** *** [ServiceManagementAgentImpl] *)

(** The capability interfaces the orchestrator calls ([this.planning],
    [this.autonomous], [this.goalOriented]). *)
Record Capabilities := {
  planning_createPlan : Mission -> ExecutionContext -> M PlanningResult;
  autonomous_executePlan : Plan -> ExecutionContext -> M ExecutionResult;
  goalOriented_validateCompletion : Mission -> ExecutionResult -> ExecutionContext -> M bool;
}.

(** The capabilities the constructor installs. *)
Definition ServiceManagementAgentImpl (registry : ToolRegistry) : Capabilities :=
  {| planning_createPlan := createPlan;
     autonomous_executePlan := executePlan registry;
     goalOriented_validateCompletion := validateCompletion |}.

Definition executeMission (agent : Capabilities) (mission : Mission) : M ExecutionResult :=
  try_catch
    (update_mission (mission_id mission) (set_mission_status MissionPlanning None) ;;;
     let context := {| ctx_missionId := mission_id mission; ctx_planId := "";
                       ctx_taskId := None |} in
     planningResult <- planning_createPlan agent mission context ;;
     let context := {| ctx_missionId := mission_id mission;
                       ctx_planId := plan_id (planning_plan planningResult);
                       ctx_taskId := None |} in
     update_mission (mission_id mission) (set_mission_status MissionExecuting None) ;;;
     executionResult <- autonomous_executePlan agent (planning_plan planningResult) context ;;
     isCompleted <- goalOriented_validateCompletion agent mission executionResult context ;;
     let finalStatus := if (isCompleted : bool) then MissionCompleted else MissionFailed in
     completedAt <- (if isCompleted then now <- ask dateNow ;; ret (Some now) else ret None) ;;
     update_mission (mission_id mission) (set_mission_status finalStatus completedAt) ;;;
     ret {| exec_success := isCompleted;
            exec_completedTasks := exec_completedTasks executionResult;
            exec_failedTasks := exec_failedTasks executionResult;
            exec_reflections := exec_reflections executionResult;
            exec_error := exec_error executionResult |})
    (fun error =>
     update_mission (mission_id mission) (set_mission_status MissionFailed None) ;;;
     ret {| exec_success := false;
            exec_completedTasks := [];
            exec_failedTasks := [];
            exec_reflections := [];
            exec_error := Some error |}).

Definition pauseMission (missionId : string) : M unit :=
  update_mission missionId (set_mission_status MissionPending None).

Definition resumeMission (agent : Capabilities) (missionId : string) : M unit :=
  mission <- query (fun d => find_row mission_id missionId (missions d)) ;;
  match mission with
  | Some row => executeMission agent row ;;; ret tt
  | None => ret tt
  end.

Definition cancelMission (missionId : string) : M unit :=
  update_mission missionId (set_mission_status MissionFailed None).

(** *** [PATCH /api/missions/[id]] ([route.ts]): the HTTP status it answers

    [PATCH] is the handler from the test of the action on, for an action
    that is a string or missing; [PATCH_request] is the whole handler, on
    the body of the request. *)

Definition PATCH (missionId : string) (action : option string) : M Z :=
  match truthy_name action with
  | None => ret 400
  | Some "pause" =>
      update_mission missionId (set_mission_status MissionPending None) ;;; ret 200
  | Some "resume" =>
      update_mission missionId (set_mission_status MissionExecuting None) ;;; ret 200
  | Some "cancel" =>
      update_mission missionId (set_mission_status MissionFailed None) ;;; ret 200
  | Some _ => ret 400
  end.


(** *** [MissionDashboard]: the buttons shown for the status last fetched *)

Definition offeredActions (status : MissionStatus) : list string :=
  ((if bool_decide (status = MissionExecuting) then ["pause"] else [])
   ++ (if bool_decide (status = MissionPending) then ["resume"] else [])
   ++ (if bool_decide (status = MissionExecuting) || bool_decide (status = MissionPending)
       then ["cancel"] else []))%list.

End Planning.

(** ** A small world for running the engine on concrete inputs *)

Module Demo.

(** The world is a counter: the clock advances by five milliseconds at each
    reading, keys are numbered, the planning service returns a fixed plan and
    the judge fails. *)
Definition demo_planData : PlanData :=
  {| data_plan_title := "Index the wiki";
     data_plan_description := None;
     data_plan_estimatedDuration := Some 30;
     data_plan_tasks :=
       Some [ {| data_title := "load"; data_priority := Some 0;
                 data_toolName := Some "ok"; data_toolParams := None;
                 data_dependencies := None |} ];
     data_plan_reasoning := "one page";
     data_plan_confidence := 1 |}.

#[local] Instance demo_oracles : Oracles :=
  {| World := nat;
     dateNow := fun w => (5 * Z.of_nat w, S w);
     createId := fun w => ("id" ++ pretty w, S w);
     generatePlan := fun _ w => (Return demo_planData, S w);
     askSelectedTool := fun _ _ w => (Throw "no answer", S w);
     assessCompletion := fun _ _ w => (Throw "judge unavailable", S w) |}.

Definition ok_tool : Tool :=
  {| tool_name := "ok";
     tool_execute := fun params w =>
       (Return {| result_success := true; result_data := Some (JStr "done");
                  result_error := None |}, S w) |}.

Definition failing_tool : Tool :=
  {| tool_name := "failing";
     tool_execute := fun params w =>
       (Return {| result_success := false; result_data := Some JNull;
                  result_error := Some "page not found" |}, S w) |}.

Definition throwing_tool : Tool :=
  {| tool_name := "throwing";
     tool_execute := fun params w => (Throw "socket hang up", S w) |}.

Definition demo_registry : ToolRegistry := [ok_tool; failing_tool; throwing_tool].

Definition demo_task (k : string) (priority : Z) (tool : string) (deps : option (list string))
    : Task :=
  {| task_id := k; task_planId := "p1"; task_title := "task " ++ k;
     task_status := TaskPending; task_priority := priority;
     task_toolName := Some tool; task_toolParams := None;
     task_dependencies := deps; task_startedAt := None;
     task_completedAt := None; task_result := None |}.

Definition demo_plan (planTasks : list Task) : Plan :=
  {| plan_row := {| plan_id := "p1"; plan_missionId := "m1"; plan_version := 1;
                    plan_title := "plan"; plan_description := None;
                    plan_status := PlanDraft; plan_estimatedDuration := None |};
     plan_tasks := planTasks |}.

Definition demo_mission (status : MissionStatus) : Mission :=
  {| mission_id := "m1"; mission_title := "mission"; mission_description := "";
     mission_status := status; mission_priority := Medium;
     mission_completedAt := None |}.

Definition demo_state (status : MissionStatus) (planTasks : list Task) : State :=
  {| db := {| missions := [demo_mission status];
              plans := [plan_row (demo_plan planTasks)];
              tasks := planTasks;
              toolUsage := [] |};
     world := 0%nat |}.

Definition demo_context : ExecutionContext :=
  {| ctx_missionId := "m1"; ctx_planId := "p1"; ctx_taskId := None |}.

(** Task sets: a chain of dependencies, a cycle, a task blocked by a
    failing one, and three independent tasks of priorities 2, 0 and 1. *)
Definition chain_tasks : list Task :=
  [demo_task "a" 2 "ok" None;
   demo_task "b" 0 "ok" (Some ["a"]);
   demo_task "c" 1 "ok" (Some ["a"; "b"])].

Definition cyclic_tasks : list Task :=
  [demo_task "a" 0 "ok" (Some ["b"]);
   demo_task "b" 1 "ok" (Some ["a"]);
   demo_task "c" 2 "ok" None].

Definition task_A : Task := demo_task "a" 1 "failing" None.
Definition task_B : Task := demo_task "b" 0 "ok" (Some ["a"]).

Definition independent_tasks : list Task :=
  [demo_task "x" 2 "ok" None; demo_task "y" 0 "ok" None; demo_task "z" 1 "ok" None].

Definition failed_usage_of_A : ToolUsage :=
  {| usage_taskId := Some "a"; usage_toolName := "failing"; usage_parameters := JObj [];
     usage_result := Some JNull; usage_success := false; usage_duration := 10;
     usage_errorMessage := Some "page not found" |}.

(** An agent whose planner is out of service. *)
Definition unplanned_agent : Capabilities :=
  {| planning_createPlan := fun _ _ => throw "planner unavailable";
     autonomous_executePlan := executePlan demo_registry;
     goalOriented_validateCompletion := validateCompletion |}.

End Demo.

(** ** The tools ([tools/base.ts], [tools/confluence.ts]) *)

Section Tools.
Context `{Oracles}.

(** *** [ToolRegistry]: the other methods of the map *)

(** [this.tools.set(tool.name, tool)]: a name that is already registered
    keeps its place and gets the new tool. *)
Fixpoint registry_register (registry : ToolRegistry) (tool : Tool) : ToolRegistry :=
  match registry with
  | [] => [tool]
  | known :: rest =>
      if bool_decide (tool_name known = tool_name tool) then tool :: rest
      else known :: registry_register rest tool
  end.

Definition registry_has (registry : ToolRegistry) (name : string) : bool :=
  existsb (fun tool => bool_decide (tool_name tool = name)) registry.

Definition registry_getAll (registry : ToolRegistry) : list Tool := registry.

(** *** [BaseTool] *)

(** [createResult]: the [metadata] it adds (tool name and [new Date()]) is
    not part of [ToolResult] here; the reading of the clock is kept. *)
Definition createResult (success : bool) (data : option Json) (error : option string)
    : World -> ToolResult * World :=
  fun w => let '(_, w') := dateNow w in
           ({| result_success := success; result_data := data; result_error := error |}, w').

(** The names every object inherits from [Object.prototype], and those an
    array inherits from [Array.prototype] before them (ECMAScript 2023). *)
Definition object_prototype_names : list string :=
  ["constructor"; "__defineGetter__"; "__defineSetter__"; "hasOwnProperty";
   "__lookupGetter__"; "__lookupSetter__"; "isPrototypeOf"; "propertyIsEnumerable";
   "toString"; "valueOf"; "__proto__"; "toLocaleString"].

Definition array_prototype_names : list string :=
  ["at"; "concat"; "copyWithin"; "fill"; "find"; "findIndex"; "findLast";
   "findLastIndex"; "lastIndexOf"; "pop"; "push"; "reverse"; "shift"; "unshift";
   "slice"; "sort"; "splice"; "includes"; "indexOf"; "join"; "keys"; "entries";
   "values"; "forEach"; "filter"; "flat"; "flatMap"; "map"; "every"; "some";
   "reduce"; "reduceRight"; "toReversed"; "toSorted"; "toSpliced"; "with"].

(** What [param in params] and [params[param]] find: nothing; an own
    property, which for a value that came out of JSON is a JSON value; or a
    property of the prototype chain, which is a function or the prototype
    itself and so neither [undefined] nor [null]. *)
Inductive Property :=
| Absent
| Own (value : Json)
| Inherited.

(** The array index that [param] spells: decimal digits without a leading
    zero. *)
Definition digit_of (c : Ascii.ascii) : option nat :=
  let code := Ascii.nat_of_ascii c in
  if bool_decide (48 <= code <= 57)%nat then Some (code - 48)%nat else None.

Fixpoint digits_value (text : string) (value : nat) : option nat :=
  match text with
  | EmptyString => Some value
  | String c rest =>
      match digit_of c with
      | Some d => digits_value rest (10 * value + d)%nat
      | None => None
      end
  end.

Definition array_index (param : string) : option nat :=
  if bool_decide (param = "") then None
  else if bool_decide (param = "0") then Some O
  else if String.prefix "0" param then None
  else digits_value param 0.

(** The element of an array (which, coming out of JSON, has no holes) under
    the index that [param] spells. *)
Definition array_element (items : list Json) (param : string) : option Json :=
  match array_index param with
  | Some index => nth_error items index
  | None => None
  end.

(** The message of the [TypeError] that [param in value] throws for a
    [value] that is not an object (the text of V8; a number is written in
    decimal digits, as the integers below 10^21 are). *)
Definition in_operator_error (param : string) (value : Json) : string :=
  "Cannot use 'in' operator to search for '" ++ param ++ "' in "
  ++ match value with
     | JNull => "null"
     | JBool true => "true"
     | JBool false => "false"
     | JNum z => pretty z
     | JStr text => text
     | _ => ""
     end.

Definition property_of (params : Json) (param : string) : Exc Property :=
  match params with
  | JObj fields =>
      match get_property params param with
      | Some value => Return (Own value)
      | None =>
          if bool_decide (param ∈ object_prototype_names) then Return Inherited
          else Return Absent
      end
  | JArr items =>
      if bool_decide (param = "length") then Return (Own (JNum (Z.of_nat (length items))))
      else
        match array_element items param with
        | Some value => Return (Own value)
        | None =>
            if bool_decide (param ∈ (array_prototype_names ++ object_prototype_names)%list)
            then Return Inherited
            else Return Absent
        end
  | _ => Throw (in_operator_error param params)
  end.

(** [validateParams]: the first required parameter that is not [in] the
    parameters, or is [undefined] or [null], is reported; parameters that
    are not an object make [in] throw. *)
Fixpoint validateParams (params : Json) (required : list string) : Exc unit :=
  match required with
  | [] => Return tt
  | param :: rest =>
      match property_of params param with
      | Throw error => Throw error
      | Return Absent | Return (Own JNull) => Throw ("Missing required parameter: " ++ param)
      | Return _ => validateParams params rest
      end
  end.

(** [withRetry]: [for (attempt = 1; attempt <= maxRetries; attempt++)],
    for an integer [maxRetries].  [remaining] counts the iterations that are
    left, [lastError] is the variable of that name - thrown unassigned, as
    "undefined", when the loop does not run - and [setTimeout] is the wait
    between attempts. *)
Fixpoint withRetry_loop {T} (setTimeout : Z -> World -> World)
    (operation : World -> Exc T * World) (maxRetries delay : Z)
    (remaining : nat) (attempt : Z) (lastError : option string)
    : World -> Exc T * World :=
  fun w =>
    match remaining with
    | O => (Throw (default "undefined" lastError), w)
    | S remaining' =>
        match operation w with
        | (Return value, w') => (Return value, w')
        | (Throw error, w') =>
            if bool_decide (attempt = maxRetries) then (Throw error, w')
            else withRetry_loop setTimeout operation maxRetries delay remaining'
                   (attempt + 1) (Some error)
                   (setTimeout (delay * 2 ^ (attempt - 1)) w')
        end
    end.

Definition withRetry {T} (setTimeout : Z -> World -> World)
    (operation : World -> Exc T * World) (maxRetries delay : Z)
    : World -> Exc T * World :=
  withRetry_loop setTimeout operation maxRetries delay (Z.to_nat maxRetries) 1 None.

(** *** [ConfluenceLoaderTool] and [ConfluenceSearchTool]

    What happens between the check of the parameters and the result - the
    fetch of the page, the embedding, the row of the knowledge base, the
    ranking of the search - is outside the engine: an oracle that returns the
    [data] of the result or throws. *)
Definition confluence_execute (required : list string)
    (work : Json -> World -> Exc Json * World) (params : Json)
    : World -> Exc ToolResult * World :=
  fun w =>
    match validateParams params required with
    | Throw error =>
        let '(result, w') := createResult false (Some JNull) (Some error) w in
        (Return result, w')
    | Return _ =>
        match work params w with
        | (Return data, w1) =>
            let '(result, w2) := createResult true (Some data) None w1 in
            (Return result, w2)
        | (Throw error, w1) =>
            let '(result, w2) := createResult false (Some JNull) (Some error) w1 in
            (Return result, w2)
        end
    end.

Definition ConfluenceLoaderTool (indexPage : Json -> World -> Exc Json * World) : Tool :=
  {| tool_name := "confluence_loader";
     tool_execute := confluence_execute ["url"] indexPage |}.

Definition ConfluenceSearchTool (searchIndex : Json -> World -> Exc Json * World) : Tool :=
  {| tool_name := "confluence_search";
     tool_execute := confluence_execute ["query"] searchIndex |}.


End Tools.

(** ** The Confluence route ([POST /api/confluence]) *)

Section ConfluenceRoute.
Context `{Oracles}.

(** The HTTP status and the [success], [data] and [error] of the body. *)
Record RouteResponse := {
  response_status : Z;
  response_success : bool;
  response_data : option Json;
  response_error : option string;
}.

Definition respond_error (status : Z) (error : string) : RouteResponse :=
  {| response_status := status; response_success := false; response_data := None;
     response_error := Some error |}.

Definition respond_result (result : ToolResult) : RouteResponse :=
  {| response_status := 200; response_success := result_success result;
     response_data := result_data result; response_error := result_error result |}.

(** [{ query, limit }]: a [limit] that is [undefined] is no parameter. *)
Definition search_params (query : Json) (limit : option Json) : Json :=
  JObj (("query", query) :: match limit with
                            | Some value => [("limit", value)]
                            | None => []
                            end).

Definition run_tool (tool : Tool) (params : Json) : World -> RouteResponse * World :=
  fun w =>
    match tool_execute tool params w with
    | (Return result, w') => (respond_result result, w')
    | (Throw _, w') => (respond_error 500 "Internal server error", w')
    end.

(** [POST]: [body] is what [request.json()] gives, [None] when the body
    is not JSON and the call throws; that throw and the one of destructuring
    [null] go to the [catch] of the route, which answers 500. *)
Definition confluence_POST (indexPage searchIndex : Json -> World -> Exc Json * World)
    (body : option Json) : World -> RouteResponse * World :=
  fun w =>
    match body with
    | None | Some JNull => (respond_error 500 "Internal server error", w)
    | Some parsed =>
        let action := get_property parsed "action" in
        let url := get_property parsed "url" in
        let query := get_property parsed "query" in
        let limit := get_property parsed "limit" in
        if negb (js_truthy action) then (respond_error 400 "Action is required", w)
        else
          match action with
          | Some (JStr name) =>
              if bool_decide (name = "load") then
                match url with
                | Some value =>
                    if js_truthy url
                    then run_tool (ConfluenceLoaderTool indexPage) (JObj [("url", value)]) w
                    else (respond_error 400 "URL is required for load action", w)
                | None => (respond_error 400 "URL is required for load action", w)
                end
              else if bool_decide (name = "search") then
                match query with
                | Some value =>
                    if js_truthy query
                    then run_tool (ConfluenceSearchTool searchIndex)
                           (search_params value limit) w
                    else (respond_error 400 "Query is required for search action", w)
                | None => (respond_error 400 "Query is required for search action", w)
                end
              else (respond_error 400 "Invalid action", w)
          | _ => (respond_error 400 "Invalid action", w)
          end
    end.

End ConfluenceRoute.

(** ** The mission page ([GET /api/missions/[id]], [MissionDashboard]) *)

Section Dashboard.
Context `{Oracles}.

(** What the route returns of the store: the mission, its plans and the
    tasks of the first of them.  The execution logs and the reflections it
    also returns are tables of their own, which the engine modelled here never
    reads; they are left out. *)
Record MissionDetails := {
  details_mission : Mission;
  details_plans : list PlanRow;
  details_tasks : list Task;
}.

(** [GET]: [None] is the answer 404, "Mission not found". *)
Definition GET (missionId : string) : M (option MissionDetails) :=
  mission <- query (fun d => firstn 1 (List.filter
                               (fun m => bool_decide (mission_id m = missionId))
                               (missions d))) ;;
  match mission with
  | [] => ret None
  | row :: _ =>
      plans <- query (fun d => List.filter
                         (fun p => bool_decide (plan_missionId p = missionId)) (plans d)) ;;
      tasks <- match plans with
               | first :: _ =>
                   query (fun d => List.filter
                            (fun t => bool_decide (task_planId t = plan_id first)) (tasks d))
               | [] => ret []
               end ;;
      ret (Some {| details_mission := row; details_plans := plans; details_tasks := tasks |})
  end.

(** [calculateProgress] of the dashboard, on the details it last fetched
    ([null] before the first answer). *)
Definition calculateProgress (details : option MissionDetails) : Q :=
  match details with
  | None => 0%Q
  | Some fetched =>
      match details_tasks fetched with
      | [] => 0%Q
      | _ => (ratio (count_completed (details_tasks fetched))
                (length (details_tasks fetched)) * 100)%Q
      end
  end.

End Dashboard.

(** More inputs for the runs. *)
Module DemoTools.

Import Demo.

(** A world that counts the calls of an operation and adds up the waits. *)
Record Meter := { meter_calls : nat; meter_waited : Z }.

#[local] Instance meter_oracles : Oracles :=
  {| World := Meter;
     dateNow := fun w => (0, w);
     createId := fun w => ("id", w);
     generatePlan := fun _ w => (Throw "no planner", w);
     askSelectedTool := fun _ _ w => (Throw "no answer", w);
     assessCompletion := fun _ _ w => (Throw "no judge", w) |}.

Definition meter_wait (ms : Z) (w : Meter) : Meter :=
  {| meter_calls := meter_calls w; meter_waited := meter_waited w + ms |}.

Definition always_failing (w : Meter) : Exc Z * Meter :=
  (Throw "timeout", {| meter_calls := S (meter_calls w); meter_waited := meter_waited w |}).

(** A planner whose answer has no task list. *)
Definition listless_planData : PlanData :=
  {| data_plan_title := "Index the wiki";
     data_plan_description := None;
     data_plan_estimatedDuration := None;
     data_plan_tasks := None;
     data_plan_reasoning := "";
     data_plan_confidence := 0 |}.

#[local] Instance listless_oracles : Oracles :=
  {| World := nat;
     dateNow := fun w => (5 * Z.of_nat w, S w);
     createId := fun w => ("id" ++ pretty w, S w);
     generatePlan := fun _ w => (Return listless_planData, S w);
     askSelectedTool := fun _ _ w => (Throw "no answer", S w);
     assessCompletion := fun _ _ w => (Throw "judge unavailable", S w) |}.

(** Task sets: two tasks under one id; a task that names a tool nobody
    registered; a task that waits for an id without row; a plan of which one
    task of two is completed; a task for the loader without its [url]. *)
Definition repeated_tasks : list Task :=
  [demo_task "a" 1 "ok" None; demo_task "a" 0 "failing" None;
   demo_task "b" 2 "ok" (Some ["a"])].

Definition stray_task : Task := demo_task "a" 0 "telepathy" None.

Definition waiting_task : Task := demo_task "b" 0 "ok" (Some ["ghost"]).

Definition completed_task (k : string) : Task :=
  {| task_id := k; task_planId := "p1"; task_title := "task " ++ k;
     task_status := TaskCompleted; task_priority := 0;
     task_toolName := Some "ok"; task_toolParams := None;
     task_dependencies := None; task_startedAt := Some 0;
     task_completedAt := Some 5; task_result := None |}.

Definition half_done_tasks : list Task :=
  [completed_task "a"; demo_task "b" 1 "ok" None].


Definition demo_indexPage (params : Json) (w : @World demo_oracles)
    : Exc Json * @World demo_oracles :=
  (Return (JObj [("title", JStr "Runbook")]), S w).

Definition demo_searchIndex (params : Json) (w : @World demo_oracles)
    : Exc Json * @World demo_oracles :=
  (Throw "embedding service unavailable", S w).






End DemoTools.

(** ** Vocabulary of the properties *)

Close Scope string_scope.

(** [t] depends on [d]: both belong to the task set and the id of [d] is one
    of the dependency ids of [t]. *)
Definition depends_on (tasks : list Task) (t d : Task) : Prop :=
  t ∈ tasks ∧ d ∈ tasks ∧ task_id d ∈ Sorter.deps_of t.

(** A dependency cycle through [t]: a non-empty chain of dependency edges
    from [t] back to [t]. *)
Definition on_cycle (tasks : list Task) (t : Task) : Prop :=
  tc (depends_on tasks) t t.

Definition acyclic (tasks : list Task) : Prop :=
  ∀ t, ¬ on_cycle tasks t.

(** The tasks of a set are told apart by their ids (the primary key). *)
Definition distinct_ids (tasks : list Task) : Prop :=
  NoDup (task_id <$> tasks).

(** [d] occurs at an earlier position than [t]. *)
Definition occurs_before (out : list Task) (d t : Task) : Prop :=
  ∃ i j : nat, out !! i = Some d ∧ out !! j = Some t ∧ (i < j)%nat.

(** The position of the first task with id [k], the length when there is none. *)
Fixpoint pos (k : string) (l : list Task) : nat :=
  match l with
  | [] => O
  | u :: l' => if bool_decide (task_id u = k) then O else S (pos k l')
  end.

(** What the two marks and the output array satisfy between two calls of
    [visit]. *)
Record sort_inv (tasks : list Task) (st : Sorter.SortState) : Prop := {
  inv_visited : ∀ k, k ∈ Sorter.visited st ↔ ∃ t, t ∈ Sorter.sorted st ∧ task_id t = k;
  inv_sub : ∀ t, t ∈ Sorter.sorted st → t ∈ tasks;
  inv_nodup : NoDup (task_id <$> Sorter.sorted st);
  inv_disj : ∀ k, k ∈ Sorter.visiting st → k ∉ Sorter.visited st;
  inv_topo : ∀ t d, t ∈ Sorter.sorted st → d ∈ tasks → task_id d ∈ Sorter.deps_of t →
             (pos (task_id d) (Sorter.sorted st) < pos (task_id t) (Sorter.sorted st))%nat;
}.

(** What a call of [visit] that returns has achieved. *)
Definition visit_post (tasks : list Task) (t : Task) (st st' : Sorter.SortState) : Prop :=
  sort_inv tasks st' ∧ Sorter.visited st ⊆ Sorter.visited st' ∧ task_id t ∈ Sorter.visited st'.

Definition ids_of (tasks : list Task) : gset string := list_to_set (task_id <$> tasks).

Section Vocabulary.
Context `{Oracles}.

(** The usage record of one invocation, from its outcome and the measured
    duration. *)
Definition usage_record (context : ExecutionContext) (tool : Tool) (params : Json)
    (duration : Z) (outcome : Exc ToolResult) : ToolUsage :=
  {| usage_taskId := ctx_taskId context;
     usage_toolName := tool_name tool;
     usage_parameters := params;
     usage_result := match outcome with Return r => result_data r | Throw _ => None end;
     usage_success := match outcome with Return r => result_success r | Throw _ => false end;
     usage_duration := duration;
     usage_errorMessage :=
       match outcome with Return r => result_error r | Throw e => Some e end |}.

(** The status of the (first) row of task [k]. *)
Definition task_status_in (d : Database) (k : string) : option TaskStatus :=
  task_status <$> find_row task_id k (tasks d).

Definition plan_status_in (d : Database) (k : string) : option PlanStatus :=
  plan_status <$> find_row plan_id k (plans d).

Definition mission_status_in (d : Database) (k : string) : option MissionStatus :=
  mission_status <$> find_row mission_id k (missions d).

(** The effect on the store of running task [t] to the status [st], with
    the usage records [recs] of its tool invocation. *)
Definition task_run (t : Task) (st : TaskStatus) (recs : list ToolUsage) (s s' : State) : Prop :=
  missions (db s') = missions (db s) ∧ plans (db s') = plans (db s) ∧
  (∃ startedAt completedAt result,
     tasks (db s') =
       update_rows task_id (task_id t)
         (λ r, set_task_finished st completedAt result (set_task_started startedAt r))
         (tasks (db s))) ∧
  toolUsage (db s') = toolUsage (db s) ++ recs ∧
  (∀ r, r ∈ recs → usage_taskId r = Some (task_id t)
                   ∧ (usage_success r = true ↔ st = TaskCompleted)) ∧
  (length recs ≤ 1)%nat.

(** The rows of task [k]. *)
Definition rows_of (d : Database) (k : string) : list Task :=
  List.filter (λ r, bool_decide (task_id r = k)) (tasks d).


(** The store after [db.update(schema.plans).set({ status })] on a plan. *)
Definition with_plan_status (plan : Plan) (st : PlanStatus) (s : State) : State :=
  {| db := with_plans (update_rows plan_id (plan_id plan) (set_plan_status st)) (db s);
     world := world s |}.

(** The store after [db.update(schema.missions).set({ status, completedAt })]. *)
Definition with_mission_status (missionId : string) (st : MissionStatus)
    (completedAt : option Z) (s : State) : State :=
  {| db := with_missions (update_rows mission_id missionId (set_mission_status st completedAt))
             (db s);
     world := world s |}.

(** The result [executeMission] returns from its [catch]. *)
Definition failure_result (error : string) : ExecutionResult :=
  {| exec_success := false; exec_completedTasks := []; exec_failedTasks := [];
     exec_reflections := []; exec_error := Some error |}.

Definition initial_context (mission : Mission) : ExecutionContext :=
  {| ctx_missionId := mission_id mission; ctx_planId := ""%string; ctx_taskId := None |}.

Definition plan_context (mission : Mission) (p : Plan) : ExecutionContext :=
  {| ctx_missionId := mission_id mission; ctx_planId := plan_id p; ctx_taskId := None |}.

(** The life cycle of a mission run as the specification words it, with the
    status writes made explicit: [planning], the plan is requested,
    [executing], the plan is executed, the judge is asked, then [completed]
    (with the completion time) or [failed]; a throw of any of the three calls
    goes to [failed] with the failure result. *)
Definition mission_lifecycle (agent : Capabilities) (mission : Mission) (s : State)
    : Exc ExecutionResult * State :=
  let k := mission_id mission in
  let s1 := with_mission_status k MissionPlanning None s in
  match planning_createPlan agent mission (initial_context mission) s1 with
  | (Throw e, s2) => (Return (failure_result e), with_mission_status k MissionFailed None s2)
  | (Return planningResult, s2) =>
      let plan := planning_plan planningResult in
      let s3 := with_mission_status k MissionExecuting None s2 in
      match autonomous_executePlan agent plan (plan_context mission plan) s3 with
      | (Throw e, s4) => (Return (failure_result e), with_mission_status k MissionFailed None s4)
      | (Return executionResult, s4) =>
          match goalOriented_validateCompletion agent mission executionResult
                  (plan_context mission plan) s4 with
          | (Throw e, s5) =>
              (Return (failure_result e), with_mission_status k MissionFailed None s5)
          | (Return isCompleted, s5) =>
              let verdict :=
                {| exec_success := isCompleted;
                   exec_completedTasks := exec_completedTasks executionResult;
                   exec_failedTasks := exec_failedTasks executionResult;
                   exec_reflections := exec_reflections executionResult;
                   exec_error := exec_error executionResult |} in
              if isCompleted then
                let '(now, w) := dateNow (world s5) in
                (Return verdict,
                 with_mission_status k MissionCompleted (Some now) {| db := db s5; world := w |})
              else (Return verdict, with_mission_status k MissionFailed None s5)
          end
      end
  end.

(** One of the three calls of [executeMission] throws [error], leaving the
    store [s'] behind. *)
Definition step_throws (agent : Capabilities) (mission : Mission) (s : State)
    (error : string) (s' : State) : Prop :=
  let s1 := with_mission_status (mission_id mission) MissionPlanning None s in
  planning_createPlan agent mission (initial_context mission) s1 = (Throw error, s')
  ∨ ∃ planningResult s2,
      planning_createPlan agent mission (initial_context mission) s1
      = (Return planningResult, s2)
      ∧ let plan := planning_plan planningResult in
        let s3 := with_mission_status (mission_id mission) MissionExecuting None s2 in
        autonomous_executePlan agent plan (plan_context mission plan) s3 = (Throw error, s')
        ∨ ∃ executionResult s4,
            autonomous_executePlan agent plan (plan_context mission plan) s3
            = (Return executionResult, s4)
            ∧ goalOriented_validateCompletion agent mission executionResult
                (plan_context mission plan) s4 = (Throw error, s').

End Vocabulary.

(** ** More vocabulary *)

(** What the marks and the output satisfy for any input of the sorter, also
    one with repeated ids. *)
Record marks_inv (tasks : list Task) (st : Sorter.SortState) : Prop := {
  marks_visited : ∀ k, k ∈ Sorter.visited st ↔ ∃ t, t ∈ Sorter.sorted st ∧ task_id t = k;
  marks_sub : ∀ t, t ∈ Sorter.sorted st → t ∈ tasks;
  marks_nodup : NoDup (task_id <$> Sorter.sorted st);
  marks_disj : ∀ k, k ∈ Sorter.visiting st → k ∉ Sorter.visited st;
}.

Section MoreVocabulary.
Context `{Oracles}.

(** Among the rows of the plan's tasks there is a [completed] one for [k]:
    what the dependency check of [executePlan] looks for. *)
Definition completed_in_plan (d : Database) (plan : Plan) (k : string) : Prop :=
  ∃ r, r ∈ tasks d ∧ task_id r = k ∧ task_planId r = plan_id plan
       ∧ task_status r = TaskCompleted.


(** The task rows [trackProgress] counts: those of the first plan of the
    mission in the plan table, none when the mission has no plan. *)
Definition measured_tasks (d : Database) (mission : Mission) : list Task :=
  match List.filter (λ p, bool_decide (plan_missionId p = mission_id mission)) (plans d) with
  | [] => []
  | first :: _ => List.filter (λ t, bool_decide (task_planId t = plan_id first)) (tasks d)
  end.




(** The answer 200 of the Confluence route with the outcome of the work of
    a tool. *)
Definition served (outcome : Exc Json * World) : RouteResponse * World :=
  match outcome with
  | (Return data, w1) =>
      ({| response_status := 200; response_success := true;
          response_data := Some data; response_error := None |}, (dateNow w1).2)
  | (Throw error, w1) =>
      ({| response_status := 200; response_success := false;
          response_data := Some JNull; response_error := Some error |}, (dateNow w1).2)
  end.

(** The world after [n] readings of the clock. *)
Definition after_readings (n : nat) (w : World) : World :=
  Nat.iter n (λ w, (dateNow w).2) w.

End MoreVocabulary.

(** * Properties *)

(** ** The sorter *)

Section SorterFacts.
Import Sorter.

Lemma same_id_same_task (tasks : list Task) (x y : Task) :
  distinct_ids tasks → x ∈ tasks → y ∈ tasks → task_id x = task_id y → x = y.
Proof.
  unfold distinct_ids. induction tasks as [|u l IH]; intros Hnd Hx Hy Heq.
  - by apply elem_of_nil in Hx.
  - rewrite fmap_cons in Hnd. apply NoDup_cons in Hnd as [Hnotin Hnd].
    apply elem_of_cons in Hx as [->|Hx]; apply elem_of_cons in Hy as [->|Hy]; auto.
    + exfalso. apply Hnotin. rewrite Heq. by apply list_elem_of_fmap_2.
    + exfalso. apply Hnotin. rewrite <- Heq. by apply list_elem_of_fmap_2.
Qed.

Lemma find_task_some (tasks : list Task) (k : string) (d : Task) :
  find_task tasks k = Some d → d ∈ tasks ∧ task_id d = k.
Proof.
  unfold find_task. intros Hf. apply find_some in Hf as [Hin Hk].
  split; [by apply list_elem_of_In | by apply bool_decide_eq_true in Hk].
Qed.

Lemma find_task_distinct (tasks : list Task) (d : Task) :
  distinct_ids tasks → d ∈ tasks → find_task tasks (task_id d) = Some d.
Proof.
  intros Hnd Hin. destruct (find_task tasks (task_id d)) as [d'|] eqn:Hf.
  - apply find_task_some in Hf as [Hin' Hid]. f_equal. eauto using same_id_same_task.
  - exfalso. unfold find_task in Hf.
    eapply find_none in Hf; [|by apply list_elem_of_In].
    by rewrite bool_decide_eq_false in Hf.
Qed.

(** *** Positions *)

Lemma pos_le_length k l : (pos k l ≤ length l)%nat.
Proof. induction l as [|u l IH]; simpl; [lia|]. case_bool_decide; lia. Qed.

Lemma pos_lt_length k l :
  (pos k l < length l)%nat ↔ ∃ t, t ∈ l ∧ task_id t = k.
Proof.
  induction l as [|u l IH]; simpl.
  - split; [lia|]. intros (t & Ht & _). by apply elem_of_nil in Ht.
  - case_bool_decide as Hk.
    + split; [|lia]. intros _. exists u. split; [left|done].
    + rewrite <- Nat.succ_lt_mono, IH. split.
      * intros (t & Ht & Hid). exists t. split; [by right|done].
      * intros (t & Ht & Hid). apply elem_of_cons in Ht as [->|Ht]; [done|eauto].
Qed.

Lemma pos_app_l k l l' :
  (∃ t, t ∈ l ∧ task_id t = k) → pos k (l ++ l') = pos k l.
Proof.
  induction l as [|u l IH]; simpl; intros (t & Ht & Hid).
  - by apply elem_of_nil in Ht.
  - case_bool_decide as Hk; [done|]. f_equal. apply IH.
    apply elem_of_cons in Ht as [->|Ht]; [done|eauto].
Qed.

Lemma pos_app_r k l l' :
  ¬ (∃ t, t ∈ l ∧ task_id t = k) → pos k (l ++ l') = (length l + pos k l')%nat.
Proof.
  induction l as [|u l IH]; simpl; intros Hno; [done|].
  case_bool_decide as Hk.
  - exfalso. apply Hno. exists u. split; [left|done].
  - f_equal. apply IH. intros (t & Ht & Hid). apply Hno. exists t. split; [by right|done].
Qed.

Lemma pos_lookup (l : list Task) (t : Task) :
  NoDup (task_id <$> l) → t ∈ l → l !! pos (task_id t) l = Some t.
Proof.
  induction l as [|u l IH]; intros Hnd Hin; cbn [pos].
  - by apply elem_of_nil in Hin.
  - rewrite fmap_cons in Hnd. apply NoDup_cons in Hnd as [Hnotin Hnd].
    case_bool_decide as Hk.
    + simpl. f_equal. apply elem_of_cons in Hin as [->|Hin]; [done|].
      exfalso. apply Hnotin. rewrite Hk. by apply list_elem_of_fmap_2.
    + simpl. apply IH; [done|]. apply elem_of_cons in Hin as [->|Hin]; done.
Qed.

(** *** The [visiting] mark is put back *)

Lemma visit_deps_visiting rec tasks deps :
  (∀ d st st', rec d st = Some (Return st') → visiting st' = visiting st) →
  ∀ st st', visit_deps rec tasks deps st = Some (Return st') → visiting st' = visiting st.
Proof.
  intros Hrec. induction deps as [|k deps IH]; intros st st' Hrun; simpl in Hrun.
  - by simplify_eq.
  - destruct (find_task tasks k) as [d|]; [|by apply IH].
    destruct (rec d st) as [[st1|m]|] eqn:Hd; [|done..].
    rewrite (IH _ _ Hrun). by eapply Hrec.
Qed.

Lemma visit_visiting fuel tasks :
  ∀ t st st', visit fuel tasks t st = Some (Return st') → visiting st' = visiting st.
Proof.
  induction fuel as [|fuel IH]; intros t st st' Hrun; simpl in Hrun; [done|].
  case_bool_decide as Hing; [done|].
  case_bool_decide as Hed; [by simplify_eq|].
  destruct (visit_deps _ _ _ _) as [[st2|m]|] eqn:Hdeps; [|done..].
  apply (visit_deps_visiting _ _ _ IH) in Hdeps. simplify_eq. simpl in *.
  rewrite Hdeps. clear -Hing. set_solver.
Qed.

(** *** The recursion budget is never used up *)

Lemma ids_of_elem tasks t : t ∈ tasks → task_id t ∈ ids_of tasks.
Proof. intros Hin. apply elem_of_list_to_set. by apply list_elem_of_fmap_2. Qed.

Lemma ids_of_size tasks : (size (ids_of tasks) ≤ length tasks)%nat.
Proof.
  unfold ids_of. induction tasks as [|u l IH].
  - rewrite fmap_nil, list_to_set_nil, size_empty. done.
  - rewrite fmap_cons, list_to_set_cons, length_cons, size_union_alt, size_singleton.
    assert (size ((list_to_set (task_id <$> l) : gset string) ∖ {[task_id u]})
            ≤ size (list_to_set (task_id <$> l) : gset string))%nat as Hsub
      by (apply subseteq_size; set_solver).
    lia.
Qed.

Lemma visit_deps_fuel rec tasks deps (W : gset string) :
  (∀ d st st', rec d st = Some (Return st') → visiting st' = visiting st) →
  (∀ d st, d ∈ tasks → visiting st = W → rec d st ≠ None) →
  ∀ st, visiting st = W → visit_deps rec tasks deps st ≠ None.
Proof.
  intros Hkeep Hrec. induction deps as [|k deps IH]; intros st HW; simpl; [done|].
  destruct (find_task tasks k) as [d|] eqn:Hf; [|by apply IH].
  apply find_task_some in Hf as [Hin _].
  destruct (rec d st) as [[st1|m]|] eqn:Hd; [|done|].
  - apply IH. rewrite <- HW. by eapply Hkeep.
  - by eapply Hrec in Hd.
Qed.

Lemma visit_fuel_enough fuel tasks :
  ∀ t st, t ∈ tasks → (size (ids_of tasks ∖ visiting st) < fuel)%nat →
  visit fuel tasks t st ≠ None.
Proof.
  induction fuel as [|fuel IH]; intros t st Hin Hsize; [lia|]. simpl.
  case_bool_decide as Hing; [done|].
  case_bool_decide as Hed; [done|].
  match goal with |- context [visit_deps ?r ?ts ?ds ?s] =>
    pose proof (visit_deps_fuel r ts ds (visiting st ∪ {[task_id t]})) as Hdeps;
    specialize (Hdeps (visit_visiting fuel tasks));
    destruct (visit_deps r ts ds s) as [[st2|m]|] eqn:Hrun; [done|done|]
  end.
  exfalso. revert Hrun. apply Hdeps; [|reflexivity].
  intros d st' Hd HW. apply IH; [done|]. rewrite HW.
  assert (ids_of tasks ∖ (visiting st ∪ {[task_id t]}) ⊂ ids_of tasks ∖ visiting st) as Hsub.
  { pose proof (ids_of_elem _ _ Hin). set_solver. }
  apply subset_size in Hsub. lia.
Qed.

Lemma visit_all_fuel fuel tasks seeds :
  (size (ids_of tasks) < fuel)%nat →
  ∀ st, (∀ t, t ∈ seeds → t ∈ tasks) → visiting st = ∅ →
  visit_all fuel tasks seeds st ≠ None.
Proof.
  intros Hfuel. induction seeds as [|t seeds IH]; intros st Hsub Hempty; simpl; [done|].
  destruct (visit fuel tasks t st) as [[st1|m]|] eqn:Hrun; [|done|].
  - apply IH; [intros; apply Hsub; by right|].
    rewrite <- Hempty. by eapply visit_visiting.
  - exfalso. apply (visit_fuel_enough fuel tasks t st); [apply Hsub; left| |exact Hrun].
    rewrite Hempty. replace (ids_of tasks ∖ ∅) with (ids_of tasks) by set_solver. done.
Qed.

(** *** A larger budget changes nothing *)

Lemma visit_deps_more rec rec' tasks deps :
  (∀ d st r, rec d st = Some r → rec' d st = Some r) →
  ∀ st r, visit_deps rec tasks deps st = Some r → visit_deps rec' tasks deps st = Some r.
Proof.
  intros Hrec. induction deps as [|k deps IH]; intros st r Hrun; simpl in *; [done|].
  destruct (find_task tasks k) as [d|]; [|by apply IH].
  destruct (rec d st) as [[st1|m]|] eqn:Hd; [| |done]; rewrite (Hrec _ _ _ Hd); [by apply IH|done].
Qed.

Lemma visit_unfold fuel tasks t st :
  visit (S fuel) tasks t st =
  if bool_decide (task_id t ∈ visiting st) then Some (Throw (circular_error t))
  else if bool_decide (task_id t ∈ visited st) then Some (Return st)
  else
    match visit_deps (visit fuel tasks) tasks (deps_of t)
            {| sorted := sorted st; visited := visited st;
               visiting := visiting st ∪ {[task_id t]} |} with
    | Some (Return st2) =>
        Some (Return {| sorted := sorted st2 ++ [t];
                        visited := visited st2 ∪ {[task_id t]};
                        visiting := visiting st2 ∖ {[task_id t]} |})
    | other => other
    end.
Proof. done. Qed.

Lemma visit_more fuel tasks :
  ∀ t st r, visit fuel tasks t st = Some r → visit (S fuel) tasks t st = Some r.
Proof.
  induction fuel as [|fuel IH]; intros t st r Hrun; [done|].
  rewrite visit_unfold in Hrun. rewrite visit_unfold.
  case_bool_decide; [done|]. case_bool_decide; [done|].
  destruct (visit_deps (visit fuel tasks) _ _ _) as [r'|] eqn:Hdeps; [|done].
  by rewrite (visit_deps_more _ (visit (S fuel) tasks) _ _ IH _ _ Hdeps).
Qed.

Lemma visit_all_more fuel tasks seeds :
  ∀ st r, visit_all fuel tasks seeds st = Some r → visit_all (S fuel) tasks seeds st = Some r.
Proof.
  induction seeds as [|t seeds IH]; intros st r Hrun; cbn [visit_all] in *; [done|].
  destruct (visit fuel tasks t st) as [[st1|m]|] eqn:Ht; [| |done];
    rewrite (visit_more _ _ _ _ _ Ht); [by apply IH|done].
Qed.

(** *** The invariant of the traversal *)

Section Invariant.
Variable tasks : list Task.
Hypothesis Hdistinct : distinct_ids tasks.

Lemma sort_inv_initial : sort_inv tasks initial.
Proof.
  split; simpl.
  - intros k. split; [set_solver|]. intros (t & Ht & _). by apply elem_of_nil in Ht.
  - intros t Ht. by apply elem_of_nil in Ht.
  - constructor.
  - set_solver.
  - intros t d Ht. by apply elem_of_nil in Ht.
Qed.

Lemma sort_inv_push (st2 : SortState) (t : Task) :
  sort_inv tasks st2 → t ∈ tasks →
  task_id t ∈ visiting st2 →
  (∀ d, d ∈ tasks → task_id d ∈ deps_of t → task_id d ∈ visited st2) →
  sort_inv tasks {| sorted := sorted st2 ++ [t];
                    visited := visited st2 ∪ {[task_id t]};
                    visiting := visiting st2 ∖ {[task_id t]} |}.
Proof.
  intros Hinv Hin Hing Hdeps.
  assert (¬ ∃ u, u ∈ sorted st2 ∧ task_id u = task_id t) as Hfresh.
  { rewrite <- (inv_visited _ _ Hinv). by apply (inv_disj _ _ Hinv). }
  split; simpl.
  - intros k. rewrite elem_of_union, elem_of_singleton, (inv_visited _ _ Hinv). split.
    + intros [(u & Hu & Hk)| ->].
      * exists u. split; [apply elem_of_app; by left|done].
      * exists t. split; [apply elem_of_app; right; by apply list_elem_of_singleton|done].
    + intros (u & Hu & Hk). apply elem_of_app in Hu as [Hu|Hu]; [left; eauto|].
      apply list_elem_of_singleton in Hu as ->. by right.
  - intros u Hu. apply elem_of_app in Hu as [Hu|Hu]; [by apply (inv_sub _ _ Hinv)|].
    by apply list_elem_of_singleton in Hu as ->.
  - rewrite fmap_app. apply NoDup_app. split; [apply (inv_nodup _ _ Hinv)|]. split.
    + intros k Hk Hk'. apply list_elem_of_singleton in Hk' as ->.
      apply list_elem_of_fmap in Hk as (u & Hid & Hu). apply Hfresh; eauto.
    + apply NoDup_singleton.
  - intros k Hk. apply elem_of_difference in Hk as [Hk Hne].
    rewrite elem_of_union. intros [Hv|Hv]; [by apply (inv_disj _ _ Hinv) in Hk|done].
  - intros u d Hu Hd Hdep.
    assert (∀ d', d' ∈ tasks → task_id d' ∈ deps_of t →
            pos (task_id d') (sorted st2 ++ [t]) = pos (task_id d') (sorted st2)
            ∧ (pos (task_id d') (sorted st2) < length (sorted st2))%nat) as Hdeps'.
    { intros d' Hd' Hdep'. apply Hdeps in Hdep'; [|done].
      apply (inv_visited _ _ Hinv) in Hdep'.
      split; [by apply pos_app_l | by apply pos_lt_length]. }
    assert (pos (task_id t) (sorted st2 ++ [t]) = length (sorted st2)) as Hpos_t.
    { rewrite pos_app_r by done. simpl. rewrite bool_decide_eq_true_2 by done. lia. }
    apply elem_of_app in Hu as [Hu|Hu].
    + pose proof (inv_topo _ _ Hinv u d Hu Hd Hdep) as Hlt.
      assert (∃ x, x ∈ sorted st2 ∧ task_id x = task_id u) as Hu' by eauto.
      rewrite (pos_app_l _ _ _ Hu').
      rewrite pos_app_l; [done|]. apply pos_lt_length.
      pose proof (pos_le_length (task_id u) (sorted st2)). lia.
    + apply list_elem_of_singleton in Hu as ->.
      destruct (Hdeps' d Hd Hdep) as [-> Hlt]. by rewrite Hpos_t.
Qed.

Lemma visit_deps_inv rec deps :
  (∀ d st st', d ∈ tasks → sort_inv tasks st → rec d st = Some (Return st') →
               visit_post tasks d st st') →
  ∀ st st', sort_inv tasks st → visit_deps rec tasks deps st = Some (Return st') →
  sort_inv tasks st' ∧ visited st ⊆ visited st' ∧
  (∀ k d, k ∈ deps → find_task tasks k = Some d → task_id d ∈ visited st').
Proof.
  intros Hrec. induction deps as [|k deps IH]; intros st st' Hinv Hrun; simpl in Hrun.
  - simplify_eq. split; [done|]. split; [done|]. intros k d Hk. by apply elem_of_nil in Hk.
  - destruct (find_task tasks k) as [d|] eqn:Hf.
    + destruct (rec d st) as [[st1|m]|] eqn:Hd; [|done..].
      apply find_task_some in Hf as Hd'. destruct Hd' as [Hdin Hdk].
      destruct (Hrec _ _ _ Hdin Hinv Hd) as (Hinv1 & Hsub1 & Hd1).
      destruct (IH _ _ Hinv1 Hrun) as (Hinv' & Hsub' & Hall).
      split; [done|]. split; [set_solver|].
      intros k' d' Hk' Hf'. apply elem_of_cons in Hk' as [->|Hk']; [|eauto].
      rewrite Hf in Hf'. simplify_eq. set_solver.
    + destruct (IH _ _ Hinv Hrun) as (Hinv' & Hsub' & Hall).
      split; [done|]. split; [done|].
      intros k' d' Hk' Hf'. apply elem_of_cons in Hk' as [->|Hk']; [congruence|eauto].
Qed.

Lemma visit_inv fuel :
  ∀ t st st', t ∈ tasks → sort_inv tasks st →
  visit fuel tasks t st = Some (Return st') → visit_post tasks t st st'.
Proof.
  induction fuel as [|fuel IH]; intros t st st' Hin Hinv Hrun; simpl in Hrun; [done|].
  case_bool_decide as Hing; [done|].
  case_bool_decide as Hed; [by simplify_eq|].
  destruct (visit_deps _ _ _ _) as [[st2|m]|] eqn:Hdeps; [|done..].
  pose proof (visit_deps_visiting _ _ _ (visit_visiting fuel tasks) _ _ Hdeps) as Hkeep.
  apply (visit_deps_inv _ _ IH) in Hdeps as (Hinv2 & Hsub2 & Hall).
  - simplify_eq. simpl in *. split; [|split; simpl; set_solver].
    apply sort_inv_push; [done|done|rewrite Hkeep; set_solver|].
    intros d Hd Hdep. apply (Hall (task_id d)); [done|].
    by apply find_task_distinct.
  - destruct Hinv. split; simpl; try done.
    intros k Hk. apply elem_of_union in Hk as [Hk|Hk]; [auto|].
    by apply elem_of_singleton in Hk as ->.
Qed.

Lemma visit_all_inv fuel seeds :
  ∀ st st', (∀ t, t ∈ seeds → t ∈ tasks) → sort_inv tasks st →
  visit_all fuel tasks seeds st = Some (Return st') →
  sort_inv tasks st' ∧ visited st ⊆ visited st' ∧
  (∀ t, t ∈ seeds → task_id t ∈ visited st').
Proof.
  induction seeds as [|t seeds IH]; intros st st' Hsub Hinv Hrun; simpl in Hrun.
  - simplify_eq. split; [done|]. split; [done|]. intros t Ht. by apply elem_of_nil in Ht.
  - destruct (visit fuel tasks t st) as [[st1|m]|] eqn:Ht; [|done..].
    apply visit_inv in Ht as (Hinv1 & Hsub1 & Ht1); [|apply Hsub; left|done].
    apply IH in Hrun as (Hinv' & Hsub' & Hall); [|intros; apply Hsub; by right|done].
    split; [done|]. split; [set_solver|].
    intros u Hu. apply elem_of_cons in Hu as [->|Hu]; [set_solver|eauto].
Qed.

(** *** A throw comes from a cycle *)

Lemma visit_deps_throw rec deps (t : Task) :
  (∀ d st st', rec d st = Some (Return st') → visiting st' = visiting st) →
  (∀ d st m, d ∈ tasks →
             (∀ k, k ∈ visiting st → ∃ a, a ∈ tasks ∧ task_id a = k ∧ tc (depends_on tasks) a d) →
             rec d st = Some (Throw m) →
             ∃ c, c ∈ tasks ∧ on_cycle tasks c ∧ m = circular_error c) →
  t ∈ tasks → (∀ k, k ∈ deps → k ∈ deps_of t) →
  ∀ st m,
  (∀ k, k ∈ visiting st →
        ∃ a, a ∈ tasks ∧ task_id a = k ∧ (a = t ∨ tc (depends_on tasks) a t)) →
  visit_deps rec tasks deps st = Some (Throw m) →
  ∃ c, c ∈ tasks ∧ on_cycle tasks c ∧ m = circular_error c.
Proof.
  intros Hkeep Hrec Hin. induction deps as [|k deps IH]; intros Hdeps st m Hanc Hrun;
    simpl in Hrun; [done|].
  assert (∀ k', k' ∈ deps → k' ∈ deps_of t) as Hdeps' by (intros; apply Hdeps; by right).
  destruct (find_task tasks k) as [d|] eqn:Hf; [|by eapply IH].
  apply find_task_some in Hf as [Hd Hk].
  assert (depends_on tasks t d) as Hedge.
  { split; [done|]. split; [done|]. rewrite Hk. apply Hdeps. left. }
  destruct (rec d st) as [[st1|m1]|] eqn:Hcall; [| |done].
  - eapply IH; [done| |exact Hrun]. by rewrite (Hkeep _ _ _ Hcall).
  - simplify_eq. eapply Hrec; [exact Hd| |exact Hcall].
    intros k' Hk'. destruct (Hanc _ Hk') as (a & Ha & Hid & [->|Hpath]).
    + exists t. split; [done|]. split; [done|]. by apply tc_once.
    + exists a. split; [done|]. split; [done|]. by eapply tc_r.
Qed.

Lemma visit_throw fuel :
  ∀ t st m, t ∈ tasks →
  (∀ k, k ∈ visiting st → ∃ a, a ∈ tasks ∧ task_id a = k ∧ tc (depends_on tasks) a t) →
  visit fuel tasks t st = Some (Throw m) →
  ∃ c, c ∈ tasks ∧ on_cycle tasks c ∧ m = circular_error c.
Proof.
  induction fuel as [|fuel IH]; intros t st m Hin Hanc Hrun; simpl in Hrun; [done|].
  case_bool_decide as Hing.
  - simplify_eq. exists t. split; [done|]. split; [|done].
    destruct (Hanc _ Hing) as (a & Ha & Hid & Hpath).
    by rewrite (same_id_same_task tasks a t) in Hpath.
  - case_bool_decide as Hed; [done|].
    destruct (visit_deps _ _ _ _) as [[st2|m2]|] eqn:Hdeps; [done| |done].
    simplify_eq.
    eapply (visit_deps_throw _ _ t (visit_visiting fuel tasks) IH Hin); [done| |exact Hdeps].
    simpl. intros k Hk. apply elem_of_union in Hk as [Hk|Hk].
    + destruct (Hanc _ Hk) as (a & Ha & Hid & Hpath). eauto 6.
    + apply elem_of_singleton in Hk as ->. eauto 6.
Qed.

Lemma visit_all_throw fuel seeds :
  ∀ st m, (∀ t, t ∈ seeds → t ∈ tasks) → visiting st = ∅ →
  visit_all fuel tasks seeds st = Some (Throw m) →
  ∃ c, c ∈ tasks ∧ on_cycle tasks c ∧ m = circular_error c.
Proof.
  induction seeds as [|t seeds IH]; intros st m Hsub Hempty Hrun; simpl in Hrun; [done|].
  destruct (visit fuel tasks t st) as [[st1|m1]|] eqn:Ht; [| |done].
  - eapply IH; [intros; apply Hsub; by right| |exact Hrun].
    rewrite <- Hempty. by eapply visit_visiting.
  - simplify_eq. eapply visit_throw; [apply Hsub; left| |exact Ht].
    intros k Hk. rewrite Hempty in Hk. set_solver.
Qed.

End Invariant.

(** *** The seeds: a stable sort by priority *)

Lemma insert_by_priority_perm t l : insert_by_priority t l ≡ₚ t :: l.
Proof.
  induction l as [|u l IH]; simpl; [done|].
  destruct (task_priority t <? task_priority u); [done|].
  rewrite IH. apply Permutation_swap.
Qed.

Lemma prioritySorted_perm tasks : prioritySorted tasks ≡ₚ tasks.
Proof.
  unfold prioritySorted.
  assert (∀ acc, fold_left (λ acc t, insert_by_priority t acc) tasks acc ≡ₚ tasks ++ acc) as Hgen.
  { induction tasks as [|t l IH]; intros acc; simpl; [done|].
    rewrite IH, insert_by_priority_perm. by rewrite Permutation_middle. }
  rewrite Hgen. by rewrite app_nil_r.
Qed.



(** *** The outcome of the sorter *)

Lemma sort_fuel_enough tasks : sort_with_fuel (S (length tasks)) tasks ≠ None.
Proof.
  unfold sort_with_fuel.
  destruct (visit_all _ _ _ _) as [[st|m]|] eqn:Hrun; [done|done|].
  exfalso. revert Hrun. apply visit_all_fuel; [|intros t Ht|done].
  - pose proof (ids_of_size tasks). lia.
  - by rewrite <- (prioritySorted_perm tasks).
Qed.

Lemma sort_any_budget tasks (extra : nat) :
  sort_with_fuel (extra + S (length tasks)) tasks
  = Some (sortTasksByPriorityAndDependencies tasks).
Proof.
  unfold sortTasksByPriorityAndDependencies.
  pose proof (sort_fuel_enough tasks) as Henough.
  destruct (sort_with_fuel (S (length tasks)) tasks) as [r|] eqn:Hsort; [|done].
  clear Henough. induction extra as [|extra IH]; [done|].
  unfold sort_with_fuel in *. cbn [Nat.add].
  destruct (visit_all (extra + S (length tasks)) _ _ _) as [r'|] eqn:Hrun; [|done].
  by rewrite (visit_all_more _ _ _ _ _ Hrun).
Qed.

Lemma path_descends tasks out :
  (∀ t d, depends_on tasks t d → (pos (task_id d) out < pos (task_id t) out)%nat) →
  ∀ t d, tc (depends_on tasks) t d → (pos (task_id d) out < pos (task_id t) out)%nat.
Proof.
  intros Hedge t d Hpath. induction Hpath as [t d H1|t u d H1 _ IH]; [by apply Hedge|].
  apply Hedge in H1. lia.
Qed.

Lemma sort_outcome tasks :
  distinct_ids tasks →
  match sortTasksByPriorityAndDependencies tasks with
  | Return out =>
      out ≡ₚ tasks ∧ acyclic tasks ∧
      (∀ t d, depends_on tasks t d → occurs_before out d t)
  | Throw m => ∃ c, c ∈ tasks ∧ on_cycle tasks c ∧ m = circular_error c
  end.
Proof.
  intros Hdistinct. unfold sortTasksByPriorityAndDependencies.
  pose proof (sort_fuel_enough tasks) as Hfuel. unfold sort_with_fuel in *.
  assert (∀ t, t ∈ prioritySorted tasks → t ∈ tasks) as Hseeds
    by (intros t; by rewrite (prioritySorted_perm tasks)).
  destruct (visit_all _ _ _ _) as [[st|m]|] eqn:Hrun; [| |done].
  - apply visit_all_inv in Hrun as (Hinv & _ & Hall);
      [|done|done|by apply sort_inv_initial].
    assert (∀ x, x ∈ sorted st ↔ x ∈ tasks) as Hsame.
    { intros x. split; [apply (inv_sub _ _ Hinv)|]. intros Hx.
      assert (task_id x ∈ visited st) as Hv
        by (apply Hall; by rewrite (prioritySorted_perm tasks)).
      apply (inv_visited _ _ Hinv) in Hv as (y & Hy & Hid).
      by rewrite <- (same_id_same_task tasks y x Hdistinct (inv_sub _ _ Hinv _ Hy) Hx Hid). }
    assert (∀ t d, depends_on tasks t d →
                   (pos (task_id d) (sorted st) < pos (task_id t) (sorted st))%nat) as Htopo.
    { intros t d (Ht & Hd & Hdep). apply (inv_topo _ _ Hinv); [by apply Hsame|done..]. }
    split; [|split].
    + apply NoDup_Permutation; [|by eapply NoDup_fmap_1|done].
      eapply NoDup_fmap_1, (inv_nodup _ _ Hinv).
    + intros t Hcycle. apply (path_descends _ _ Htopo) in Hcycle. lia.
    + intros t d Hedge. exists (pos (task_id d) (sorted st)), (pos (task_id t) (sorted st)).
      destruct Hedge as (Ht & Hd & Hdep).
      split; [apply pos_lookup; [apply (inv_nodup _ _ Hinv)|by apply Hsame]|].
      split; [apply pos_lookup; [apply (inv_nodup _ _ Hinv)|by apply Hsame]|].
      by apply Htopo.
  - eapply visit_all_throw; [done|exact Hseeds| |exact Hrun]. done.
Qed.

End SorterFacts.

(** C1.  For a set of tasks with distinct ids whose dependency graph has no
    cycle, the sorter returns a sequence that is a permutation of the input
    (each task exactly once) in which, for every dependency edge where [t]
    depends on [d], [d] occurs at an earlier position than [t].  Dependency
    ids that name no task of the set are skipped by the sorter, so the
    statement does not need them to be absent. *)
Theorem sorter_orders_acyclic_tasks (tasks : list Task) :
  distinct_ids tasks → acyclic tasks →
  ∃ out, Sorter.sortTasksByPriorityAndDependencies tasks = Return out
         ∧ out ≡ₚ tasks
         ∧ NoDup out
         ∧ ∀ t d, depends_on tasks t d → occurs_before out d t.
Proof.
  intros Hdistinct Hacyclic. pose proof (sort_outcome tasks Hdistinct) as Hout.
  destruct (Sorter.sortTasksByPriorityAndDependencies tasks) as [out|m].
  - destruct Hout as (Hperm & _ & Hbefore). exists out.
    split; [done|]. split; [done|]. split; [|done].
    rewrite Hperm. by eapply NoDup_fmap_1.
  - destruct Hout as (c & _ & Hcycle & _). by apply Hacyclic in Hcycle.
Qed.

(** ** The tool-use engine and the task executor *)

(** Unfolding of the combinators, to run a computation symbolically. *)
Ltac run :=
  unfold insert_toolUsage, update_task, update_plan, update_mission in *;
  unfold bind, ret, throw, try_catch, lift_exc, ask, ask_exc, query, write in *;
  simpl in *.

Ltac db_simpl :=
  unfold with_tasks, with_toolUsage, with_plans, with_missions in *; simpl in *.

Section ExecutorFacts.
Context `{Oracles}.

Lemma update_rows_twice {R} (key : R → string) k (f g : R → R) (rows : list R) :
  (∀ r, key (f r) = key r) →
  update_rows key k g (update_rows key k f rows) = update_rows key k (g ∘ f) rows.
Proof.
  intros Hkey. unfold update_rows. rewrite map_map. apply map_ext. intros r.
  destruct (decide (key r = k)) as [Hk|Hk].
  - rewrite (bool_decide_eq_true_2 (key r = k)) by done.
    rewrite bool_decide_eq_true_2; [done|]. by rewrite Hkey.
  - rewrite (bool_decide_eq_false_2 (key r = k)) by done.
    by rewrite bool_decide_eq_false_2.
Qed.

Lemma selectTool_pure registry task s :
  ∃ tool w, selectTool registry task s = (Return tool, {| db := db s; world := w |}).
Proof.
  unfold selectTool. destruct (truthy_name (task_toolName task)) as [name|].
  - exists (registry_get registry name), (world s). run. by destruct s.
  - run. destruct (askSelectedTool _ _ _) as [[selected|e] w]; eauto.
Qed.

Lemma executeTool_run tool params context s startTime w0 outcome w1 endTime w2 :
  references_task (db s) (ctx_taskId context) = true →
  dateNow (world s) = (startTime, w0) →
  tool_execute tool params w0 = (outcome, w1) →
  dateNow w1 = (endTime, w2) →
  executeTool tool params context s =
    (outcome,
     {| db := with_toolUsage
                (λ rows, rows ++ [usage_record context tool params (endTime - startTime) outcome])
                (db s);
        world := w2 |}).
Proof.
  intros Href Hstart Hcall Hend. unfold executeTool. run. rewrite Hstart. simpl.
  rewrite Hcall. destruct outcome as [result|error]; simpl; rewrite Hend; simpl;
    rewrite Href; done.
Qed.

(** Without the row of the task the record is refused, in the [try] and
    again in the [catch], and the error of the store is what comes out. *)
Lemma executeTool_refused tool params context s startTime w0 outcome w1 endTime w2 :
  references_task (db s) (ctx_taskId context) = false →
  dateNow (world s) = (startTime, w0) →
  tool_execute tool params w0 = (outcome, w1) →
  dateNow w1 = (endTime, w2) →
  executeTool tool params context s =
    (Throw "FOREIGN KEY constraint failed"%string,
     {| db := db s;
        world := match outcome with
                 | Return _ => (dateNow w2).2
                 | Throw _ => w2
                 end |}).
Proof.
  intros Href Hstart Hcall Hend. unfold executeTool. run. rewrite Hstart. simpl.
  rewrite Hcall. destruct outcome as [result|error]; simpl; rewrite Hend; simpl;
    rewrite Href; simpl; [|done].
  destruct (dateNow w2) as [endTime' w3]. simpl. by rewrite Href.
Qed.

Lemma executeTool_cases tool params context s :
  ∃ outcome recs s',
    executeTool tool params context s = (outcome, s')
    ∧ missions (db s') = missions (db s)
    ∧ plans (db s') = plans (db s)
    ∧ tasks (db s') = tasks (db s)
    ∧ toolUsage (db s') = toolUsage (db s) ++ recs
    ∧ (length recs ≤ 1)%nat
    ∧ ∀ r, r ∈ recs →
           usage_taskId r = ctx_taskId context
           ∧ usage_success r = match outcome with
                               | Return result => result_success result
                               | Throw _ => false
                               end.
Proof.
  destruct (dateNow (world s)) as [startTime w0] eqn:Hstart.
  destruct (tool_execute tool params w0) as [outcome w1] eqn:Hcall.
  destruct (dateNow w1) as [endTime w2] eqn:Hend.
  destruct (references_task (db s) (ctx_taskId context)) eqn:Href.
  - exists outcome, [usage_record context tool params (endTime - startTime) outcome].
    eexists. split; [by apply (executeTool_run _ _ _ _ _ _ _ _ _ _ Href Hstart Hcall Hend)|].
    split; [done|]. split; [done|]. split; [done|]. split; [done|]. split; [simpl; lia|].
    intros r Hr. apply list_elem_of_singleton in Hr as ->. by destruct outcome.
  - exists (Throw "FOREIGN KEY constraint failed"%string), [].
    eexists. split; [by apply (executeTool_refused _ _ _ _ _ _ _ _ _ _ Href Hstart Hcall Hend)|].
    simpl. rewrite app_nil_r.
    split; [done|]. split; [done|]. split; [done|]. split; [done|]. split; [lia|].
    intros r Hr. by apply elem_of_nil in Hr.
Qed.

Lemma executeTask_run registry task context s :
  ∃ st recs,
    task_run task st recs s (executeTask registry task context s).2 ∧
    match (executeTask registry task context s).1 with
    | Return result => st = (if result_success result then TaskCompleted else TaskFailed)
    | Throw _ => st = TaskFailed
    end.
Proof.
  unfold executeTask. run.
  destruct (dateNow (world s)) as [startedAt w0] eqn:Hstart. simpl.
  edestruct (selectTool_pure registry task) as (tool & w1 & ->). simpl.
  destruct tool as [tool|]; simpl.
  - match goal with |- context [executeTool ?t ?p ?c ?st] =>
      destruct (executeTool_cases t p c st)
        as (outcome & recs & s1 & -> & Hm & Hp & Ht & Hu & Hlen & Hrecs)
    end.
    simpl in Hm, Hp, Ht, Hu, Hrecs.
    destruct outcome as [result|error]; simpl;
      destruct (dateNow (world s1)) as [completedAt w5]; db_simpl.
    + eexists _, recs. split; [|reflexivity].
      split; [done|]. split; [done|]. split.
      { eexists _, _, _. by rewrite Ht, update_rows_twice. }
      split; [done|]. split; [|done].
      intros r Hr. destruct (Hrecs r Hr) as [-> ->].
      split; [done|]. destruct (result_success result); split; done.
    + eexists _, recs. split; [|reflexivity].
      split; [done|]. split; [done|]. split.
      { eexists _, _, _. by rewrite Ht, update_rows_twice. }
      split; [done|]. split; [|done].
      intros r Hr. destruct (Hrecs r Hr) as [-> ->]. split; done.
  - destruct (dateNow w1) as [completedAt w2]. db_simpl.
    eexists _, []. split; [|reflexivity].
    split; [done|]. split; [done|]. split.
    { eexists _, _, _. by rewrite update_rows_twice. }
    split; [by rewrite app_nil_r|]. split; [|simpl; lia].
    intros r Hr. by apply elem_of_nil in Hr.
Qed.



(** *** Rows and their updates *)

Lemma find_is_head_filter {R} (f : R → bool) (rows : list R) :
  List.find f rows = head (List.filter f rows).
Proof.
  induction rows as [|r rows IH]; simpl; [done|]. by destruct (f r).
Qed.

Lemma task_status_in_rows d k :
  task_status_in d k = task_status <$> head (rows_of d k).
Proof. unfold task_status_in, find_row, rows_of. by rewrite find_is_head_filter. Qed.

Lemma filter_update_ne {R} (key : R → string) k k' (f : R → R) (rows : list R) :
  (∀ r, key (f r) = key r) → k ≠ k' →
  List.filter (λ r, bool_decide (key r = k)) (update_rows key k' f rows)
  = List.filter (λ r, bool_decide (key r = k)) rows.
Proof.
  intros Hkey Hne. unfold update_rows.
  induction rows as [|r rows IH]; simpl; [done|].
  destruct (decide (key r = k')) as [Hk|Hk].
  - rewrite (bool_decide_eq_true_2 (key r = k')) by done.
    rewrite (bool_decide_eq_false_2 (key (f r) = k)) by (rewrite Hkey; congruence).
    rewrite (bool_decide_eq_false_2 (key r = k)) by congruence. done.
  - rewrite (bool_decide_eq_false_2 (key r = k')) by done.
    destruct (bool_decide (key r = k)); by rewrite IH.
Qed.

Lemma filter_update_eq {R} (key : R → string) k (f : R → R) (rows : list R) :
  (∀ r, key (f r) = key r) →
  List.filter (λ r, bool_decide (key r = k)) (update_rows key k f rows)
  = List.map f (List.filter (λ r, bool_decide (key r = k)) rows).
Proof.
  intros Hkey. unfold update_rows.
  induction rows as [|r rows IH]; simpl; [done|].
  destruct (decide (key r = k)) as [Hk|Hk].
  - rewrite (bool_decide_eq_true_2 (key r = k)) by done.
    rewrite (bool_decide_eq_true_2 (key (f r) = k)) by (by rewrite Hkey).
    simpl. by rewrite IH.
  - rewrite (bool_decide_eq_false_2 (key r = k)) by done.
    rewrite (bool_decide_eq_false_2 (key r = k)) by done. done.
Qed.

Lemma find_row_update_eq {R} (key : R → string) k (f : R → R) (rows : list R) :
  (∀ r, key (f r) = key r) →
  find_row key k (update_rows key k f rows) = f <$> find_row key k rows.
Proof.
  intros Hkey. unfold find_row. rewrite !find_is_head_filter, filter_update_eq by done.
  by destruct (List.filter _ rows).
Qed.

Lemma find_row_update_ne {R} (key : R → string) k k' (f : R → R) (rows : list R) :
  (∀ r, key (f r) = key r) → k ≠ k' →
  find_row key k (update_rows key k' f rows) = find_row key k rows.
Proof.
  intros Hkey Hne. unfold find_row. by rewrite !find_is_head_filter, filter_update_ne.
Qed.

Lemma task_run_other t st recs s s' k :
  task_run t st recs s s' → k ≠ task_id t → rows_of (db s') k = rows_of (db s) k.
Proof.
  intros (_ & _ & (t0 & t1 & res & Htasks) & _ & _ & _) Hne. unfold rows_of.
  rewrite Htasks. by apply filter_update_ne.
Qed.

Lemma task_run_self t st recs s s' :
  task_run t st recs s s' →
  length (rows_of (db s') (task_id t)) = length (rows_of (db s) (task_id t))
  ∧ Forall (λ r, task_status r = st) (rows_of (db s') (task_id t)).
Proof.
  intros (_ & _ & (t0 & t1 & res & Htasks) & _ & _ & _). unfold rows_of.
  rewrite Htasks, filter_update_eq by done. split; [by rewrite length_map|].
  apply Forall_forall. intros r Hr. apply list_elem_of_In in Hr.
  apply in_map_iff in Hr as (r0 & <- & _). done.
Qed.

(** *** One iteration of the plan executor *)

Lemma executePlan_step_run registry plan context cs fs t s :
  (dependenciesIncomplete plan t (db s) = true
   ∧ executePlan_step registry plan context (cs, fs) t s = (Return (cs, fs), s))
  ∨ (dependenciesIncomplete plan t (db s) = false
     ∧ ∃ st recs s',
         task_run t st recs s s'
         ∧ ((st = TaskCompleted
             ∧ executePlan_step registry plan context (cs, fs) t s = (Return (cs ++ [t], fs), s'))
            ∨ (st = TaskFailed
               ∧ executePlan_step registry plan context (cs, fs) t s
                 = (Return (cs, fs ++ [t]), s')))).
Proof.
  unfold executePlan_step. run.
  destruct (dependenciesIncomplete plan t (db s)); [by left|right].
  split; [done|].
  destruct (executeTask_run registry t context s) as (st & recs & Hrun & Hout).
  destruct (executeTask registry t context s) as [[result|error] s']. simpl in *.
  - exists st, recs, s'. split; [done|].
    destruct (result_success result); [left|right]; done.
  - exists st, recs, s'. split; [done|]. by right.
Qed.

(** *** The loop of the plan executor *)

Lemma executePlan_loop_cons registry plan context t l arrays s :
  executePlan_loop registry plan context (t :: l) arrays s =
  match executePlan_step registry plan context arrays t s with
  | (Return arrays', s') => executePlan_loop registry plan context l arrays' s'
  | (Throw e, s') => (Throw e, s')
  end.
Proof. done. Qed.

Lemma executePlan_loop_frame registry plan context l :
  ∀ cs fs s, ∃ cs' fs' s' new,
    executePlan_loop registry plan context l (cs, fs) s = (Return (cs', fs'), s')
    ∧ missions (db s') = missions (db s)
    ∧ plans (db s') = plans (db s)
    ∧ toolUsage (db s') = toolUsage (db s) ++ new
    ∧ (∀ r, r ∈ new → ∃ t, t ∈ l ∧ usage_taskId r = Some (task_id t))
    ∧ (∀ k, k ∉ task_id <$> l → rows_of (db s') k = rows_of (db s) k)
    ∧ (∀ k, length (rows_of (db s') k) = length (rows_of (db s) k)).
Proof.
  induction l as [|t l IH]; intros cs fs s.
  - exists cs, fs, s, []. simpl. unfold ret. rewrite app_nil_r.
    repeat split; try done. intros r Hr. by apply elem_of_nil in Hr.
  - rewrite executePlan_loop_cons.
    destruct (executePlan_step_run registry plan context cs fs t s)
      as [[_ ->]|(_ & st & recs & s1 & Hrun & [[_ ->]|[_ ->]])].
    + destruct (IH cs fs s) as (cs' & fs' & s' & new & -> & Hm & Hp & Hu & Hnew & Hrows & Hlen).
      exists cs', fs', s', new. repeat split; try done.
      * intros r Hr. destruct (Hnew r Hr) as (u & Hu' & Hid). exists u. split; [by right|done].
      * intros k Hk. apply Hrows. intros Hk'. apply Hk. rewrite fmap_cons. by right.
    + destruct (IH (cs ++ [t]) fs s1)
        as (cs' & fs' & s' & new & -> & Hm & Hp & Hu & Hnew & Hrows & Hlen).
      pose proof Hrun as (Hm1 & Hp1 & _ & Hu1 & Hrecs & _).
      exists cs', fs', s', (recs ++ new). repeat split; try congruence.
      * by rewrite Hu, Hu1, app_assoc.
      * intros r Hr. apply elem_of_app in Hr as [Hr|Hr].
        -- exists t. split; [left|by apply Hrecs].
        -- destruct (Hnew r Hr) as (u & Hu' & Hid). exists u. split; [by right|done].
      * intros k Hk. rewrite fmap_cons in Hk. apply not_elem_of_cons in Hk as [Hne Hk].
        rewrite Hrows by done. by eapply task_run_other.
      * intros k. rewrite Hlen. destruct (decide (k = task_id t)) as [->|Hne].
        -- by apply task_run_self in Hrun as [-> _].
        -- by rewrite (task_run_other _ _ _ _ _ _ Hrun Hne).
    + destruct (IH cs (fs ++ [t]) s1)
        as (cs' & fs' & s' & new & -> & Hm & Hp & Hu & Hnew & Hrows & Hlen).
      pose proof Hrun as (Hm1 & Hp1 & _ & Hu1 & Hrecs & _).
      exists cs', fs', s', (recs ++ new). repeat split; try congruence.
      * by rewrite Hu, Hu1, app_assoc.
      * intros r Hr. apply elem_of_app in Hr as [Hr|Hr].
        -- exists t. split; [left|by apply Hrecs].
        -- destruct (Hnew r Hr) as (u & Hu' & Hid). exists u. split; [by right|done].
      * intros k Hk. rewrite fmap_cons in Hk. apply not_elem_of_cons in Hk as [Hne Hk].
        rewrite Hrows by done. by eapply task_run_other.
      * intros k. rewrite Hlen. destruct (decide (k = task_id t)) as [->|Hne].
        -- by apply task_run_self in Hrun as [-> _].
        -- by rewrite (task_run_other _ _ _ _ _ _ Hrun Hne).
Qed.

Lemma executePlan_loop_app registry plan context l1 l2 :
  ∀ arrays s,
    executePlan_loop registry plan context (l1 ++ l2) arrays s =
    match executePlan_loop registry plan context l1 arrays s with
    | (Return arrays', s') => executePlan_loop registry plan context l2 arrays' s'
    | (Throw e, s') => (Throw e, s')
    end.
Proof.
  induction l1 as [|t l1 IH]; intros arrays s; [done|].
  rewrite <- app_comm_cons, !executePlan_loop_cons.
  destruct (executePlan_step _ _ _ _ _ _) as [[arrays'|e] s']; [apply IH|done].
Qed.

(** A task with a dependency none of whose rows is [completed] is skipped. *)
Lemma blocked_by_dependency plan (B : Task) d k :
  k ∈ Sorter.deps_of B →
  Forall (λ r, task_status r ≠ TaskCompleted) (rows_of d k) →
  dependenciesIncomplete plan B d = true.
Proof.
  unfold Sorter.deps_of, dependenciesIncomplete. intros Hk Hrows.
  destruct (task_dependencies B) as [[|depId rest]|]; [by apply elem_of_nil in Hk| |by apply elem_of_nil in Hk].
  apply negb_true_iff, bool_decide_eq_false. intros Hnil.
  assert (k ∈ incompleteDeps
                (List.filter (λ t, bool_decide (task_planId t = plan_id plan)) (tasks d))
                (depId :: rest)) as Hin; [|rewrite Hnil in Hin; by apply elem_of_nil in Hin].
  unfold incompleteDeps. apply list_elem_of_In, filter_In. split; [by apply list_elem_of_In|].
  apply negb_true_iff. apply not_true_iff_false. intros Hex.
  apply existsb_exists in Hex as (r & Hr & Hcond).
  apply andb_true_iff in Hcond as [Hid Hst].
  apply bool_decide_eq_true in Hid, Hst.
  apply filter_In in Hr as [Hr _].
  rewrite Forall_forall in Hrows. apply (Hrows r); [|done].
  unfold rows_of. apply list_elem_of_In, filter_In. split; [done|by apply bool_decide_eq_true].
Qed.

Lemma executePlan_loop_blocked registry plan context (A : Task) l :
  ∀ cs fs s cs' fs' s',
    task_id A ∉ task_id <$> l → NoDup (task_id <$> l) →
    Forall (λ r, task_status r ≠ TaskCompleted) (rows_of (db s) (task_id A)) →
    executePlan_loop registry plan context l (cs, fs) s = (Return (cs', fs'), s') →
    ∀ B, B ∈ l → task_id A ∈ Sorter.deps_of B →
         rows_of (db s') (task_id B) = rows_of (db s) (task_id B).
Proof.
  induction l as [|t l IH]; intros cs fs s cs' fs' s' HA Hnd Hrows Hloop B HB Hdep.
  { by apply elem_of_nil in HB. }
  rewrite fmap_cons in HA, Hnd. apply not_elem_of_cons in HA as [HAt HA].
  apply NoDup_cons in Hnd as [Ht Hnd].
  rewrite executePlan_loop_cons in Hloop.
  destruct (executePlan_step_run registry plan context cs fs t s)
    as [[_ Hstep]|(Hgo & st & recs & s1 & Hrun & Hstep)].
  - rewrite Hstep in Hloop. apply elem_of_cons in HB as [->|HB]; [|by eapply IH].
    destruct (executePlan_loop_frame registry plan context l cs fs s)
      as (? & ? & ? & ? & Heq & _ & _ & _ & _ & Hkeep & _).
    rewrite Heq in Hloop. simplify_eq. by apply Hkeep.
  - assert (rows_of (db s1) (task_id A) = rows_of (db s) (task_id A)) as HA1
      by (by eapply task_run_other).
    apply elem_of_cons in HB as [->|HB].
    + by rewrite (blocked_by_dependency plan t (db s) (task_id A)) in Hgo.
    + assert (task_id B ≠ task_id t) as Hne.
      { intros Heq. apply Ht. rewrite <- Heq. by apply list_elem_of_fmap_2. }
      rewrite <- (task_run_other _ _ _ _ _ _ Hrun Hne).
      destruct Hstep as [[_ Hstep]|[_ Hstep]]; rewrite Hstep in Hloop;
        (eapply IH; [done|done| |exact Hloop|done|done]); by rewrite HA1.
Qed.

Lemma executePlan_loop_failed_grows registry plan context l :
  ∀ cs fs s cs' fs' s',
    executePlan_loop registry plan context l (cs, fs) s = (Return (cs', fs'), s') →
    ∃ extra, fs' = fs ++ extra.
Proof.
  induction l as [|t l IH]; intros cs fs s cs' fs' s' Hloop.
  - simpl in Hloop. unfold ret in Hloop. simplify_eq. exists []. by rewrite app_nil_r.
  - rewrite executePlan_loop_cons in Hloop.
    destruct (executePlan_step_run registry plan context cs fs t s)
      as [[_ Hstep]|(_ & st & recs & s1 & _ & [[_ Hstep]|[_ Hstep]])];
      rewrite Hstep in Hloop; apply IH in Hloop as [extra ->]; eauto.
    exists ([t] ++ extra). by rewrite app_assoc.
Qed.

(** *** The plan executor *)

Lemma plan_status_in_with_plan_status plan st s :
  plan_status_in (db (with_plan_status plan st s)) (plan_id plan)
  = (λ _, st) <$> plan_status_in (db s) (plan_id plan).
Proof.
  unfold plan_status_in, with_plan_status. db_simpl.
  rewrite find_row_update_eq by done. by destruct (find_row _ _ _).
Qed.

Lemma executePlan_throw registry plan context s m :
  Sorter.sortTasksByPriorityAndDependencies (plan_tasks plan) = Throw m →
  executePlan registry plan context s =
    (Return {| exec_success := false; exec_completedTasks := []; exec_failedTasks := [];
               exec_reflections := []; exec_error := Some m |},
     with_plan_status plan PlanFailed (with_plan_status plan PlanActive s)).
Proof. intros Hsort. unfold executePlan. run. by rewrite Hsort. Qed.

Lemma executePlan_return registry plan context s sortedTasks cs fs s1 :
  Sorter.sortTasksByPriorityAndDependencies (plan_tasks plan) = Return sortedTasks →
  executePlan_loop registry plan context sortedTasks ([], [])
    (with_plan_status plan PlanActive s) = (Return (cs, fs), s1) →
  executePlan registry plan context s =
    (Return {| exec_success := bool_decide (fs = []); exec_completedTasks := cs;
               exec_failedTasks := fs; exec_reflections := []; exec_error := None |},
     with_plan_status plan (if bool_decide (fs = []) then PlanCompleted else PlanFailed) s1).
Proof.
  intros Hsort Hloop. unfold executePlan. run. rewrite Hsort. simpl.
  unfold with_plan_status in Hloop. rewrite Hloop. done.
Qed.

End ExecutorFacts.


(** C2.  For a set of tasks (with distinct ids) that contains a dependency
    cycle, the sorter throws the error "Circular dependency detected
    involving task: <title>" with the title of a task lying on a cycle, and
    returns no ordering; [executePlan] on such a plan returns a failure with
    that error and empty task sets, marks the plan [failed], and leaves the
    task rows, the usage records, the missions and the outside world as they
    were: no task was started. *)
Theorem cycle_fails_sorter_and_plan `{Oracles} (registry : ToolRegistry) (plan : Plan)
    (context : ExecutionContext) (s : State) (c : Task) :
  distinct_ids (plan_tasks plan) → on_cycle (plan_tasks plan) c →
  ∃ t s',
    t ∈ plan_tasks plan ∧ on_cycle (plan_tasks plan) t
    ∧ Sorter.sortTasksByPriorityAndDependencies (plan_tasks plan)
      = Throw ("Circular dependency detected involving task: " +:+ task_title t)%string
    ∧ executePlan registry plan context s =
        (Return {| exec_success := false; exec_completedTasks := []; exec_failedTasks := [];
                   exec_reflections := [];
                   exec_error :=
                     Some ("Circular dependency detected involving task: "
                           +:+ task_title t)%string |}, s')
    ∧ tasks (db s') = tasks (db s)
    ∧ toolUsage (db s') = toolUsage (db s)
    ∧ missions (db s') = missions (db s)
    ∧ world s' = world s
    ∧ plan_status_in (db s') (plan_id plan)
      = ((λ _, PlanFailed) <$> plan_status_in (db s) (plan_id plan)).
Proof.
  intros Hdistinct Hcycle. pose proof (sort_outcome _ Hdistinct) as Hout.
  destruct (Sorter.sortTasksByPriorityAndDependencies (plan_tasks plan)) as [out|m] eqn:Hsort.
  - destruct Hout as (_ & Hacyclic & _). by apply Hacyclic in Hcycle.
  - destruct Hout as (t & Ht & Hon & ->).
    exists t, (with_plan_status plan PlanFailed (with_plan_status plan PlanActive s)).
    split; [done|]. split; [done|]. split; [done|].
    split; [by apply executePlan_throw|].
    repeat split; try done.
    rewrite !plan_status_in_with_plan_status. by destruct (plan_status_in _ _).
Qed.

Lemma occurs_before_split (out : list Task) (A B : Task) :
  occurs_before out A B → ∃ l1 l2, out = l1 ++ A :: l2 ∧ B ∈ l2.
Proof.
  intros (i & j & Hi & Hj & Hlt).
  exists (take i out), (drop (S i) out). split; [by rewrite take_drop_middle|].
  apply list_elem_of_lookup. exists (j - S i)%nat.
  rewrite lookup_drop. by replace (S i + (j - S i))%nat with j by lia.
Qed.

(** C3.  In a plan (with distinct task ids) where [B] depends on [A], if
    the run of [executePlan] records a failed tool invocation for [A] - a
    failure result or a throw - then afterwards [B] is still [pending], [A]
    is [failed], the plan is [failed] and the result reports the failure
    with [A] among the failed tasks. *)
Theorem failed_dependency_leaves_dependent_pending `{Oracles}
    (registry : ToolRegistry) (plan : Plan) (context : ExecutionContext)
    (s s' : State) (out : Exc ExecutionResult) (A B : Task)
    (new : list ToolUsage) (record : ToolUsage) :
  distinct_ids (plan_tasks plan) →
  A ∈ plan_tasks plan → B ∈ plan_tasks plan → task_id A ∈ Sorter.deps_of B →
  task_status_in (db s) (task_id B) = Some TaskPending →
  is_Some (task_status_in (db s) (task_id A)) →
  is_Some (plan_status_in (db s) (plan_id plan)) →
  executePlan registry plan context s = (out, s') →
  toolUsage (db s') = toolUsage (db s) ++ new →
  record ∈ new → usage_taskId record = Some (task_id A) → usage_success record = false →
  task_status_in (db s') (task_id B) = Some TaskPending
  ∧ task_status_in (db s') (task_id A) = Some TaskFailed
  ∧ plan_status_in (db s') (plan_id plan) = Some PlanFailed
  ∧ rows_of (db s') (task_id B) = rows_of (db s) (task_id B)
  ∧ ∃ result, out = Return result ∧ exec_success result = false
              ∧ A ∈ exec_failedTasks result.
Proof.
  intros Hdistinct HA HB Hdep HBpending HArow Hplanrow Hexec Husage Hrecord Hfor Hfailed.
  pose proof (sort_outcome _ Hdistinct) as Hsort.
  destruct (Sorter.sortTasksByPriorityAndDependencies (plan_tasks plan))
    as [sortedTasks|m] eqn:Hsorted.
  2:{ rewrite (executePlan_throw _ _ _ _ _ Hsorted) in Hexec. simplify_eq. simpl in Husage.
      rewrite <- (app_nil_r (toolUsage (db s))) in Husage at 1.
      apply app_inv_head in Husage as <-. by apply elem_of_nil in Hrecord. }
  destruct Hsort as (Hperm & _ & Hbefore).
  destruct (occurs_before_split sortedTasks A B) as (l1 & l2 & -> & HBl2).
  { apply Hbefore. by split. }
  assert (NoDup (task_id <$> l1 ++ A :: l2)) as Hnd by (by rewrite Hperm).
  rewrite fmap_app, fmap_cons in Hnd.
  apply NoDup_app in Hnd as (Hnd1 & Hcross & Hnd2).
  apply NoDup_cons in Hnd2 as [HAl2 Hnd2].
  assert (task_id A ∉ task_id <$> l1) as HAl1.
  { intros Hin. apply (Hcross _ Hin). left. }
  assert (task_id B ∉ task_id <$> l1) as HBl1.
  { intros Hin. apply (Hcross _ Hin). right. by apply list_elem_of_fmap_2. }
  assert (task_id B ≠ task_id A) as HBA.
  { intros Heq. apply HAl2. rewrite <- Heq. by apply list_elem_of_fmap_2. }
  set (s0 := with_plan_status plan PlanActive s) in *.
  destruct (executePlan_loop_frame registry plan context l1 [] [] s0)
    as (cs1 & fs1 & s1 & new1 & Hloop1 & _ & Hp1 & Hu1 & Hnew1 & Hrows1 & Hlen1).
  destruct (executePlan_step_run registry plan context cs1 fs1 A s1)
    as [[_ Hstep]|(_ & st & recs & s2 & Hrun & Hstep)].
  - (* [A] skipped: no record can name it *)
    destruct (executePlan_loop_frame registry plan context l2 cs1 fs1 s1)
      as (cs3 & fs3 & s3 & new3 & Hloop3 & _ & _ & Hu3 & Hnew3 & _).
    assert (executePlan_loop registry plan context (l1 ++ A :: l2) ([], []) s0
            = (Return (cs3, fs3), s3)) as Hloop.
    { by rewrite executePlan_loop_app, Hloop1, executePlan_loop_cons, Hstep. }
    rewrite (executePlan_return _ _ _ _ _ _ _ _ Hsorted Hloop) in Hexec. simplify_eq.
    simpl in Husage. rewrite Hu3, Hu1 in Husage. simpl in Husage.
    rewrite <- app_assoc in Husage. apply app_inv_head in Husage as <-.
    exfalso. apply elem_of_app in Hrecord as [Hr|Hr].
    + destruct (Hnew1 _ Hr) as (t & Ht & Hid). rewrite Hfor in Hid. simplify_eq.
      apply HAl1. rewrite Hid. by apply list_elem_of_fmap_2.
    + destruct (Hnew3 _ Hr) as (t & Ht & Hid). rewrite Hfor in Hid. simplify_eq.
      apply HAl2. rewrite Hid. by apply list_elem_of_fmap_2.
  - set (cs2 := if bool_decide (st = TaskCompleted) then cs1 ++ [A] else cs1).
    set (fs2 := if bool_decide (st = TaskCompleted) then fs1 else fs1 ++ [A]).
    assert (executePlan_step registry plan context (cs1, fs1) A s1 = (Return (cs2, fs2), s2)
            ∧ (st = TaskCompleted ∨ st = TaskFailed)) as [Hstep' Hst].
    { subst cs2 fs2. destruct Hstep as [[-> ->] | [-> ->]]; simpl; auto. }
    destruct (executePlan_loop_frame registry plan context l2 cs2 fs2 s2)
      as (cs3 & fs3 & s3 & new3 & Hloop3 & _ & Hp3 & Hu3 & Hnew3 & Hrows3 & Hlen3).
    assert (executePlan_loop registry plan context (l1 ++ A :: l2) ([], []) s0
            = (Return (cs3, fs3), s3)) as Hloop.
    { by rewrite executePlan_loop_app, Hloop1, executePlan_loop_cons, Hstep'. }
    rewrite (executePlan_return _ _ _ _ _ _ _ _ Hsorted Hloop) in Hexec. simplify_eq.
    pose proof Hrun as (_ & Hp2 & _ & Hu2 & Hrecs & _).
    simpl in Husage. rewrite Hu3, Hu2, Hu1 in Husage. simpl in Husage.
    rewrite <- !app_assoc in Husage. apply app_inv_head in Husage as <-.
    assert (record ∈ recs) as Hr.
    { apply elem_of_app in Hrecord as [Hr|Hr].
      - destruct (Hnew1 _ Hr) as (t & Ht & Hid). rewrite Hfor in Hid. simplify_eq.
        exfalso. apply HAl1. rewrite Hid. by apply list_elem_of_fmap_2.
      - apply elem_of_app in Hr as [Hr|Hr]; [done|].
        destruct (Hnew3 _ Hr) as (t & Ht & Hid). rewrite Hfor in Hid. simplify_eq.
        exfalso. apply HAl2. rewrite Hid. by apply list_elem_of_fmap_2. }
    assert (st = TaskFailed) as ->.
    { destruct Hst as [-> | ->]; [|done]. apply Hrecs in Hr as [_ Hs].
      rewrite Hfailed in Hs. by destruct Hs as [_ Hs]; specialize (Hs eq_refl). }
    subst cs2 fs2. rewrite bool_decide_eq_false_2 in Hloop3 by done.
    apply task_run_self in Hrun as Hself. destruct Hself as [HlenA HallA].
    assert (rows_of (db s3) (task_id B) = rows_of (db s) (task_id B)) as HrowsB.
    { rewrite (executePlan_loop_blocked registry plan context A l2 _ _ _ _ _ _
                 HAl2 Hnd2 ltac:(eapply Forall_impl; [exact HallA|by intros ? ->]) Hloop3 B HBl2 Hdep).
      rewrite (task_run_other _ _ _ _ _ _ Hrun HBA). by rewrite Hrows1. }
    assert (rows_of (db s3) (task_id A) = rows_of (db s2) (task_id A)) as HrowsA
      by (by apply Hrows3).
    destruct (executePlan_loop_failed_grows _ _ _ _ _ _ _ _ _ _ Hloop3) as [extra ->].
    assert (bool_decide (fs1 ++ [A] ++ extra = []) = false) as Hnonempty.
    { apply bool_decide_eq_false. by destruct fs1. }
    rewrite <- app_assoc, Hnonempty.
    assert (rows_of (db (with_plan_status plan PlanFailed s3)) = rows_of (db s3)) as Hfinal
      by done.
    rewrite !task_status_in_rows, Hfinal, HrowsB, HrowsA.
    split; [by rewrite <- task_status_in_rows|].
    split.
    { rewrite task_status_in_rows in HArow. destruct HArow as [x Hx].
      assert (rows_of (db s1) (task_id A) = rows_of (db s) (task_id A)) as HA1
        by (by rewrite Hrows1).
      destruct (rows_of (db s2) (task_id A)) as [|r rows] eqn:Hrows2.
      - rewrite HA1 in HlenA. symmetry in HlenA.
        apply nil_length_inv in HlenA. by rewrite HlenA in Hx.
      - apply Forall_cons in HallA as [Hr0 _]. simpl. by rewrite Hr0. }
    split.
    { rewrite plan_status_in_with_plan_status. unfold plan_status_in at 1.
      rewrite Hp3, Hp2, Hp1. fold (plan_status_in (db s0) (plan_id plan)).
      subst s0. rewrite plan_status_in_with_plan_status.
      by destruct Hplanrow as [x ->]. }
    split; [done|].
    eexists. split; [reflexivity|]. simpl. split; [done|].
    apply elem_of_app. right. left.
Qed.

(** ** Plans without dependencies *)

Section IndependentTasks.
Context `{Oracles}.
Import Sorter.



Lemma no_deps_not_skipped plan t d :
  deps_of t = [] → dependenciesIncomplete plan t d = false.
Proof.
  unfold deps_of, dependenciesIncomplete. by destruct (task_dependencies t) as [[|]|].
Qed.






End IndependentTasks.


(** ** Completion, revisions and the mission life cycle *)

(** C10.  [validateCompletion] never throws and leaves the store alone; it
    returns [true] exactly when the judge answered with its completed flag
    set and a completion percentage of at least 0.90, and [false] when the
    judge failed.  (A percentage is a JSON number, a double; the doubles that
    are at least 9/10 are those at least the double written [0.9], so the
    comparison is stated on rationals.) *)
Theorem validateCompletion_threshold `{Oracles} (mission : Mission)
    (result : ExecutionResult) (context : ExecutionContext) (s : State) :
  ∃ answer : bool,
    validateCompletion mission result context s
    = (Return answer,
       {| db := db s; world := (assessCompletion mission result (world s)).2 |})
    ∧ (answer = true ↔
       ∃ assessment,
         (assessCompletion mission result (world s)).1 = Return assessment
         ∧ assessment_completed assessment = true
         ∧ (9 # 10 <= assessment_completionPercentage assessment)%Q)
    ∧ (∀ error, (assessCompletion mission result (world s)).1 = Throw error → answer = false).
Proof.
  unfold validateCompletion. run.
  destruct (assessCompletion mission result (world s)) as [[assessment|error] w]; simpl.
  - eexists. split; [reflexivity|]. split; [|done].
    rewrite andb_true_iff, Qle_bool_iff. split.
    + intros [Hflag Hpct]. by exists assessment.
    + intros (a & Ha & Hflag & Hpct). by simplify_eq.
  - exists false. split; [done|]. split; [|done].
    split; [done|]. by intros (a & Ha & _).
Qed.

(** C4 (the code departs from the specification).  A task whose tool returns the
    failure result [{ success: false, data: null, error: "page not found" }]
    is moved to [failed] and gets its completion time, but the payload that
    is stored is the [data] of the result: the error message is not in the
    task row.  The sibling path, a tool that throws, does store the message,
    as [{ error: message }]. *)
Theorem structured_failure_drops_error_message :
  let task := Demo.demo_task "a" 0 "failing" None in
  let run := @executeTask Demo.demo_oracles Demo.demo_registry task Demo.demo_context
               (Demo.demo_state MissionExecuting [task]) in
  let task' := Demo.demo_task "a" 0 "throwing" None in
  let run' := @executeTask Demo.demo_oracles Demo.demo_registry task' Demo.demo_context
                (Demo.demo_state MissionExecuting [task']) in
  run.1 = Return {| result_success := false; result_data := Some JNull;
                    result_error := Some "page not found"%string |}
  ∧ task_status <$> tasks (db run.2) = [TaskFailed]
  ∧ task_completedAt <$> tasks (db run.2) = [Some 20]
  ∧ task_result <$> tasks (db run.2) = [Some JNull]
  ∧ run'.1 = Throw "socket hang up"%string
  ∧ task_status <$> tasks (db run'.2) = [TaskFailed]
  ∧ task_result <$> tasks (db run'.2)
    = [Some (JObj [("error"%string, JStr "socket hang up"%string)])].
Proof. vm_compute. done. Qed.

(** *** Plan revisions *)

Section Revisions.
Context `{Oracles}.


Lemma insert_plan_run (row : string → PlanRow) s :
  let '(k, w) := createId (world s) in
  insert_plan row s =
    match find_row plan_id k (plans (db s)) with
    | Some _ => (Throw "UNIQUE constraint failed: plans.id"%string,
                 {| db := db s; world := w |})
    | None =>
        match find_row mission_id (plan_missionId (row k)) (missions (db s)) with
        | None => (Throw "FOREIGN KEY constraint failed"%string,
                   {| db := db s; world := w |})
        | Some _ => (Return (row k),
                     {| db := with_plans (λ rows, rows ++ [row k]) (db s); world := w |})
        end
    end.
Proof.
  unfold insert_plan. run. destruct (createId (world s)) as [k w]. simpl.
  destruct (find_row plan_id k (plans (db s))); [done|].
  cbn [db]. by destruct (find_row mission_id _ (missions (db s))).
Qed.

Lemma insert_task_run (row : string → Task) s :
  let '(k, w) := createId (world s) in
  insert_task row s =
    match find_row task_id k (tasks (db s)) with
    | Some _ => (Throw "UNIQUE constraint failed: tasks.id"%string,
                 {| db := db s; world := w |})
    | None =>
        match find_row plan_id (task_planId (row k)) (plans (db s)) with
        | None => (Throw "FOREIGN KEY constraint failed"%string,
                   {| db := db s; world := w |})
        | Some _ => (Return (row k),
                     {| db := with_tasks (λ rows, rows ++ [row k]) (db s); world := w |})
        end
    end.
Proof.
  unfold insert_task. run. destruct (createId (world s)) as [k w]. simpl.
  destruct (find_row task_id k (tasks (db s))); [done|].
  cbn [db]. by destruct (find_row plan_id _ (plans (db s))).
Qed.

Lemma insert_tasks_run planId taskDatas :
  ∀ created s, ∃ news,
    let run := insert_tasks planId taskDatas created s in
    missions (db run.2) = missions (db s)
    ∧ plans (db run.2) = plans (db s)
    ∧ toolUsage (db run.2) = toolUsage (db s)
    ∧ tasks (db run.2) = tasks (db s) ++ news
    ∧ Forall (λ t, task_planId t = planId) news
    ∧ ∀ created', run.1 = Return created' → created' = created ++ news.
Proof.
  induction taskDatas as [|taskData rest IH]; intros created s.
  - exists []. simpl. rewrite !app_nil_r. repeat split; try done. intros ? [= <-]. done.
  - cbn [insert_tasks]. unfold bind.
    pose proof (insert_task_run (new_task planId taskData) s) as Hins.
    destruct (createId (world s)) as [k w].
    destruct (find_row task_id k (tasks (db s))); rewrite Hins.
    { exists []. simpl. rewrite !app_nil_r. repeat split; done. }
    destruct (find_row plan_id _ (plans (db s))).
    + destruct (IH (created ++ [new_task planId taskData k])
                  {| db := with_tasks (λ rows, rows ++ [new_task planId taskData k]) (db s);
                     world := w |})
        as (news & Hm & Hp & Hu & Ht & Hall & Hret).
      exists (new_task planId taskData k :: news). simpl in *.
      split; [done|]. split; [done|]. split; [done|].
      split; [by rewrite Ht, <- app_assoc|]. split; [by constructor|].
      intros created' Hrun. rewrite (Hret _ Hrun). by rewrite <- app_assoc.
    + exists []. simpl. rewrite !app_nil_r. repeat split; done.
Qed.

Lemma update_rows_preserves {R A} (key : R → string) (g : R → A) k (f : R → R)
    (rows : list R) :
  (∀ r, g (f r) = g r) → g <$> update_rows key k f rows = g <$> rows.
Proof.
  intros Hg. unfold update_rows. induction rows as [|r rows IH]; [done|].
  cbn [List.map]. rewrite !fmap_cons, IH. f_equal. by case_bool_decide.
Qed.

Lemma find_row_app {R} (key : R → string) k (rows rows' : list R) :
  find_row key k (rows ++ rows') =
  match find_row key k rows with
  | Some r => Some r
  | None => find_row key k rows'
  end.
Proof.
  unfold find_row. induction rows as [|r rows IH]; simpl; [done|].
  by destruct (bool_decide (key r = k)).
Qed.




End Revisions.


(** *** The mission life cycle *)

Section Lifecycle.
Context `{Oracles}.

Lemma executeMission_run agent mission s :
  executeMission agent mission s = mission_lifecycle agent mission s.
Proof.
  unfold executeMission, mission_lifecycle, initial_context, plan_context. run.
  destruct (planning_createPlan agent mission _ _) as [[planningResult|e] s2]; [|done].
  simpl.
  destruct (autonomous_executePlan agent _ _ _) as [[executionResult|e] s4]; [|done].
  simpl.
  destruct (goalOriented_validateCompletion agent _ _ _ _) as [[[|]|e] s5]; [|done|done].
  simpl. by destruct (dateNow (world s5)).
Qed.

Lemma mission_status_in_with_mission_status k st stamp s :
  mission_status_in (db (with_mission_status k st stamp s)) k
  = (λ _, st) <$> mission_status_in (db s) k.
Proof.
  unfold mission_status_in, with_mission_status. db_simpl.
  rewrite find_row_update_eq by done. by destruct (find_row _ _ _).
Qed.

Lemma mission_lifecycle_ends agent mission s :
  ∃ result final stamp s_last,
    mission_lifecycle agent mission s
    = (Return result, with_mission_status (mission_id mission) final stamp s_last)
    ∧ (final = MissionCompleted ∨ final = MissionFailed).
Proof.
  unfold mission_lifecycle.
  destruct (planning_createPlan agent mission _ _) as [[planningResult|e] s2];
    [|eexists _, _, _, _; split; [reflexivity|by right]].
  simpl.
  destruct (autonomous_executePlan agent _ _ _) as [[executionResult|e] s4];
    [|eexists _, _, _, _; split; [reflexivity|by right]].
  destruct (goalOriented_validateCompletion agent _ _ _ _) as [[[|]|e] s5];
    [|eexists _, _, _, _; split; [reflexivity|by right]..].
  destruct (dateNow (world s5)) as [now w].
  eexists _, _, _, _; split; [reflexivity|by left].
Qed.

Lemma mission_lifecycle_throw agent mission s error s' :
  step_throws agent mission s error s' →
  mission_lifecycle agent mission s
  = (Return (failure_result error),
     with_mission_status (mission_id mission) MissionFailed None s').
Proof.
  unfold step_throws, mission_lifecycle.
  intros [->|(planningResult & s2 & -> & [->|(executionResult & s4 & -> & ->)])]; done.
Qed.

Lemma createPlan_missions mission context s :
  missions (db (createPlan mission context s).2) = missions (db s).
Proof.
  unfold createPlan, iterate_tasks. unfold bind at 1. unfold ask_exc at 1.
  destruct (generatePlan (ForMission mission) (world s)) as [[planData|e] w]; [|done].
  unfold bind at 1.
  match goal with |- context [insert_plan ?row ?st] =>
    pose proof (insert_plan_run row st) as Hins
  end.
  simpl in Hins. destruct (createId w) as [k w'].
  destruct (find_row plan_id k (plans (db s))); rewrite Hins; [done|].
  destruct (find_row mission_id _ (missions (db s))); [|done].
  destruct (data_plan_tasks planData) as [taskDatas|]; [|done].
  unfold bind at 1. unfold ret at 1. unfold bind at 1.
  match goal with |- context [insert_tasks ?p ?ds ?c ?st] =>
    destruct (insert_tasks_run p ds c st) as (news & Hm & _);
    destruct (insert_tasks p ds c st) as [[created|e] s1]
  end; simpl in *; by rewrite Hm.
Qed.

Lemma executePlan_returns registry plan context s :
  ∃ result s',
    executePlan registry plan context s = (Return result, s')
    ∧ missions (db s') = missions (db s).
Proof.
  destruct (Sorter.sortTasksByPriorityAndDependencies (plan_tasks plan))
    as [sortedTasks|m] eqn:Hsort.
  - destruct (executePlan_loop_frame registry plan context sortedTasks [] []
                (with_plan_status plan PlanActive s))
      as (cs & fs & s1 & new & Hloop & Hm & _).
    eexists _, _. split; [by apply (executePlan_return _ _ _ _ _ _ _ _ Hsort Hloop)|].
    simpl. by rewrite Hm.
  - eexists _, _. split; [by apply executePlan_throw|done].
Qed.

Lemma validateCompletion_pure mission result context s :
  ∃ answer w,
    validateCompletion mission result context s
    = (Return answer, {| db := db s; world := w |}).
Proof.
  unfold validateCompletion. run.
  destruct (assessCompletion mission result (world s)) as [[assessment|error] w]; eauto.
Qed.

Lemma executeMission_terminal registry mission s :
  ∃ result s' final,
    executeMission (ServiceManagementAgentImpl registry) mission s = (Return result, s')
    ∧ (final = MissionCompleted ∨ final = MissionFailed)
    ∧ mission_status_in (db s') (mission_id mission)
      = ((λ _, final) <$> mission_status_in (db s) (mission_id mission)).
Proof.
  rewrite executeMission_run. unfold mission_lifecycle.
  cbn [ServiceManagementAgentImpl planning_createPlan autonomous_executePlan
       goalOriented_validateCompletion].
  set (k := mission_id mission).
  set (s1 := with_mission_status k MissionPlanning None s).
  assert (∀ st stamp s0,
            missions (db s0) = missions (db s1) →
            mission_status_in (db (with_mission_status k st stamp s0)) k
            = ((λ _, st) <$> mission_status_in (db s) k)) as Hafter1.
  { intros st stamp s0 Hm. rewrite mission_status_in_with_mission_status.
    unfold mission_status_in at 1. rewrite Hm.
    fold (mission_status_in (db s1) k). subst s1.
    rewrite mission_status_in_with_mission_status. by destruct (mission_status_in _ _). }
  pose proof (createPlan_missions mission (initial_context mission) s1) as Hm2.
  destruct (createPlan mission (initial_context mission) s1) as [[planningResult|e] s2];
    simpl in Hm2.
  2:{ eexists _, _, MissionFailed. split; [reflexivity|]. split; [by right|]. by apply Hafter1. }
  set (s3 := with_mission_status k MissionExecuting None s2).
  assert (∀ st stamp s0,
            missions (db s0) = missions (db s3) →
            mission_status_in (db (with_mission_status k st stamp s0)) k
            = ((λ _, st) <$> mission_status_in (db s) k)) as Hafter3.
  { intros st stamp s0 Hm. rewrite mission_status_in_with_mission_status.
    unfold mission_status_in at 1. rewrite Hm.
    fold (mission_status_in (db s3) k). subst s3.
    rewrite (Hafter1 _ _ _ Hm2). by destruct (mission_status_in _ _). }
  destruct (executePlan_returns registry (planning_plan planningResult)
              (plan_context mission (planning_plan planningResult)) s3)
    as (executionResult & s4 & -> & Hm4).
  destruct (validateCompletion_pure mission executionResult
              (plan_context mission (planning_plan planningResult)) s4)
    as (answer & w & ->).
  destruct answer.
  - destruct (dateNow w) as [now w'] eqn:Hnow. simpl. rewrite Hnow.
    eexists _, _, MissionCompleted. split; [reflexivity|]. split; [by left|].
    by apply Hafter3.
  - eexists _, _, MissionFailed. split; [reflexivity|]. split; [by right|].
    by apply Hafter3.
Qed.

End Lifecycle.

(** C6 (amended).  No status write of the server looks at the current
    status.  [pauseMission] and the route's [pause] set [pending],
    [cancelMission] and the route's [cancel] set [failed], the route's
    [resume] sets [executing], each from any status, the terminal ones
    included; and [executeMission] writes [planning], then [executing], then
    [completed] or [failed] - [failed] at once when a call throws - from
    whatever status the mission had.  The conditions of the state machine are
    those under which the dashboard shows its buttons: pause for a mission it
    last saw [executing], resume for [pending], cancel for either, and none
    for a terminal status. *)
Theorem mission_status_writes `{Oracles} (agent : Capabilities) (mission : Mission)
    (missionId : string) (s : State) :
  pauseMission missionId s
  = (Return tt, with_mission_status missionId MissionPending None s)
  ∧ cancelMission missionId s
    = (Return tt, with_mission_status missionId MissionFailed None s)
  ∧ PATCH missionId (Some "pause"%string) s
    = (Return 200, with_mission_status missionId MissionPending None s)
  ∧ PATCH missionId (Some "resume"%string) s
    = (Return 200, with_mission_status missionId MissionExecuting None s)
  ∧ PATCH missionId (Some "cancel"%string) s
    = (Return 200, with_mission_status missionId MissionFailed None s)
  ∧ (∀ st stamp,
       mission_status_in (db (with_mission_status missionId st stamp s)) missionId
       = ((λ _, st) <$> mission_status_in (db s) missionId))
  ∧ executeMission agent mission s = mission_lifecycle agent mission s
  ∧ resumeMission agent missionId s
    = match find_row mission_id missionId (missions (db s)) with
      | Some row => ((λ _, tt) <$> (mission_lifecycle agent row s).1,
                     (mission_lifecycle agent row s).2)
      | None => (Return tt, s)
      end
  ∧ offeredActions MissionExecuting = ["pause"; "cancel"]%string
  ∧ offeredActions MissionPending = ["resume"; "cancel"]%string
  ∧ offeredActions MissionPlanning = []
  ∧ offeredActions MissionCompleted = []
  ∧ offeredActions MissionFailed = [].
Proof.
  split; [done|]. split; [done|]. split; [done|]. split; [done|]. split; [done|].
  split; [intros st stamp; apply mission_status_in_with_mission_status|].
  split; [apply executeMission_run|].
  split; [|repeat split].
  unfold resumeMission. run.
  destruct (find_row mission_id missionId (missions (db s))) as [row|]; [|done].
  rewrite executeMission_run. by destruct (mission_lifecycle agent row s) as [[result|e] s'].
Qed.

(** C8 (amended).  An exception that comes out of one of the three calls of
    [executeMission] - the creation of the plan, its execution, the
    validation of completion - is caught: the mission is set to [failed] and
    the failure result with empty task sets and the error message is
    returned; and [executeMission] always returns, its last write being
    [completed] or [failed].  With the engines of this repository the
    mission row ends [completed] or [failed], and only the creation of the
    plan can throw: [executePlan] and [validateCompletion] catch their own
    errors and return a result, which [executeMission] passes on. *)
Theorem executeMission_catches_and_ends_terminal `{Oracles} (agent : Capabilities)
    (registry : ToolRegistry) (mission : Mission) (s : State) :
  (∀ error s',
     step_throws agent mission s error s' →
     executeMission agent mission s
     = (Return (failure_result error),
        with_mission_status (mission_id mission) MissionFailed None s'))
  ∧ (∃ result final stamp s_last,
       executeMission agent mission s
       = (Return result, with_mission_status (mission_id mission) final stamp s_last)
       ∧ (final = MissionCompleted ∨ final = MissionFailed))
  ∧ (∃ result s' final,
       executeMission (ServiceManagementAgentImpl registry) mission s = (Return result, s')
       ∧ (final = MissionCompleted ∨ final = MissionFailed)
       ∧ mission_status_in (db s') (mission_id mission)
         = ((λ _, final) <$> mission_status_in (db s) (mission_id mission)))
  ∧ (∀ plan context s0, ∃ result s1,
       executePlan registry plan context s0 = (Return result, s1))
  ∧ (∀ result context s0, ∃ answer s1,
       validateCompletion mission result context s0 = (Return answer, s1)).
Proof.
  split; [|split; [|split; [|split]]].
  - intros error s' Hthrow. rewrite executeMission_run. by apply mission_lifecycle_throw.
  - rewrite executeMission_run. apply mission_lifecycle_ends.
  - apply executeMission_terminal.
  - intros plan context s0.
    destruct (executePlan_returns registry plan context s0) as (result & s1 & Hrun & _).
    eauto.
  - intros result context s0.
    destruct (validateCompletion_pure mission result context s0) as (answer & w & Hrun).
    eauto.
Qed.

(** * Further properties of the engine *)

(** ** The sorter on any input *)

Section SorterAnyInput.
Import Sorter.

Lemma visit_deps_names rec tasks deps :
  (∀ d st m, d ∈ tasks → rec d st = Some (Throw m) →
             ∃ c, c ∈ tasks ∧ m = circular_error c) →
  ∀ st m, visit_deps rec tasks deps st = Some (Throw m) →
          ∃ c, c ∈ tasks ∧ m = circular_error c.
Proof.
  intros Hrec. induction deps as [|k deps IH]; intros st m Hrun; simpl in Hrun; [done|].
  destruct (find_task tasks k) as [d|] eqn:Hf; [|by eapply IH].
  apply find_task_some in Hf as [Hd _].
  destruct (rec d st) as [[st1|m1]|] eqn:Hcall; [by eapply IH| |done].
  simplify_eq. by eapply Hrec.
Qed.

Lemma visit_names fuel tasks :
  ∀ t st m, t ∈ tasks → visit fuel tasks t st = Some (Throw m) →
            ∃ c, c ∈ tasks ∧ m = circular_error c.
Proof.
  induction fuel as [|fuel IH]; intros t st m Hin Hrun; [done|].
  rewrite visit_unfold in Hrun.
  case_bool_decide; [simplify_eq; eauto|]. case_bool_decide; [done|].
  destruct (visit_deps _ _ _ _) as [[st2|m2]|] eqn:Hdeps; [done| |done].
  simplify_eq. by eapply (visit_deps_names _ _ _ IH).
Qed.

Lemma visit_all_names fuel tasks seeds :
  ∀ st m, (∀ t, t ∈ seeds → t ∈ tasks) → visit_all fuel tasks seeds st = Some (Throw m) →
          ∃ c, c ∈ tasks ∧ m = circular_error c.
Proof.
  induction seeds as [|t seeds IH]; intros st m Hsub Hrun; cbn [visit_all] in Hrun; [done|].
  destruct (visit fuel tasks t st) as [[st1|m1]|] eqn:Ht; [| |done].
  - eapply IH; [|exact Hrun]. intros; apply Hsub; by right.
  - simplify_eq. eapply visit_names; [|exact Ht]. apply Hsub. left.
Qed.

(** *** Repeated ids *)

Lemma marks_inv_initial tasks : marks_inv tasks initial.
Proof.
  split; simpl.
  - intros k. split; [set_solver|]. intros (t & Ht & _). by apply elem_of_nil in Ht.
  - intros t Ht. by apply elem_of_nil in Ht.
  - constructor.
  - set_solver.
Qed.

Lemma marks_inv_push tasks (st2 : SortState) (t : Task) :
  marks_inv tasks st2 → t ∈ tasks → task_id t ∈ visiting st2 →
  marks_inv tasks {| sorted := sorted st2 ++ [t];
                     visited := visited st2 ∪ {[task_id t]};
                     visiting := visiting st2 ∖ {[task_id t]} |}.
Proof.
  intros Hinv Hin Hing.
  assert (¬ ∃ u, u ∈ sorted st2 ∧ task_id u = task_id t) as Hfresh.
  { rewrite <- (marks_visited _ _ Hinv). by apply (marks_disj _ _ Hinv). }
  split; simpl.
  - intros k. rewrite elem_of_union, elem_of_singleton, (marks_visited _ _ Hinv). split.
    + intros [(u & Hu & Hk)| ->].
      * exists u. split; [apply elem_of_app; by left|done].
      * exists t. split; [apply elem_of_app; right; by apply list_elem_of_singleton|done].
    + intros (u & Hu & Hk). apply elem_of_app in Hu as [Hu|Hu]; [left; eauto|].
      apply list_elem_of_singleton in Hu as ->. by right.
  - intros u Hu. apply elem_of_app in Hu as [Hu|Hu]; [by apply (marks_sub _ _ Hinv)|].
    by apply list_elem_of_singleton in Hu as ->.
  - rewrite fmap_app. apply NoDup_app. split; [apply (marks_nodup _ _ Hinv)|]. split.
    + intros k Hk Hk'. apply list_elem_of_singleton in Hk' as ->.
      apply list_elem_of_fmap in Hk as (u & Hid & Hu). apply Hfresh; eauto.
    + apply NoDup_singleton.
  - intros k Hk. apply elem_of_difference in Hk as [Hk Hne].
    rewrite elem_of_union. intros [Hv|Hv]; [by apply (marks_disj _ _ Hinv) in Hk|done].
Qed.

Lemma visit_deps_marks rec tasks deps :
  (∀ d st st', d ∈ tasks → marks_inv tasks st → rec d st = Some (Return st') →
               marks_inv tasks st' ∧ visited st ⊆ visited st') →
  ∀ st st', marks_inv tasks st → visit_deps rec tasks deps st = Some (Return st') →
            marks_inv tasks st' ∧ visited st ⊆ visited st'.
Proof.
  intros Hrec. induction deps as [|k deps IH]; intros st st' Hinv Hrun; simpl in Hrun.
  - by simplify_eq.
  - destruct (find_task tasks k) as [d|] eqn:Hf; [|by apply IH].
    apply find_task_some in Hf as [Hd _].
    destruct (rec d st) as [[st1|m]|] eqn:Hcall; [|done..].
    destruct (Hrec _ _ _ Hd Hinv Hcall) as [Hinv1 Hsub1].
    destruct (IH _ _ Hinv1 Hrun) as [Hinv' Hsub']. split; [done|set_solver].
Qed.

Lemma visit_marks fuel tasks :
  ∀ t st st', t ∈ tasks → marks_inv tasks st → visit fuel tasks t st = Some (Return st') →
              marks_inv tasks st' ∧ visited st ⊆ visited st' ∧ task_id t ∈ visited st'.
Proof.
  induction fuel as [|fuel IH]; intros t st st' Hin Hinv Hrun; [done|].
  rewrite visit_unfold in Hrun.
  case_bool_decide as Hing; [done|].
  case_bool_decide as Hed; [by simplify_eq|].
  destruct (visit_deps _ _ _ _) as [[st2|m]|] eqn:Hdeps; [|done..].
  pose proof (visit_deps_visiting _ _ _ (visit_visiting fuel tasks) _ _ Hdeps) as Hkeep.
  apply (visit_deps_marks (visit fuel tasks)) in Hdeps as [Hinv2 Hsub2].
  - simplify_eq. simpl in *. split; [|split; simpl; set_solver].
    apply marks_inv_push; [done|done|rewrite Hkeep; set_solver].
  - intros d st0 st0' Hd Hinv0 Hcall. destruct (IH _ _ _ Hd Hinv0 Hcall) as (? & ? & _). done.
  - destruct Hinv. split; simpl; try done.
    intros k Hk. apply elem_of_union in Hk as [Hk|Hk]; [auto|].
    by apply elem_of_singleton in Hk as ->.
Qed.

Lemma visit_all_marks fuel tasks seeds :
  ∀ st st', (∀ t, t ∈ seeds → t ∈ tasks) → marks_inv tasks st →
  visit_all fuel tasks seeds st = Some (Return st') →
  marks_inv tasks st' ∧ visited st ⊆ visited st' ∧ (∀ t, t ∈ seeds → task_id t ∈ visited st').
Proof.
  induction seeds as [|t seeds IH]; intros st st' Hsub Hinv Hrun; cbn [visit_all] in Hrun.
  - simplify_eq. split; [done|]. split; [done|]. intros t Ht. by apply elem_of_nil in Ht.
  - destruct (visit fuel tasks t st) as [[st1|m]|] eqn:Ht; [|done..].
    apply visit_marks in Ht as (Hinv1 & Hsub1 & Ht1); [|apply Hsub; left|done].
    apply IH in Hrun as (Hinv' & Hsub' & Hall); [|intros; apply Hsub; by right|done].
    split; [done|]. split; [set_solver|].
    intros u Hu. apply elem_of_cons in Hu as [->|Hu]; [set_solver|eauto].
Qed.

End SorterAnyInput.

(** X1.  Whatever the input - cycles, repeated ids, ids that name no task -
    the recursion of [visit] goes at most one level deeper than there are
    tasks: any larger budget gives the same answer, which is an order or the
    error "Circular dependency detected involving task: " followed by the
    title of one of the tasks of the input. *)
Theorem sorter_always_answers (tasks : list Task) (extra : nat) :
  Sorter.sort_with_fuel (extra + S (length tasks)) tasks
  = Some (Sorter.sortTasksByPriorityAndDependencies tasks)
  ∧ ((∃ out, Sorter.sortTasksByPriorityAndDependencies tasks = Return out)
     ∨ ∃ t, t ∈ tasks
            ∧ Sorter.sortTasksByPriorityAndDependencies tasks
              = Throw ("Circular dependency detected involving task: "
                       +:+ task_title t)%string).
Proof.
  split; [apply sort_any_budget|].
  pose proof (sort_fuel_enough tasks) as Henough.
  unfold Sorter.sortTasksByPriorityAndDependencies, Sorter.sort_with_fuel in *.
  destruct (Sorter.visit_all _ _ _ _) as [[st|m]|] eqn:Hrun; [left; eauto| |done].
  right. apply visit_all_names in Hrun as (c & Hc & ->); [eauto|].
  intros t Ht. by rewrite <- (prioritySorted_perm tasks).
Qed.

(** X2.  When the sorter returns, also for an input in which ids repeat,
    its output holds tasks of the input only, no id twice, and one task for
    every id of the input: of the tasks that share an id one is kept and the
    others are dropped. *)
Theorem sorter_keeps_one_task_per_id (tasks out : list Task) :
  Sorter.sortTasksByPriorityAndDependencies tasks = Return out →
  NoDup (task_id <$> out)
  ∧ (∀ t, t ∈ out → t ∈ tasks)
  ∧ (∀ t, t ∈ tasks → ∃ u, u ∈ out ∧ task_id u = task_id t)
  ∧ length out = size (ids_of tasks).
Proof.
  unfold Sorter.sortTasksByPriorityAndDependencies, Sorter.sort_with_fuel.
  destruct (Sorter.visit_all _ _ _ _) as [[st|m]|] eqn:Hrun; [|done..].
  intros [= <-].
  apply visit_all_marks in Hrun as (Hinv & _ & Hall);
    [|intros t Ht; by rewrite <- (prioritySorted_perm tasks)|apply marks_inv_initial].
  assert (∀ t, t ∈ tasks → ∃ u, u ∈ Sorter.sorted st ∧ task_id u = task_id t) as Hcover.
  { intros t Ht. apply (marks_visited _ _ Hinv), Hall. by rewrite (prioritySorted_perm tasks). }
  split; [apply (marks_nodup _ _ Hinv)|]. split; [apply (marks_sub _ _ Hinv)|].
  split; [done|].
  rewrite <- (length_fmap task_id).
  assert (ids_of tasks = list_to_set (task_id <$> Sorter.sorted st)) as ->.
  { unfold ids_of. apply set_eq. intros k. rewrite !elem_of_list_to_set, !list_elem_of_fmap.
    split.
    - intros (t & -> & Ht). destruct (Hcover t Ht) as (u & Hu & Hid). eauto.
    - intros (u & -> & Hu). exists u. split; [done|]. by apply (marks_sub _ _ Hinv). }
  symmetry. apply size_list_to_set, (marks_nodup _ _ Hinv).
Qed.

(** ** The task executor *)

(** X3.  A task that names a tool the registry does not have: [executeTask]
    throws "No suitable tool found for task: <title>", after it has set the
    rows of the task to [failed] with both time stamps and the payload
    [{ error: message }]; no tool and no reasoning service is called and no
    usage record is written (the world only sees the two readings of the
    clock). *)
Theorem executeTask_unknown_tool `{Oracles} (registry : ToolRegistry) (task : Task)
    (context : ExecutionContext) (s : State) (name : string) :
  truthy_name (task_toolName task) = Some name →
  registry_get registry name = None →
  let message := ("No suitable tool found for task: " +:+ task_title task)%string in
  let '(startedAt, w0) := dateNow (world s) in
  let '(completedAt, w1) := dateNow w0 in
  executeTask registry task context s
  = (Throw message,
     {| db := with_tasks
                (update_rows task_id (task_id task)
                   (λ r, set_task_finished TaskFailed completedAt
                           (Some (JObj [("error"%string, JStr message)]))
                           (set_task_started startedAt r)))
                (db s);
        world := w1 |}).
Proof.
  intros Hname Hget message. unfold executeTask, selectTool. rewrite Hname. run.
  rewrite Hget. destruct (dateNow (world s)) as [startedAt w0]. simpl.
  destruct (dateNow w0) as [completedAt w1]. db_simpl.
  by rewrite update_rows_twice.
Qed.

(** X4.  [executeTask] never leaves a task [in_progress]: afterwards every
    row of the task is [completed] or [failed] and carries both time stamps;
    it is [completed] exactly when the call returned a successful result.
    The rows of other tasks, the plans and the missions are not touched. *)
Theorem executeTask_ends_completed_or_failed `{Oracles} (registry : ToolRegistry)
    (task : Task) (context : ExecutionContext) (s : State) :
  let run := executeTask registry task context s in
  ∃ st,
    (st = TaskCompleted ∨ st = TaskFailed)
    ∧ (st = TaskCompleted ↔ ∃ result, run.1 = Return result ∧ result_success result = true)
    ∧ Forall (λ r, task_status r = st ∧ is_Some (task_startedAt r)
                   ∧ is_Some (task_completedAt r))
        (rows_of (db run.2) (task_id task))
    ∧ length (rows_of (db run.2) (task_id task)) = length (rows_of (db s) (task_id task))
    ∧ (∀ k, k ≠ task_id task → rows_of (db run.2) k = rows_of (db s) k)
    ∧ plans (db run.2) = plans (db s)
    ∧ missions (db run.2) = missions (db s).
Proof.
  intros run. subst run.
  destruct (executeTask_run registry task context s) as (st & recs & Hrun & Hout).
  exists st.
  assert (st = TaskCompleted ∨ st = TaskFailed) as Hst.
  { destruct ((executeTask registry task context s).1) as [result|e]; [|by right].
    rewrite Hout. destruct (result_success result); auto. }
  split; [done|]. split.
  { destruct ((executeTask registry task context s).1) as [result|e].
    - rewrite Hout. destruct (result_success result) eqn:Hs.
      + split; [eauto|done].
      + split; [done|]. intros (r & [= <-] & Hr). congruence.
    - rewrite Hout. split; [done|]. intros (r & Hr & _). done. }
  pose proof Hrun as (Hm & Hp & (t0 & t1 & res & Htasks) & _).
  split.
  { unfold rows_of. rewrite Htasks, filter_update_eq by done.
    apply Forall_forall. intros r Hr. apply list_elem_of_In in Hr.
    apply in_map_iff in Hr as (r0 & <- & _). simpl. eauto. }
  split; [by apply task_run_self in Hrun as [? _]|].
  split; [intros k Hk; by eapply task_run_other|done].
Qed.

(** ** The plan executor *)

Lemma sorter_returns (tasks : list Task) :
  distinct_ids tasks → acyclic tasks →
  ∃ sortedTasks,
    Sorter.sortTasksByPriorityAndDependencies tasks = Return sortedTasks
    ∧ sortedTasks ≡ₚ tasks.
Proof.
  intros Hdistinct Hacyclic. pose proof (sort_outcome tasks Hdistinct) as Hout.
  destruct (Sorter.sortTasksByPriorityAndDependencies tasks) as [out|m].
  - destruct Hout as (Hperm & _). eauto.
  - destruct Hout as (c & _ & Hcycle & _). by apply Hacyclic in Hcycle.
Qed.

Section PlanExecutor.
Context `{Oracles}.

Lemma filter_nil_iff {A} (f : A → bool) (l : list A) :
  List.filter f l = [] ↔ ∀ x, x ∈ l → f x = false.
Proof.
  induction l as [|a l IH]; simpl.
  - split; [|done]. intros _ x Hx. by apply elem_of_nil in Hx.
  - destruct (f a) eqn:Hfa.
    + split; [done|]. intros Hall. specialize (Hall a (list_elem_of_here _ _)). congruence.
    + rewrite IH. split.
      * intros Hall x Hx. apply elem_of_cons in Hx as [->|Hx]; auto.
      * intros Hall x Hx. apply Hall. by right.
Qed.

(** A task is let through exactly when each of its dependency ids has a
    [completed] row among the rows of the plan. *)
Lemma dependenciesIncomplete_false plan t d :
  dependenciesIncomplete plan t d = false
  ↔ ∀ k, k ∈ Sorter.deps_of t → completed_in_plan d plan k.
Proof.
  unfold dependenciesIncomplete, Sorter.deps_of.
  destruct (task_dependencies t) as [[|depId rest]|].
  - split; [|done]. intros _ k Hk. by apply elem_of_nil in Hk.
  - rewrite negb_false_iff, bool_decide_eq_true. unfold incompleteDeps.
    rewrite filter_nil_iff. apply forall_proper. intros k.
    apply forall_proper. intros Hk. rewrite negb_false_iff. unfold completed_in_plan.
    split.
    + intros Hex. apply existsb_exists in Hex as (r & Hr & Hcond).
      apply andb_true_iff in Hcond as [Hid Hst]. apply bool_decide_eq_true in Hid, Hst.
      apply filter_In in Hr as [Hr Hplan]. apply bool_decide_eq_true in Hplan.
      exists r. by rewrite list_elem_of_In.
    + intros (r & Hr & Hid & Hplan & Hst). apply existsb_exists. exists r. split.
      * apply filter_In. split; [by apply list_elem_of_In|by apply bool_decide_eq_true].
      * apply andb_true_iff. split; by apply bool_decide_eq_true.
  - split; [|done]. intros _ k Hk. by apply elem_of_nil in Hk.
Qed.

Lemma executePlan_loop_outcomes registry plan context l :
  ∀ cs fs s cs' fs' s',
    NoDup (task_id <$> l) →
    executePlan_loop registry plan context l (cs, fs) s = (Return (cs', fs'), s') →
    ∃ cn fn,
      cs' = cs ++ cn ∧ fs' = fs ++ fn
      ∧ cn `sublist_of` l ∧ fn `sublist_of` l
      ∧ ∀ t, t ∈ l →
          (t ∈ cn ∧ (t ∉ fn)
           ∧ Forall (λ r, task_status r = TaskCompleted) (rows_of (db s') (task_id t)))
          ∨ (t ∈ fn ∧ (t ∉ cn)
             ∧ Forall (λ r, task_status r = TaskFailed) (rows_of (db s') (task_id t)))
          ∨ ((t ∉ cn) ∧ (t ∉ fn) ∧ Sorter.deps_of t ≠ []
             ∧ rows_of (db s') (task_id t) = rows_of (db s) (task_id t)).
Proof.
  induction l as [|t l IH]; intros cs fs s cs' fs' s' Hnd Hloop.
  { simpl in Hloop. unfold ret in Hloop. simplify_eq. exists [], []. rewrite !app_nil_r.
    repeat split; try done. intros t Ht. by apply elem_of_nil in Ht. }
  rewrite fmap_cons in Hnd. apply NoDup_cons in Hnd as [Ht Hnd].
  assert (∀ u, u ∈ l → task_id u ≠ task_id t) as Hother.
  { intros u Hu Heq. apply Ht. rewrite <- Heq. by apply list_elem_of_fmap_2. }
  assert (t ∉ l) as Htl by (intros Hin; by apply (Hother t Hin)).
  rewrite executePlan_loop_cons in Hloop.
  assert (∀ s1 c f, executePlan_loop registry plan context l (c, f) s1 = (Return (cs', fs'), s')
                    → rows_of (db s') (task_id t) = rows_of (db s1) (task_id t)) as Hkeep.
  { intros s1 c f Hrun.
    destruct (executePlan_loop_frame registry plan context l c f s1)
      as (? & ? & ? & ? & Heq & _ & _ & _ & _ & Hrows & _).
    rewrite Heq in Hrun. simplify_eq. by apply Hrows. }
  destruct (executePlan_step_run registry plan context cs fs t s)
    as [[Hskip Hstep]|(_ & st & recs & s1 & Hrun & Hstep)].
  - rewrite Hstep in Hloop. pose proof (Hkeep _ _ _ Hloop) as Ht'.
    destruct (IH _ _ _ _ _ _ Hnd Hloop) as (cn & fn & -> & -> & Hc & Hf & Hall).
    exists cn, fn. split; [done|]. split; [done|].
    split; [by apply sublist_cons|]. split; [by apply sublist_cons|].
    intros u Hu. apply elem_of_cons in Hu as [->|Hu]; [|by apply Hall].
    right. right. split; [intros Hin; apply Htl; by eapply elem_of_sublist|].
    split; [intros Hin; apply Htl; by eapply elem_of_sublist|].
    split; [|done]. intros Hnil. by rewrite (no_deps_not_skipped plan t (db s) Hnil) in Hskip.
  - pose proof (task_run_self _ _ _ _ _ Hrun) as [_ Hself].
    assert (∀ u, u ∈ l → rows_of (db s1) (task_id u) = rows_of (db s) (task_id u)) as Hu1.
    { intros u Hu. eapply task_run_other; [exact Hrun|by apply Hother]. }
    destruct Hstep as [[-> Hstep]|[-> Hstep]]; rewrite Hstep in Hloop;
      pose proof (Hkeep _ _ _ Hloop) as Ht';
      destruct (IH _ _ _ _ _ _ Hnd Hloop) as (cn & fn & -> & -> & Hc & Hf & Hall).
    + exists (t :: cn), fn. rewrite <- app_assoc. split; [done|]. split; [done|].
      split; [by apply sublist_skip|]. split; [by apply sublist_cons|].
      intros u Hu. apply elem_of_cons in Hu as [->|Hu].
      * left. split; [left|]. split; [intros Hin; apply Htl; by eapply elem_of_sublist|].
        by rewrite Ht'.
      * assert (u ≠ t) as Hne by (intros ->; by apply Htl).
        destruct (Hall u Hu) as [(H1 & H2 & H3)|[(H1 & H2 & H3)|(H1 & H2 & H3 & H4)]].
        -- left. split; [by right|done].
        -- right. left. split; [done|]. split; [|done].
           intros Hin. apply elem_of_cons in Hin as [?|?]; done.
        -- right. right. split; [intros Hin; apply elem_of_cons in Hin as [?|?]; done|].
           split; [done|]. split; [done|]. by rewrite H4, Hu1.
    + exists cn, (t :: fn). rewrite <- app_assoc. split; [done|]. split; [done|].
      split; [by apply sublist_cons|]. split; [by apply sublist_skip|].
      intros u Hu. apply elem_of_cons in Hu as [->|Hu].
      * right. left. split; [left|]. split; [intros Hin; apply Htl; by eapply elem_of_sublist|].
        by rewrite Ht'.
      * assert (u ≠ t) as Hne by (intros ->; by apply Htl).
        destruct (Hall u Hu) as [(H1 & H2 & H3)|[(H1 & H2 & H3)|(H1 & H2 & H3 & H4)]].
        -- left. split; [done|]. split; [|done].
           intros Hin. apply elem_of_cons in Hin as [?|?]; done.
        -- right. left. split; [by right|done].
        -- right. right. split; [done|].
           split; [intros Hin; apply elem_of_cons in Hin as [?|?]; done|].
           split; [done|]. by rewrite H4, Hu1.
Qed.


Lemma executePlan_outcome registry plan context s :
  ∃ result s1 final,
    executePlan registry plan context s
    = (Return result, with_plan_status plan final s1)
    ∧ final = (if exec_success result then PlanCompleted else PlanFailed)
    ∧ plans (db s1) = plans (db (with_plan_status plan PlanActive s))
    ∧ missions (db s1) = missions (db s)
    ∧ (exec_success result = true
       ↔ exec_failedTasks result = [] ∧ exec_error result = None).
Proof.
  destruct (Sorter.sortTasksByPriorityAndDependencies (plan_tasks plan))
    as [sortedTasks|m] eqn:Hsort.
  - destruct (executePlan_loop_frame registry plan context sortedTasks [] []
                (with_plan_status plan PlanActive s))
      as (cs & fs & s1 & new & Hloop & Hm & Hp & _).
    eexists _, s1, _. split; [by apply (executePlan_return _ _ _ _ _ _ _ _ Hsort Hloop)|].
    simpl. split; [done|]. split; [done|]. split; [done|].
    destruct fs; simpl; split; try done. by intros [? _].
  - eexists _, _, _. split; [by apply executePlan_throw|]. simpl.
    split; [done|]. split; [done|]. split; [done|]. split; [done|]. by intros [_ ?].
Qed.






End PlanExecutor.

(** X5.  [executePlan] never throws and never leaves the plan [active]: the
    row of the plan ends [completed] when the result reports success and
    [failed] otherwise, success meaning that no task is in the failed set and
    the sorter did not fail.  The rows of other plans and the missions are
    not touched. *)
Theorem executePlan_ends_completed_or_failed `{Oracles} (registry : ToolRegistry)
    (plan : Plan) (context : ExecutionContext) (s : State) :
  ∃ result s',
    executePlan registry plan context s = (Return result, s')
    ∧ plan_status_in (db s') (plan_id plan)
      = ((λ _, if exec_success result then PlanCompleted else PlanFailed)
           <$> plan_status_in (db s) (plan_id plan))
    ∧ (exec_success result = true
       ↔ exec_failedTasks result = [] ∧ exec_error result = None)
    ∧ (∀ k, k ≠ plan_id plan →
            find_row plan_id k (plans (db s')) = find_row plan_id k (plans (db s)))
    ∧ missions (db s') = missions (db s).
Proof.
  destruct (executePlan_outcome registry plan context s)
    as (result & s1 & final & Hrun & -> & Hp & Hm & Hok).
  eexists _, _. split; [exact Hrun|].
  split.
  { rewrite plan_status_in_with_plan_status. unfold plan_status_in at 1. rewrite Hp.
    fold (plan_status_in (db (with_plan_status plan PlanActive s)) (plan_id plan)).
    rewrite plan_status_in_with_plan_status. by destruct (plan_status_in _ _). }
  split; [done|]. split; [|done].
  intros k Hk. unfold with_plan_status. db_simpl.
  rewrite find_row_update_ne, Hp by done. by rewrite find_row_update_ne.
Qed.

(** X6.  In a plan with distinct task ids and no cycle every task ends in
    exactly one of three ways: in the completed set with its rows
    [completed]; in the failed set with its rows [failed]; or in neither set
    and with its rows untouched, which only happens to a task that has
    dependencies.  No task is in a set twice. *)
Theorem executePlan_classifies_tasks `{Oracles} (registry : ToolRegistry) (plan : Plan)
    (context : ExecutionContext) (s : State) :
  distinct_ids (plan_tasks plan) → acyclic (plan_tasks plan) →
  ∃ result s',
    executePlan registry plan context s = (Return result, s')
    ∧ NoDup (exec_completedTasks result ++ exec_failedTasks result)
    ∧ (∀ t, t ∈ exec_completedTasks result ++ exec_failedTasks result → t ∈ plan_tasks plan)
    ∧ ∀ t, t ∈ plan_tasks plan →
        (t ∈ exec_completedTasks result
         ∧ Forall (λ r, task_status r = TaskCompleted) (rows_of (db s') (task_id t)))
        ∨ (t ∈ exec_failedTasks result
           ∧ Forall (λ r, task_status r = TaskFailed) (rows_of (db s') (task_id t)))
        ∨ ((t ∉ exec_completedTasks result) ∧ (t ∉ exec_failedTasks result)
           ∧ Sorter.deps_of t ≠ []
           ∧ rows_of (db s') (task_id t) = rows_of (db s) (task_id t)).
Proof.
  intros Hdistinct Hacyclic.
  destruct (sorter_returns _ Hdistinct Hacyclic) as (sortedTasks & Hsort & Hperm).
  assert (NoDup (task_id <$> sortedTasks)) as Hnd by (by rewrite Hperm).
  destruct (executePlan_loop_frame registry plan context sortedTasks [] []
              (with_plan_status plan PlanActive s)) as (cs & fs & s1 & new & Hloop & _).
  destruct (executePlan_loop_outcomes _ _ _ _ _ _ _ _ _ _ Hnd Hloop)
    as (cn & fn & Hcs & Hfs & Hc & Hf & Hall). simpl in Hcs, Hfs. subst cs fs.
  eexists _, _. split; [by apply (executePlan_return _ _ _ _ _ _ _ _ Hsort Hloop)|].
  cbn [exec_completedTasks exec_failedTasks].
  assert (NoDup sortedTasks) as Hnd' by (by eapply NoDup_fmap_1).
  split.
  { apply NoDup_app. split; [by eapply sublist_NoDup|]. split; [|by eapply sublist_NoDup].
    intros t Hcn Hfn. assert (t ∈ sortedTasks) as Ht by (by eapply elem_of_sublist).
    destruct (Hall t Ht) as [(_ & H2 & _)|[(_ & H2 & _)|(H1 & _)]]; done. }
  split.
  { intros t Ht. rewrite <- Hperm.
    apply elem_of_app in Ht as [Ht|Ht]; by eapply elem_of_sublist. }
  intros t Ht. rewrite <- Hperm in Ht.
  destruct (Hall t Ht) as [(H1 & _ & H3)|[(H1 & _ & H3)|(H1 & H2 & H3 & H4)]]; auto.
  right. right. done.
Qed.

(** X7.  A task without dependencies is always executed, whatever happens
    to the other tasks of the plan (distinct ids, no cycle): it ends in the
    completed or in the failed set, never skipped. *)
Theorem independent_task_is_always_executed `{Oracles} (registry : ToolRegistry)
    (plan : Plan) (context : ExecutionContext) (s : State) (t : Task) :
  distinct_ids (plan_tasks plan) → acyclic (plan_tasks plan) →
  t ∈ plan_tasks plan → Sorter.deps_of t = [] →
  ∃ result s',
    executePlan registry plan context s = (Return result, s')
    ∧ ((t ∈ exec_completedTasks result ∧ task_status_in (db s') (task_id t)
                                         = ((λ _, TaskCompleted) <$> task_status_in (db s) (task_id t)))
       ∨ (t ∈ exec_failedTasks result ∧ task_status_in (db s') (task_id t)
                                        = ((λ _, TaskFailed) <$> task_status_in (db s) (task_id t)))).
Proof.
  intros Hdistinct Hacyclic Ht Hdeps.
  destruct (sorter_returns _ Hdistinct Hacyclic) as (sortedTasks & Hsort & Hperm).
  assert (NoDup (task_id <$> sortedTasks)) as Hnd by (by rewrite Hperm).
  destruct (executePlan_loop_frame registry plan context sortedTasks [] []
              (with_plan_status plan PlanActive s))
    as (cs & fs & s1 & new & Hloop & _ & _ & _ & _ & _ & Hlen).
  destruct (executePlan_loop_outcomes _ _ _ _ _ _ _ _ _ _ Hnd Hloop)
    as (cn & fn & Hcs & Hfs & _ & _ & Hall). simpl in Hcs, Hfs. subst cs fs.
  eexists _, _. split; [by apply (executePlan_return _ _ _ _ _ _ _ _ Hsort Hloop)|].
  cbn [exec_completedTasks exec_failedTasks].
  assert (∀ st, Forall (λ r, task_status r = st) (rows_of (db s1) (task_id t)) →
                task_status_in (db (with_plan_status plan
                   (if bool_decide (fn = []) then PlanCompleted else PlanFailed) s1)) (task_id t)
                = ((λ _, st) <$> task_status_in (db s) (task_id t))) as Hstatus.
  { intros st Hrows. rewrite !task_status_in_rows.
    change (rows_of (db (with_plan_status plan _ s1))) with (rows_of (db s1)).
    specialize (Hlen (task_id t)).
    change (rows_of (db (with_plan_status plan PlanActive s))) with (rows_of (db s)) in Hlen.
    destruct (rows_of (db s1) (task_id t)) as [|r rows];
      destruct (rows_of (db s) (task_id t)) as [|r' rows']; try done.
    simpl. apply Forall_cons in Hrows as [-> _]. done. }
  rewrite <- Hperm in Ht.
  destruct (Hall t Ht) as [(H1 & _ & H3)|[(H1 & _ & H3)|(_ & _ & H3 & _)]]; [left|right|done];
    (split; [done|by apply Hstatus]).
Qed.



Section MissingDependency.
Context `{Oracles}.

Lemma task_run_rows_length t st recs s s' k :
  task_run t st recs s s' → length (rows_of (db s') k) = length (rows_of (db s) k).
Proof.
  intros Hrun. destruct (decide (k = task_id t)) as [->|Hne].
  - by apply (task_run_self _ _ _ _ _ Hrun).
  - by rewrite (task_run_other _ _ _ _ _ _ Hrun Hne).
Qed.

Lemma no_row_blocks plan t d k :
  k ∈ Sorter.deps_of t → rows_of d k = [] → dependenciesIncomplete plan t d = true.
Proof.
  intros Hk Hrows. destruct (dependenciesIncomplete plan t d) eqn:Hdep; [done|].
  destruct (proj1 (dependenciesIncomplete_false plan t d) Hdep k Hk) as (r & Hr & Hid & _).
  assert (r ∈ rows_of d k) as Hin
    by (apply list_elem_of_In, filter_In; split;
        [by apply list_elem_of_In|by apply bool_decide_eq_true_2]).
  rewrite Hrows in Hin. by apply elem_of_nil in Hin.
Qed.

Lemma executePlan_loop_missing_dependency registry plan context k l :
  ∀ cs fs s,
    rows_of (db s) k = [] →
    ∃ cn fn s',
      executePlan_loop registry plan context l (cs, fs) s = (Return (cs ++ cn, fs ++ fn), s')
      ∧ ∀ t, t ∈ cn ++ fn → k ∉ Sorter.deps_of t.
Proof.
  induction l as [|t l IH]; intros cs fs s Hrows.
  { exists [], [], s. rewrite !app_nil_r. split; [done|].
    intros t Ht. by apply elem_of_nil in Ht. }
  rewrite executePlan_loop_cons.
  destruct (executePlan_step_run registry plan context cs fs t s)
    as [[_ ->]|(Hgo & st & recs & s1 & Hrun & Hstep)].
  - destruct (IH cs fs s Hrows) as (cn & fn & s' & -> & Hall). by exists cn, fn, s'.
  - assert (k ∉ Sorter.deps_of t) as Hk.
    { intros Hk. by rewrite (no_row_blocks plan t (db s) k Hk Hrows) in Hgo. }
    assert (rows_of (db s1) k = []) as Hrows1.
    { apply nil_length_inv. by rewrite (task_run_rows_length _ _ _ _ _ k Hrun), Hrows. }
    destruct Hstep as [[_ ->]|[_ ->]].
    + destruct (IH (cs ++ [t]) fs s1 Hrows1) as (cn & fn & s' & -> & Hall).
      exists (t :: cn), fn, s'. rewrite <- app_assoc. split; [done|].
      intros u Hu. apply elem_of_cons in Hu as [->|Hu]; [done|by apply Hall].
    + destruct (IH cs (fs ++ [t]) s1 Hrows1) as (cn & fn & s' & -> & Hall).
      exists cn, (t :: fn), s'. rewrite <- app_assoc. split; [done|].
      intros u Hu. apply elem_of_app in Hu as [Hu|Hu]; [apply Hall, elem_of_app; by left|].
      apply elem_of_cons in Hu as [->|Hu]; [done|apply Hall, elem_of_app; by right].
Qed.

End MissingDependency.

(** X10.  A dependency id that has no row in the task table blocks for
    good: whatever the plan and the tools, a task that lists such an id is
    neither in the completed nor in the failed set of [executePlan] - it is
    skipped, no tool is called for it. *)
Theorem dependency_without_row_blocks `{Oracles} (registry : ToolRegistry) (plan : Plan)
    (context : ExecutionContext) (s : State) (t : Task) (k : string) :
  k ∈ Sorter.deps_of t → rows_of (db s) k = [] →
  ∃ result s',
    executePlan registry plan context s = (Return result, s')
    ∧ (t ∉ exec_completedTasks result) ∧ (t ∉ exec_failedTasks result).
Proof.
  intros Hk Hrows.
  destruct (Sorter.sortTasksByPriorityAndDependencies (plan_tasks plan))
    as [sortedTasks|m] eqn:Hsort.
  - destruct (executePlan_loop_missing_dependency registry plan context k sortedTasks [] []
                (with_plan_status plan PlanActive s) Hrows) as (cn & fn & s1 & Hloop & Hall).
    simpl in Hloop.
    eexists _, _. split; [by apply (executePlan_return _ _ _ _ _ _ _ _ Hsort Hloop)|].
    cbn [exec_completedTasks exec_failedTasks].
    split; intros Hin; apply (Hall t); try done; apply elem_of_app; auto.
  - eexists _, _. split; [by apply executePlan_throw|]. simpl.
    split; apply not_elem_of_nil.
Qed.

(** ** The planning engine *)

Section PlanningFacts.
Context `{Oracles}.

Lemma insert_tasks_fresh planId taskDatas :
  ∀ created s created' s',
    insert_tasks planId taskDatas created s = (Return created', s') →
    ∃ ids,
      length ids = length taskDatas
      ∧ created' = created ++ zip_with (new_task planId) taskDatas ids
      ∧ tasks (db s') = tasks (db s) ++ zip_with (new_task planId) taskDatas ids
      ∧ NoDup ids
      ∧ (∀ k, k ∈ ids → find_row task_id k (tasks (db s)) = None)
      ∧ missions (db s') = missions (db s)
      ∧ plans (db s') = plans (db s)
      ∧ toolUsage (db s') = toolUsage (db s).
Proof.
  induction taskDatas as [|taskData rest IH]; intros created s created' s' Hrun.
  - simpl in Hrun. unfold ret in Hrun. simplify_eq. exists []. simpl. rewrite !app_nil_r.
    repeat split; try done; [constructor|]. intros k Hk. by apply elem_of_nil in Hk.
  - cbn [insert_tasks] in Hrun. unfold bind in Hrun.
    pose proof (insert_task_run (new_task planId taskData) s) as Hins.
    destruct (createId (world s)) as [k w].
    destruct (find_row task_id k (tasks (db s))) eqn:Hfresh; rewrite Hins in Hrun; [done|].
    destruct (find_row plan_id _ (plans (db s))); [|done].
    apply IH in Hrun as (ids & Hlen & -> & Ht & Hnd & Hnew & Hm & Hp & Hu).
    db_simpl. exists (k :: ids). simpl. rewrite <- app_assoc.
    split; [by rewrite Hlen|]. split; [done|].
    split; [by rewrite Ht, <- app_assoc|].
    assert (∀ k', k' ∈ ids → k' ≠ k ∧ find_row task_id k' (tasks (db s)) = None) as Hold.
    { intros k' Hk'. specialize (Hnew k' Hk'). rewrite find_row_app in Hnew.
      destruct (find_row task_id k' (tasks (db s))); [done|]. split; [|done].
      intros ->. unfold find_row in Hnew. simpl in Hnew.
      by rewrite bool_decide_eq_true_2 in Hnew. }
    split. { constructor; [|done]. intros Hk. by destruct (Hold k Hk). }
    split; [|done]. intros k' Hk'. apply elem_of_cons in Hk' as [->|Hk']; [done|].
    by destruct (Hold k' Hk').
Qed.

Lemma zip_with_new_task_ids planId taskDatas ids :
  length ids = length taskDatas →
  task_id <$> zip_with (new_task planId) taskDatas ids = ids.
Proof.
  revert ids. induction taskDatas as [|taskData rest IH]; intros [|k ids] Hlen; try done.
  simpl in *. f_equal. apply IH. lia.
Qed.

Lemma createPlan_run mission context s :
  match generatePlan (ForMission mission) (world s) with
  | (Throw error, w) => createPlan mission context s = (Throw error, {| db := db s; world := w |})
  | (Return planData, w) =>
      let '(k, w') := createId w in
      let row := {| plan_id := k; plan_missionId := mission_id mission; plan_version := 1;
                    plan_title := data_plan_title planData;
                    plan_description := data_plan_description planData;
                    plan_status := PlanDraft;
                    plan_estimatedDuration := data_plan_estimatedDuration planData |} in
      match find_row plan_id k (plans (db s)) with
      | Some _ => createPlan mission context s
                  = (Throw "UNIQUE constraint failed: plans.id"%string,
                     {| db := db s; world := w' |})
      | None =>
          match find_row mission_id (mission_id mission) (missions (db s)) with
          | None => createPlan mission context s
                    = (Throw "FOREIGN KEY constraint failed"%string,
                       {| db := db s; world := w' |})
          | Some _ =>
              let s1 := {| db := with_plans (λ rows, rows ++ [row]) (db s);
                           world := w' |} in
              match data_plan_tasks planData with
              | None => createPlan mission context s
                        = (Throw "planData.tasks is not iterable"%string, s1)
              | Some taskDatas =>
                  createPlan mission context s
                  = match insert_tasks k taskDatas [] s1 with
                    | (Return created, s2) =>
                        (Return {| planning_plan :=
                                     {| plan_row := row; plan_tasks := created |};
                                   planning_reasoning := data_plan_reasoning planData;
                                   planning_confidence := data_plan_confidence planData |},
                         s2)
                    | (Throw error, s2) => (Throw error, s2)
                    end
              end
          end
      end
  end.
Proof.
  destruct (generatePlan (ForMission mission) (world s)) as [[planData|e] w] eqn:Hgen;
    [|unfold createPlan; unfold bind at 1; unfold ask_exc; by rewrite Hgen].
  match goal with |- context [find_row plan_id _ _] =>
    pose proof (insert_plan_run
      (λ k, {| plan_id := k; plan_missionId := mission_id mission; plan_version := 1;
               plan_title := data_plan_title planData;
               plan_description := data_plan_description planData;
               plan_status := PlanDraft;
               plan_estimatedDuration := data_plan_estimatedDuration planData |})
      {| db := db s; world := w |}) as Hins
  end.
  simpl in Hins. destruct (createId w) as [k w']. cbv zeta.
  assert (∀ rest : PlanData → PlanRow → M PlanningResult,
            (planData <- ask_exc (generatePlan (ForMission mission)) ;;
             newPlan <- insert_plan (λ k,
               {| plan_id := k; plan_missionId := mission_id mission; plan_version := 1;
                  plan_title := data_plan_title planData;
                  plan_description := data_plan_description planData;
                  plan_status := PlanDraft;
                  plan_estimatedDuration := data_plan_estimatedDuration planData |}) ;;
             rest planData newPlan) s
            = match insert_plan (λ k,
               {| plan_id := k; plan_missionId := mission_id mission; plan_version := 1;
                  plan_title := data_plan_title planData;
                  plan_description := data_plan_description planData;
                  plan_status := PlanDraft;
                  plan_estimatedDuration := data_plan_estimatedDuration planData |})
                {| db := db s; world := w |} with
              | (Return newPlan, s1) => rest planData newPlan s1
              | (Throw e, s1) => (Throw e, s1)
              end) as Hstart.
  { intros rest. unfold bind at 1. unfold ask_exc. rewrite Hgen. by unfold bind at 1. }
  unfold createPlan. rewrite Hstart, Hins. clear Hstart Hins.
  destruct (find_row plan_id k (plans (db s))); [done|].
  destruct (find_row mission_id (mission_id mission) (missions (db s))); [|done].
  unfold iterate_tasks.
  destruct (data_plan_tasks planData) as [taskDatas|]; [|done].
  unfold bind at 1. unfold ret at 1. unfold bind at 1. cbn [plan_id].
  by destruct (insert_tasks _ _ _ _) as [[created|e] s2].
Qed.

End PlanningFacts.

Lemma createPlan_success `{Oracles} (mission : Mission)
    (context : ExecutionContext) (s s' : State) (result : PlanningResult) :
  createPlan mission context s = (Return result, s') →
  let plan := planning_plan result in
  ∃ planData w taskDatas ids,
    generatePlan (ForMission mission) (world s) = (Return planData, w)
    ∧ data_plan_tasks planData = Some taskDatas
    ∧ length ids = length taskDatas
    ∧ plan_tasks plan = zip_with (new_task (plan_id plan)) taskDatas ids
    ∧ distinct_ids (plan_tasks plan)
    ∧ (∀ t, t ∈ plan_tasks plan → find_row task_id (task_id t) (tasks (db s)) = None)
    ∧ find_row plan_id (plan_id plan) (plans (db s)) = None
    ∧ plan_missionId plan = mission_id mission
    ∧ plan_version plan = 1 ∧ plan_status plan = PlanDraft
    ∧ plans (db s') = plans (db s) ++ [plan_row plan]
    ∧ tasks (db s') = tasks (db s) ++ plan_tasks plan
    ∧ missions (db s') = missions (db s)
    ∧ toolUsage (db s') = toolUsage (db s).
Proof.
  intros Hrun. pose proof (createPlan_run mission context s) as Hshape.
  destruct (generatePlan (ForMission mission) (world s)) as [[planData|e] w];
    [|by rewrite Hshape in Hrun].
  destruct (createId w) as [k w']. cbv zeta in Hshape.
  destruct (find_row plan_id k (plans (db s))) eqn:Hfresh; [by rewrite Hshape in Hrun|].
  destruct (find_row mission_id (mission_id mission) (missions (db s)));
    [|by rewrite Hshape in Hrun].
  destruct (data_plan_tasks planData) as [taskDatas|] eqn:Hdata; [|by rewrite Hshape in Hrun].
  rewrite Hshape in Hrun.
  destruct (insert_tasks _ _ _ _) as [[created|e] s2] eqn:Hins; [|done].
  apply insert_tasks_fresh in Hins as (ids & Hlen & -> & Ht & Hnd & Hnew & Hm & Hp & Hu).
  simplify_eq. cbn [planning_plan plan_tasks plan_row plan_id plan_missionId plan_version
                    plan_status app]. db_simpl.
  exists planData, w, taskDatas, ids. unfold distinct_ids.
  rewrite zip_with_new_task_ids by done.
  repeat split; try done.
  intros t Ht'. apply Hnew. rewrite <- (zip_with_new_task_ids k taskDatas ids Hlen).
  by apply list_elem_of_fmap_2.
Qed.

(** X11.  What a successful [createPlan] leaves behind: one new plan row,
    under a key no plan had, for the mission, in version 1 and [draft]; one
    new task row for each entry of the planner's task list, in the order of
    the list, [pending], filed under the new plan and under keys that are
    distinct and that no task row had; the returned plan is that row with
    those tasks.  Missions and usage records are as before. *)
Theorem createPlan_files_fresh_rows `{Oracles} (mission : Mission)
    (context : ExecutionContext) (s s' : State) (result : PlanningResult) :
  createPlan mission context s = (Return result, s') →
  let plan := planning_plan result in
  ∃ planData w taskDatas ids,
    generatePlan (ForMission mission) (world s) = (Return planData, w)
    ∧ data_plan_tasks planData = Some taskDatas
    ∧ length ids = length taskDatas
    ∧ plan_tasks plan = zip_with (new_task (plan_id plan)) taskDatas ids
    ∧ distinct_ids (plan_tasks plan)
    ∧ (∀ t, t ∈ plan_tasks plan → find_row task_id (task_id t) (tasks (db s)) = None)
    ∧ find_row plan_id (plan_id plan) (plans (db s)) = None
    ∧ plan_missionId plan = mission_id mission
    ∧ plan_version plan = 1 ∧ plan_status plan = PlanDraft
    ∧ plans (db s') = plans (db s) ++ [plan_row plan]
    ∧ tasks (db s') = tasks (db s) ++ plan_tasks plan
    ∧ missions (db s') = missions (db s)
    ∧ toolUsage (db s') = toolUsage (db s).
Proof. apply createPlan_success. Qed.


(** ** The goal-oriented engine *)

Section ProgressFacts.
Context `{Oracles}.

Lemma count_completed_le rows : (count_completed rows ≤ length rows)%nat.
Proof.
  unfold count_completed. induction rows as [|r rows IH]; simpl; [done|].
  destruct (bool_decide _); simpl; lia.
Qed.

Lemma count_completed_all rows :
  count_completed rows = length rows ↔ Forall (λ t, task_status t = TaskCompleted) rows.
Proof.
  induction rows as [|r rows IH]; [by split; [constructor|]|].
  pose proof (count_completed_le rows) as Hle. unfold count_completed in *. simpl.
  case_bool_decide as Hr; simpl; rewrite Forall_cons.
  - split; [intros [= Hlen]; split; [done|by apply IH]|intros [_ Hall]; f_equal; by apply IH].
  - split; [lia|intros [? _]; done].
Qed.

Lemma count_completed_none rows :
  count_completed rows = O ↔ ∀ t, t ∈ rows → task_status t ≠ TaskCompleted.
Proof.
  unfold count_completed. induction rows as [|r rows IH]; simpl.
  { split; [|done]. intros _ t Ht. by apply elem_of_nil in Ht. }
  case_bool_decide as Hr; simpl.
  - split; [done|]. intros Hall. exfalso. apply (Hall r); [left|done].
  - rewrite IH. split.
    + intros Hall t Ht. apply elem_of_cons in Ht as [->|Ht]; [done|by apply Hall].
    + intros Hall t Ht. apply Hall. by right.
Qed.

Lemma ratio_den (n d : nat) : d ≠ O → Z.pos (Qden (ratio n d)) = Z.of_nat d.
Proof.
  intros Hd. unfold ratio. simpl. rewrite <- positive_nat_Z, Nat2Pos.id by done. done.
Qed.

Lemma trackProgress_run mission context s :
  trackProgress mission context s
  = (Return (match measured_tasks (db s) mission with
             | [] => Qmin 0 1
             | rows => Qmin (ratio (count_completed rows) (length rows)) 1
             end), s)
  ∨ (measured_tasks (db s) mission = [] ∧ trackProgress mission context s = (Return 0%Q, s)).
Proof.
  unfold trackProgress, measured_tasks. run.
  destruct (List.filter _ (plans (db s))) as [|first rest]; [by right|].
  left. by destruct (List.filter _ (tasks (db s))).
Qed.

Lemma progress_of_rows (rows : list Task) :
  rows ≠ [] →
  let r := ratio (count_completed rows) (length rows) in
  (Qmin r 1 == r)%Q ∧ (0 <= r)%Q ∧ (r <= 1)%Q
  ∧ ((r == 1)%Q ↔ count_completed rows = length rows)
  ∧ ((r == 0)%Q ↔ count_completed rows = O)
  ∧ ((1 # 2 <= r)%Q ↔ (length rows ≤ 2 * count_completed rows)%nat).
Proof.
  intros Hrows. cbv zeta.
  assert (length rows ≠ O) as Hlen by (by destruct rows).
  pose proof (count_completed_le rows) as Hle.
  pose proof (ratio_den (count_completed rows) (length rows) Hlen) as Hden.
  assert (ratio (count_completed rows) (length rows) <= 1)%Q as Hone.
  { unfold Qle. rewrite Hden. simpl. lia. }
  split; [by apply Q.min_l|].
  split; [unfold Qle; simpl; lia|]. split; [done|].
  split; [unfold Qeq; rewrite Hden; simpl; lia|].
  split; [unfold Qeq; simpl; lia|].
  unfold Qle. rewrite Hden. simpl. lia.
Qed.

End ProgressFacts.

(** X13.  [trackProgress] reads the store and changes nothing.  Its answer
    lies between 0 and 1 and is measured on the tasks of the first plan of
    the mission only: it is 1 exactly when that plan has task rows and all
    of them are [completed], and 0 exactly when none of them is - in
    particular for a mission without plan or a plan without tasks. *)
Theorem trackProgress_measures_first_plan `{Oracles} (mission : Mission)
    (context : ExecutionContext) (s : State) :
  ∃ progress,
    trackProgress mission context s = (Return progress, s)
    ∧ (0 <= progress)%Q ∧ (progress <= 1)%Q
    ∧ ((progress == 1)%Q
       ↔ measured_tasks (db s) mission ≠ []
         ∧ Forall (λ t, task_status t = TaskCompleted) (measured_tasks (db s) mission))
    ∧ ((progress == 0)%Q
       ↔ ∀ t, t ∈ measured_tasks (db s) mission → task_status t ≠ TaskCompleted).
Proof.
  destruct (trackProgress_run mission context s) as [Hrun|[Hnil Hrun]].
  - eexists. split; [exact Hrun|].
    destruct (measured_tasks (db s) mission) as [|r rows] eqn:Hrows.
    + split; [done|]. split; [done|]. split.
      * split; [done|]. by intros [? _].
      * split; [|done]. intros _ t Ht. by apply elem_of_nil in Ht.
    + destruct (progress_of_rows (r :: rows)) as (Hmin & H0 & H1 & Hall & Hnone & _); [done|].
      rewrite Hmin. split; [done|]. split; [done|]. split.
      * rewrite Hall, count_completed_all. split; [done|by intros [_ ?]].
      * by rewrite Hnone, count_completed_none.
  - eexists. split; [exact Hrun|]. rewrite Hnil.
    split; [done|]. split; [done|]. split.
    + split; [done|]. by intros [? _].
    + split; [|done]. intros _ t Ht. by apply elem_of_nil in Ht.
Qed.

(** X14.  [adjustStrategy] leaves everything as it is when at least half of
    the tasks of the mission's first plan are [completed]: it returns the
    plan it was given, the planner is not consulted and no row changes. *)
Theorem adjustStrategy_keeps_plan_on_track `{Oracles} (mission : Mission) (plan : Plan)
    (context : ExecutionContext) (s : State) :
  measured_tasks (db s) mission ≠ [] →
  (length (measured_tasks (db s) mission)
   ≤ 2 * count_completed (measured_tasks (db s) mission))%nat →
  adjustStrategy mission plan context s = (Return plan, s).
Proof.
  intros Hrows Hhalf.
  destruct (progress_of_rows _ Hrows) as (Hmin & _ & _ & _ & _ & Hle).
  apply Hle in Hhalf. rewrite <- Hmin in Hhalf. apply Qle_bool_iff in Hhalf.
  destruct (trackProgress_run mission context s) as [Hrun|[Hnil _]]; [|done].
  destruct (measured_tasks (db s) mission) as [|r rows]; [done|].
  unfold adjustStrategy. unfold try_catch. unfold bind at 1. rewrite Hrun.
  cbv beta iota zeta. rewrite Hhalf. done.
Qed.

(** ** The mission route *)

Section RouteFacts.
Context `{Oracles}.

Lemma update_rows_absent {R} (key : R → string) k (f : R → R) (rows : list R) :
  find_row key k rows = None → update_rows key k f rows = rows.
Proof.
  unfold find_row, update_rows. induction rows as [|r rows IH]; simpl; [done|].
  destruct (bool_decide (key r = k)); [done|]. intros Hnone. by rewrite IH.
Qed.



End RouteFacts.


(** ** A mission run and the rows that were there before *)

Section MissionFrame.
Context `{Oracles}.

Lemma update_rows_app {R} (key : R → string) k (f : R → R) (old cur : list R) :
  find_row key k old = None →
  update_rows key k f (old ++ cur) = old ++ update_rows key k f cur.
Proof.
  intros Habsent. rewrite <- (update_rows_absent key k f old Habsent) at 2.
  unfold update_rows. apply map_app.
Qed.

Lemma createPlan_adds mission context s :
  ∃ newPlans newTasks,
    plans (db (createPlan mission context s).2) = plans (db s) ++ newPlans
    ∧ tasks (db (createPlan mission context s).2) = tasks (db s) ++ newTasks
    ∧ toolUsage (db (createPlan mission context s).2) = toolUsage (db s)
    ∧ (length newPlans ≤ 1)%nat
    ∧ Forall (λ p, plan_missionId p = mission_id mission) newPlans
    ∧ Forall (λ t, ∃ p, p ∈ newPlans ∧ task_planId t = plan_id p) newTasks.
Proof.
  pose proof (createPlan_run mission context s) as Hshape.
  destruct (generatePlan (ForMission mission) (world s)) as [[planData|e] w].
  2: { rewrite Hshape. exists [], []. simpl. rewrite !app_nil_r.
       repeat split; first [done|simpl; lia|constructor]. }
  destruct (createId w) as [k w']. cbv zeta in Hshape.
  destruct (find_row plan_id k (plans (db s))).
  { rewrite Hshape. exists [], []. simpl. rewrite !app_nil_r.
    repeat split; first [done|simpl; lia|constructor]. }
  destruct (find_row mission_id (mission_id mission) (missions (db s))).
  2: { rewrite Hshape. exists [], []. simpl. rewrite !app_nil_r.
       repeat split; first [done|simpl; lia|constructor]. }
  destruct (data_plan_tasks planData) as [taskDatas|]; rewrite Hshape.
  - match goal with |- context [insert_tasks ?p ?ds ?c ?st] =>
      destruct (insert_tasks_run p ds c st) as (news & _ & Hp & Hu & Ht & Hall & _);
      destruct (insert_tasks p ds c st) as [[created|e] s2]
    end; simpl in *; eexists [_], news; rewrite Hp, Ht, Hu; db_simpl;
      (split; [done|]); (split; [done|]); (split; [done|]); (split; [done|]);
      (split; [by repeat constructor|]);
      (eapply Forall_impl; [exact Hall|]); intros t Ht'; eexists; (split; [left|done]).
  - eexists [_], []. db_simpl. rewrite app_nil_r. repeat split; try done.
    by repeat constructor.
Qed.

Lemma executePlan_loop_old_rows registry plan context (old : list Task) l :
  ∀ cs fs s cur,
    tasks (db s) = old ++ cur →
    (∀ t, t ∈ l → find_row task_id (task_id t) old = None) →
    ∃ cs' fs' s' cur' new,
      executePlan_loop registry plan context l (cs, fs) s = (Return (cs', fs'), s')
      ∧ tasks (db s') = old ++ cur'
      ∧ (task_planId <$> cur') = (task_planId <$> cur)
      ∧ toolUsage (db s') = toolUsage (db s) ++ new
      ∧ plans (db s') = plans (db s)
      ∧ missions (db s') = missions (db s).
Proof.
  induction l as [|t l IH]; intros cs fs s cur Htasks Hfresh.
  { exists cs, fs, s, cur, []. by rewrite app_nil_r. }
  rewrite executePlan_loop_cons.
  assert (∀ u, u ∈ l → find_row task_id (task_id u) old = None) as Hfresh'
    by (intros u Hu; apply Hfresh; by right).
  destruct (executePlan_step_run registry plan context cs fs t s)
    as [[_ ->]|(_ & st & recs & s1 & Hrun & Hstep)].
  { by apply IH. }
  destruct Hrun as (Hm & Hp & (t0 & t1 & res & Ht) & Hu & _).
  rewrite Htasks, update_rows_app in Ht by (apply Hfresh; left).
  assert (∀ arrays, ∃ cs' fs' s' cur' new,
            executePlan_loop registry plan context l arrays s1 = (Return (cs', fs'), s')
            ∧ tasks (db s') = old ++ cur'
            ∧ (task_planId <$> cur') = (task_planId <$> cur)
            ∧ toolUsage (db s') = toolUsage (db s) ++ new
            ∧ plans (db s') = plans (db s)
            ∧ missions (db s') = missions (db s)) as Hrest.
  { intros [cs1 fs1].
    destruct (IH cs1 fs1 s1 _ Ht Hfresh')
      as (cs' & fs' & s' & cur' & new & Hloop & Ht' & Hplan & Hu' & Hp' & Hm').
    exists cs', fs', s', cur', (recs ++ new). split; [done|]. split; [done|].
    split; [by rewrite Hplan, update_rows_preserves|].
    split; [by rewrite Hu', Hu, app_assoc|]. split; congruence. }
  destruct Hstep as [[_ ->]|[_ ->]]; apply Hrest.
Qed.

Lemma sorted_tasks_of_plan (tasks sortedTasks : list Task) :
  Sorter.sortTasksByPriorityAndDependencies tasks = Return sortedTasks →
  ∀ t, t ∈ sortedTasks → t ∈ tasks.
Proof.
  unfold Sorter.sortTasksByPriorityAndDependencies, Sorter.sort_with_fuel.
  destruct (Sorter.visit_all _ _ _ _) as [[st|m]|] eqn:Hrun; [|done..].
  intros [= <-].
  apply visit_all_marks in Hrun as (Hinv & _ & _);
    [|intros t Ht; by rewrite <- (prioritySorted_perm tasks)|apply marks_inv_initial].
  apply (marks_sub _ _ Hinv).
Qed.

Lemma executePlan_old_rows registry (plan : Plan) context s (oldPlans : list PlanRow)
    (old cur : list Task) row :
  tasks (db s) = old ++ cur →
  plans (db s) = oldPlans ++ [row] →
  find_row plan_id (plan_id plan) oldPlans = None →
  (∀ t, t ∈ plan_tasks plan → find_row task_id (task_id t) old = None) →
  ∃ result s' cur' new row',
    executePlan registry plan context s = (Return result, s')
    ∧ tasks (db s') = old ++ cur'
    ∧ (task_planId <$> cur') = (task_planId <$> cur)
    ∧ toolUsage (db s') = toolUsage (db s) ++ new
    ∧ plans (db s') = oldPlans ++ [row']
    ∧ plan_missionId row' = plan_missionId row
    ∧ plan_id row' = plan_id row
    ∧ missions (db s') = missions (db s).
Proof.
  intros Htasks Hplans Hplan Hfresh.
  assert (∀ st1 st2 s1,
            plans (db s1) = plans (db (with_plan_status plan st1 s)) →
            ∃ row', plans (db (with_plan_status plan st2 s1)) = oldPlans ++ [row']
                    ∧ plan_missionId row' = plan_missionId row
                    ∧ plan_id row' = plan_id row) as Hrow.
  { intros st1 st2 s1 Hsame. unfold with_plan_status in *. db_simpl.
    rewrite Hsame, Hplans, !update_rows_app by done. unfold update_rows. simpl.
    eexists. split; [reflexivity|]. by repeat case_bool_decide. }
  destruct (Sorter.sortTasksByPriorityAndDependencies (plan_tasks plan))
    as [sortedTasks|m] eqn:Hsort.
  - destruct (executePlan_loop_old_rows registry plan context old sortedTasks [] []
                (with_plan_status plan PlanActive s) cur Htasks)
      as (cs & fs & s1 & cur' & new & Hloop & Ht & Hids & Hu & Hp & Hm).
    { intros t Ht. apply Hfresh. by eapply sorted_tasks_of_plan. }
    destruct (Hrow PlanActive (if bool_decide (fs = []) then PlanCompleted else PlanFailed)
                s1 Hp) as (row' & Hrow' & Hmid & Hid).
    eexists _, _, cur', new, row'.
    split; [by apply (executePlan_return _ _ _ _ _ _ _ _ Hsort Hloop)|].
    split; [done|]. split; [done|]. split; [done|]. split; [done|]. done.
  - destruct (Hrow PlanActive PlanFailed (with_plan_status plan PlanActive s) eq_refl)
      as (row' & Hrow' & Hmid & Hid).
    eexists _, _, cur, [], row'. split; [by apply executePlan_throw|].
    rewrite app_nil_r. split; [done|]. split; [done|]. split; [done|]. split; [done|]. done.
Qed.

End MissionFrame.

(** X16.  A mission run only adds rows to the plan, task and usage tables:
    the rows that were there before it - the plans and tasks of other
    missions, and those of earlier runs of the same mission - come out
    exactly as they were.  It adds at most one plan, which belongs to the
    mission, and all tasks it adds belong to that plan; the other missions
    are not touched. *)
Theorem executeMission_leaves_earlier_rows `{Oracles} (registry : ToolRegistry)
    (mission : Mission) (s : State) :
  ∃ result s' newPlans newTasks newUsage,
    executeMission (ServiceManagementAgentImpl registry) mission s = (Return result, s')
    ∧ plans (db s') = plans (db s) ++ newPlans
    ∧ tasks (db s') = tasks (db s) ++ newTasks
    ∧ toolUsage (db s') = toolUsage (db s) ++ newUsage
    ∧ (length newPlans ≤ 1)%nat
    ∧ Forall (λ p, plan_missionId p = mission_id mission) newPlans
    ∧ Forall (λ t, ∃ p, p ∈ newPlans ∧ task_planId t = plan_id p) newTasks
    ∧ (∀ k, k ≠ mission_id mission →
            find_row mission_id k (missions (db s')) = find_row mission_id k (missions (db s))).
Proof.
  rewrite executeMission_run. unfold mission_lifecycle.
  cbn [ServiceManagementAgentImpl planning_createPlan autonomous_executePlan
       goalOriented_validateCompletion].
  set (s1 := with_mission_status (mission_id mission) MissionPlanning None s).
  assert (∀ st stamp s0 k, k ≠ mission_id mission →
            find_row mission_id k
              (missions (db (with_mission_status (mission_id mission) st stamp s0)))
            = find_row mission_id k (missions (db s0))) as Hother.
  { intros st stamp s0 k Hk. unfold with_mission_status. db_simpl.
    by apply find_row_update_ne. }
  destruct (createPlan mission (initial_context mission) s1)
    as [[planningResult|e] s2] eqn:Hcreate.
  2: { destruct (createPlan_adds mission (initial_context mission) s1)
         as (newPlans & newTasks & Hp & Ht & Hu & Hlen & Hmission & Hplan).
       pose proof (createPlan_missions mission (initial_context mission) s1) as Hm.
       rewrite Hcreate in Hp, Ht, Hu, Hm. simpl in Hp, Ht, Hu, Hm.
       eexists _, _, newPlans, newTasks, []. split; [reflexivity|].
       rewrite app_nil_r. split; [done|]. split; [done|]. split; [done|].
       split; [done|]. split; [done|]. split; [done|].
       intros k Hk. rewrite Hother by done. rewrite Hm. by apply (Hother _ _ s). }
  pose proof (createPlan_success _ _ _ _ _ Hcreate) as Hnew. cbv zeta in Hnew.
  destruct Hnew as (planData & w & taskDatas & ids & _ & _ & Hlen & Hzip & Hdistinct & Hfresh
                    & Hplanfresh & Hmid & _ & _ & Hp & Ht & Hm & Hu).
  set (plan := planning_plan planningResult) in *.
  set (s3 := with_mission_status (mission_id mission) MissionExecuting None s2).
  destruct (executePlan_old_rows registry plan (plan_context mission plan) s3
              (plans (db s)) (tasks (db s)) (plan_tasks plan) (plan_row plan))
    as (executionResult & s4 & cur' & new & row' & Hrun & Ht4 & Hids & Hu4 & Hp4 & Hmid4
        & Hid4 & Hm4); [done|done|done|done|].
  rewrite Hrun.
  destruct (validateCompletion_pure mission executionResult (plan_context mission plan) s4)
    as (answer & w5 & Hjudge).
  rewrite Hjudge.
  assert (Forall (λ t, ∃ p, p ∈ [row'] ∧ task_planId t = plan_id p) cur') as Hfiled.
  { apply Forall_forall. intros t Hin. exists row'. split; [left|].
    apply (list_elem_of_fmap_2 task_planId) in Hin. rewrite Hids, Hzip in Hin.
    apply list_elem_of_fmap in Hin as (u & -> & Hu').
    apply list_elem_of_lookup in Hu' as (i & Hi).
    apply lookup_zip_with_Some in Hi as (td & k & -> & _). by rewrite Hid4. }
  assert (∀ k, k ≠ mission_id mission →
            find_row mission_id k (missions (db s4)) = find_row mission_id k (missions (db s)))
    as Hothers.
  { intros k Hk. rewrite Hm4. unfold s3. rewrite Hother by done. rewrite Hm.
    by apply (Hother _ _ s). }
  destruct answer.
  - destruct (dateNow w5) as [now w6] eqn:Hnow. cbn [world]. rewrite Hnow.
    eexists _, _, [row'], cur', new. split; [reflexivity|].
    split; [done|]. split; [done|]. split; [transitivity (toolUsage (db s3) ++ new); [exact Hu4|f_equal; exact Hu]|]. split; [done|].
    split; [by repeat constructor; rewrite Hmid4|]. split; [done|].
    intros k Hk. rewrite Hother by done. by apply Hothers.
  - eexists _, _, [row'], cur', new. split; [reflexivity|].
    split; [done|]. split; [done|]. split; [transitivity (toolUsage (db s3) ++ new); [exact Hu4|f_equal; exact Hu]|]. split; [done|].
    split; [by repeat constructor; rewrite Hmid4|]. split; [done|].
    intros k Hk. rewrite Hother by done. by apply Hothers.
Qed.

(** ** The tools *)

Section ToolFacts.
Context `{Oracles}.

Lemma registry_get_register registry tool name :
  registry_get (registry_register registry tool) name
  = if bool_decide (name = tool_name tool) then Some tool else registry_get registry name.
Proof.
  unfold registry_get. induction registry as [|known rest IH]; simpl.
  - case_bool_decide; case_bool_decide; by simplify_eq.
  - destruct (decide (tool_name known = tool_name tool)) as [Hsame|Hdiff].
    + rewrite (bool_decide_eq_true_2 _ Hsame). simpl.
      repeat case_bool_decide; simplify_eq; congruence.
    + rewrite (bool_decide_eq_false_2 _ Hdiff). simpl. rewrite IH.
      repeat case_bool_decide; simplify_eq; congruence.
Qed.

Lemma registry_has_get registry name :
  registry_has registry name = true ↔ is_Some (registry_get registry name).
Proof.
  unfold registry_has, registry_get. induction registry as [|known rest IH]; simpl.
  - split; [done|]. by intros [? ?].
  - destruct (bool_decide (tool_name known = name)); simpl; [|done].
    split; [by eexists|done].
Qed.

Lemma registry_getNames_register registry tool :
  registry_getNames (registry_register registry tool)
  = if registry_has registry (tool_name tool) then registry_getNames registry
    else (registry_getNames registry ++ [tool_name tool])%list.
Proof.
  unfold registry_getNames, registry_has. induction registry as [|known rest IH]; simpl; [done|].
  destruct (decide (tool_name known = tool_name tool)) as [Hsame|Hdiff].
  - rewrite (bool_decide_eq_true_2 _ Hsame). simpl. by rewrite Hsame.
  - rewrite (bool_decide_eq_false_2 _ Hdiff). simpl. rewrite IH.
    by destruct (existsb _ rest).
Qed.

Lemma registry_has_names registry name :
  registry_has registry name = true ↔ name ∈ registry_getNames registry.
Proof.
  unfold registry_has, registry_getNames. induction registry as [|known rest IH]; simpl.
  - split; [done|]. intros Hin. by apply elem_of_nil in Hin.
  - rewrite elem_of_cons, <- IH. case_bool_decide; simpl; naive_solver.
Qed.

Lemma property_of_object fields param :
  property_of (JObj fields) param
  = match get_property (JObj fields) param with
    | Some value => Return (Own value)
    | None => if bool_decide (param ∈ object_prototype_names) then Return Inherited
              else Return Absent
    end.
Proof. done. Qed.

Lemma validateParams_step fields param rest :
  validateParams (JObj fields) (param :: rest)
  = match get_property (JObj fields) param with
    | Some JNull => Throw ("Missing required parameter: " +:+ param)%string
    | Some _ => validateParams (JObj fields) rest
    | None => if bool_decide (param ∈ object_prototype_names)
              then validateParams (JObj fields) rest
              else Throw ("Missing required parameter: " +:+ param)%string
    end.
Proof.
  cbn [validateParams]. rewrite property_of_object.
  destruct (get_property (JObj fields) param) as [[]|]; try done.
  by destruct (bool_decide _).
Qed.








End ToolFacts.

(** X17.  The tool registry is a map from names to tools: registering a
    tool makes [get] return it for its name, replacing a tool of the same
    name, and changes [get] for no other name; [has] holds exactly for the
    names [get] answers and [getNames] lists; a new name is listed last, a
    known one keeps its place; and the names stay free of duplicates. *)
Theorem registry_register_then_get `{Oracles} (registry : ToolRegistry) (tool : Tool)
    (name : string) :
  registry_get (registry_register registry tool) name
  = (if bool_decide (name = tool_name tool) then Some tool else registry_get registry name)
  ∧ (registry_has registry name = true ↔ is_Some (registry_get registry name))
  ∧ (registry_has registry name = true ↔ name ∈ registry_getNames registry)
  ∧ registry_getNames (registry_register registry tool)
    = (if registry_has registry (tool_name tool) then registry_getNames registry
       else registry_getNames registry ++ [tool_name tool])
  ∧ (NoDup (registry_getNames registry)
     → NoDup (registry_getNames (registry_register registry tool))).
Proof.
  split; [apply registry_get_register|]. split; [apply registry_has_get|].
  split; [apply registry_has_names|]. split; [apply registry_getNames_register|].
  intros Hnd. rewrite registry_getNames_register.
  destruct (registry_has registry (tool_name tool)) eqn:Hhas; [done|].
  apply NoDup_app. split; [done|]. split; [|apply NoDup_singleton].
  intros k Hk Hin. apply list_elem_of_singleton in Hin as ->.
  apply registry_has_names in Hk. congruence.
Qed.


Section RetryFacts.
Context `{Oracles} {T : Type}.
Variable setTimeout : Z → World → World.
Variable operation : World → Exc T * World.
Variable calls : World → nat.
Variable waited : World → Z.
Hypothesis operation_counted :
  ∀ w, calls (operation w).2 = S (calls w) ∧ waited (operation w).2 = waited w.
Hypothesis setTimeout_counted :
  ∀ ms w, calls (setTimeout ms w) = calls w ∧ waited (setTimeout ms w) = waited w + ms.

Lemma withRetry_loop_counts maxRetries delay remaining :
  ∀ attempt lastError w,
    1 ≤ attempt → attempt + Z.of_nat remaining = maxRetries + 1 →
    let run := withRetry_loop setTimeout operation maxRetries delay remaining attempt
                 lastError w in
    ∃ j : nat,
      calls run.2 = (calls w + j)%nat
      ∧ (j ≤ remaining)%nat
      ∧ (remaining ≠ O → 1 ≤ j)%nat
      ∧ (∀ e, run.1 = Throw e → j = remaining)
      ∧ waited run.2 = waited w + delay * 2 ^ (attempt - 1) * (2 ^ Z.of_nat (j - 1) - 1).
Proof.
  induction remaining as [|r IH]; intros attempt lastError w Hattempt Hsum; cbn [withRetry_loop].
  { exists O. simpl. repeat split; try done; lia. }
  destruct (operation_counted w) as [Hcalls Hwaited].
  destruct (operation w) as [[value|error] w1]; simpl in Hcalls, Hwaited.
  { exists 1%nat. simpl. repeat split; try done; lia. }
  case_bool_decide as Hlast.
  { exists 1%nat. simpl. repeat split; try done; lia. }
  destruct (setTimeout_counted (delay * 2 ^ (attempt - 1)) w1) as [Hcalls' Hwaited'].
  destruct (IH (attempt + 1) (Some error) (setTimeout (delay * 2 ^ (attempt - 1)) w1))
    as (j & Hj & Hle & Hpos & Hthrow & Hwait); [lia|lia|].
  assert (1 ≤ j)%nat as Hone by (apply Hpos; lia).
  exists (S j). cbv zeta in *. split; [lia|]. split; [lia|]. split; [lia|].
  split; [intros e He; by rewrite (Hthrow e He)|].
  rewrite Hwait, Hwaited', Hwaited.
  replace (attempt + 1 - 1) with (Z.succ (attempt - 1)) by lia.
  replace (Z.of_nat (S j - 1)) with (Z.succ (Z.of_nat (j - 1))) by lia.
  rewrite !Z.pow_succ_r by lia. ring.
Qed.

End RetryFacts.

(** X19.  [withRetry] under a count of the calls of the operation and a
    sum of the waits: the operation is called at most [maxRetries] times, at
    least once when [maxRetries] is at least 1, and exactly [maxRetries]
    times when [withRetry] throws; between two calls the wait doubles, so
    that after [n] calls [delay * (2^(n-1) - 1)] has been waited, and nothing
    is waited after the last call.  For [maxRetries] below 1 the operation
    is not called and the throw is that of the unassigned [lastError]. *)
Theorem withRetry_backs_off `{Oracles} {T : Type} (setTimeout : Z → World → World)
    (operation : World → Exc T * World) (calls : World → nat) (waited : World → Z)
    (maxRetries delay : Z) (w : World) :
  (∀ w, calls (operation w).2 = S (calls w) ∧ waited (operation w).2 = waited w) →
  (∀ ms w, calls (setTimeout ms w) = calls w ∧ waited (setTimeout ms w) = waited w + ms) →
  let run := withRetry setTimeout operation maxRetries delay w in
  ∃ attempts : nat,
    calls run.2 = (calls w + attempts)%nat
    ∧ (attempts ≤ Z.to_nat maxRetries)%nat
    ∧ (1 ≤ maxRetries → (1 ≤ attempts)%nat)
    ∧ (∀ e, run.1 = Throw e → attempts = Z.to_nat maxRetries)
    ∧ waited run.2 = waited w + delay * (2 ^ Z.of_nat (attempts - 1) - 1)
    ∧ (maxRetries < 1 → run = (Throw "undefined"%string, w)).
Proof.
  intros Hop Hwait run. subst run. unfold withRetry.
  destruct (decide (maxRetries < 1)) as [Hnone|Hsome].
  - replace (Z.to_nat maxRetries) with O by lia. simpl.
    exists O. simpl. repeat split; try done; lia.
  - destruct (withRetry_loop_counts setTimeout operation calls waited Hop Hwait
                maxRetries delay (Z.to_nat maxRetries) 1 None w)
      as (j & Hj & Hle & Hpos & Hthrow & Hwaited); [lia|lia|].
    exists j. cbv zeta in *. split; [done|]. split; [done|].
    split; [intros _; apply Hpos; lia|]. split; [done|].
    split; [|lia]. rewrite Hwaited. replace (1 - 1) with 0 by lia. simpl. ring.
Qed.

(** ** The Confluence tools and the task executor *)

Section ConfluenceFacts.
Context `{Oracles}.

Lemma confluence_execute_run required work params w :
  ∃ result w',
    confluence_execute required work params w = (Return result, w')
    ∧ ((result_success result = true
        ∧ validateParams params required = Return tt
        ∧ ∃ data w1, work params w = (Return data, w1)
                     ∧ result_data result = Some data ∧ result_error result = None
                     ∧ w' = (dateNow w1).2)
       ∨ (result_success result = false ∧ result_data result = Some JNull
          ∧ ((validateParams params required = Throw (default ""%string (result_error result))
              ∧ is_Some (result_error result) ∧ w' = (dateNow w).2)
             ∨ (validateParams params required = Return tt
                ∧ ∃ error w1, work params w = (Throw error, w1)
                              ∧ result_error result = Some error
                              ∧ w' = (dateNow w1).2)))).
Proof.
  unfold confluence_execute, createResult.
  destruct (validateParams params required) as [[]|error] eqn:Hvalid.
  - destruct (work params w) as [[data|error] w1] eqn:Hwork;
      destruct (dateNow w1) as [now w2] eqn:Hnow; eexists _, _; (split; [reflexivity|]).
    + left. simpl. repeat split; try done. exists data, w1. by rewrite Hnow.
    + right. simpl. repeat split; try done. right. split; [done|].
      exists error, w1. by rewrite Hnow.
  - destruct (dateNow w) as [now w1] eqn:Hnow. eexists _, _. split; [reflexivity|].
    right. simpl. repeat split; try done. left. done.
Qed.

End ConfluenceFacts.


Section DefaultTools.
Context `{Oracles}.




End DefaultTools.


(** ** The mission page *)

(** X22.  The mission page and the goal engine measure the same thing.
    [GET] reads the store without changing it and answers "not found"
    exactly when no mission has the id; otherwise it returns the first
    mission row of that id, the plan rows of the mission in the order of the
    table and the tasks of the first of these plans only, and the percentage
    the dashboard computes from them is 100 times the progress
    [trackProgress] reports for the mission. *)
Theorem dashboard_progress_is_trackProgress `{Oracles} (mission : Mission)
    (context : ExecutionContext) (s : State) :
  ∃ details progress,
    GET (mission_id mission) s = (Return details, s)
    ∧ trackProgress mission context s = (Return progress, s)
    ∧ (details = None ↔ find_row mission_id (mission_id mission) (missions (db s)) = None)
    ∧ (∀ fetched, details = Some fetched →
         Some (details_mission fetched)
         = find_row mission_id (mission_id mission) (missions (db s))
         ∧ details_plans fetched
           = List.filter (λ p, bool_decide (plan_missionId p = mission_id mission))
               (plans (db s))
         ∧ details_tasks fetched = measured_tasks (db s) mission
         ∧ (calculateProgress details == 100 * progress)%Q).
Proof.
  assert (∃ progress,
            trackProgress mission context s = (Return progress, s)
            ∧ (match measured_tasks (db s) mission with
               | [] => 0
               | _ => ratio (count_completed (measured_tasks (db s) mission))
                        (length (measured_tasks (db s) mission)) * 100
               end == 100 * progress)%Q) as (progress & Hrun & Hsame).
  { destruct (trackProgress_run mission context s) as [Hrun|[Hnil Hrun]].
    - eexists. split; [exact Hrun|].
      destruct (measured_tasks (db s) mission) as [|r rows] eqn:Hrows; [done|].
      destruct (progress_of_rows (r :: rows)) as (Hmin & _); [done|].
      cbv zeta in Hmin. rewrite Hmin. apply Qmult_comm.
    - eexists. split; [exact Hrun|]. by rewrite Hnil. }
  unfold GET, find_row. run. rewrite find_is_head_filter.
  destruct (List.filter _ (missions (db s))) as [|row others]; simpl.
  - exists None, progress. split; [done|]. split; [done|]. split; [done|]. by intros ? [=].
  - exists (Some {| details_mission := row;
                    details_plans :=
                      List.filter (λ p, bool_decide (plan_missionId p = mission_id mission))
                        (plans (db s));
                    details_tasks := measured_tasks (db s) mission |}), progress.
    split.
    { unfold measured_tasks. by destruct (List.filter _ (plans (db s))). }
    split; [done|]. split; [done|]. intros fetched [= <-]. split; [done|].
    split; [done|]. split; [done|]. unfold calculateProgress. cbn [details_tasks].
    exact Hsame.
Qed.

(** ** The Confluence route *)

Section ConfluenceRouteFacts.
Context `{Oracles}.
Variables indexPage searchIndex : Json → World → Exc Json * World.

Lemma served_status outcome : response_status (served outcome).1 = 200.
Proof. by destruct outcome as [[] ?]. Qed.

Lemma run_tool_confluence (tool : Tool) required work fields value w :
  tool_execute tool = confluence_execute [required] work →
  get_property (JObj fields) required = Some value → js_truthy (Some value) = true →
  run_tool tool (JObj fields) w = served (work (JObj fields) w).
Proof.
  intros Htool Hget Hvalue. unfold run_tool, served. rewrite Htool.
  unfold confluence_execute, createResult. rewrite validateParams_step, Hget.
  assert (match value with
          | JNull => Throw ("Missing required parameter: " +:+ required)%string
          | _ => validateParams (JObj fields) []
          end = Return ()) as -> by (by destruct value).
  destruct (work (JObj fields) w) as [[data|error] w1]; destruct (dateNow w1) as [now w2]; done.
Qed.

Lemma confluence_POST_cases parsed w :
  parsed ≠ JNull →
  let run := confluence_POST indexPage searchIndex (Some parsed) w in
  (js_truthy (get_property parsed "action") = false
   ∧ run = (respond_error 400 "Action is required", w))
  ∨ (∃ name, get_property parsed "action" = Some (JStr name)
             ∧ name ≠ "load" ∧ name ≠ "search"
             ∧ run = (respond_error 400 "Invalid action", w))
  ∨ ((∀ name, get_property parsed "action" ≠ Some (JStr name))
     ∧ run = (respond_error 400 "Invalid action", w))
  ∨ (get_property parsed "action" = Some (JStr "load")
     ∧ js_truthy (get_property parsed "url") = false
     ∧ run = (respond_error 400 "URL is required for load action", w))
  ∨ (get_property parsed "action" = Some (JStr "search")
     ∧ js_truthy (get_property parsed "query") = false
     ∧ run = (respond_error 400 "Query is required for search action", w))
  ∨ (get_property parsed "action" = Some (JStr "load")
     ∧ ∃ url, get_property parsed "url" = Some url ∧ js_truthy (Some url) = true
              ∧ run = served (indexPage (JObj [("url", url)]) w))
  ∨ (get_property parsed "action" = Some (JStr "search")
     ∧ ∃ query, get_property parsed "query" = Some query ∧ js_truthy (Some query) = true
                ∧ run = served (searchIndex
                                  (search_params query (get_property parsed "limit")) w)).
Proof.
  intros Hparsed run. subst run.
  assert (confluence_POST indexPage searchIndex (Some parsed) w
          = let action := get_property parsed "action" in
            let url := get_property parsed "url" in
            let query := get_property parsed "query" in
            let limit := get_property parsed "limit" in
            if negb (js_truthy action) then (respond_error 400 "Action is required", w)
            else
              match action with
              | Some (JStr name) =>
                  if bool_decide (name = "load") then
                    match url with
                    | Some value =>
                        if js_truthy url
                        then run_tool (ConfluenceLoaderTool indexPage)
                               (JObj [("url", value)]) w
                        else (respond_error 400 "URL is required for load action", w)
                    | None => (respond_error 400 "URL is required for load action", w)
                    end
                  else if bool_decide (name = "search") then
                    match query with
                    | Some value =>
                        if js_truthy query
                        then run_tool (ConfluenceSearchTool searchIndex)
                               (search_params value limit) w
                        else (respond_error 400 "Query is required for search action", w)
                    | None => (respond_error 400 "Query is required for search action", w)
                    end
                  else (respond_error 400 "Invalid action", w)
              | _ => (respond_error 400 "Invalid action", w)
              end) as -> by (by destruct parsed).
  cbv zeta.
  destruct (js_truthy (get_property parsed "action")) eqn:Haction; [|by left].
  cbn [negb].
  destruct (get_property parsed "action") as [value|] eqn:Hname; [|done].
  assert ((∃ name, value = JStr name) ∨ ∀ name, value ≠ JStr name) as [[name ->]|Hother]
    by (destruct value as [| | |text| |]; first [by right|by left; exists text]).
  2: { right. right. left. split; [intros name [= ->]; by apply (Hother name)|].
       destruct value as [| | |text| |]; try done. by destruct (Hother text). }
  case_bool_decide as Hload; [subst name|case_bool_decide as Hsearch; [subst name|]].
  - destruct (get_property parsed "url") as [url|] eqn:Hurl;
      [|do 3 right; left; done].
    destruct (js_truthy (Some url)) eqn:Htruthy; [|do 3 right; left; done].
    do 5 right. left. split; [done|]. exists url. split; [done|]. split; [done|].
    by apply (run_tool_confluence _ "url" indexPage [("url", url)] url).
  - destruct (get_property parsed "query") as [query|] eqn:Hquery;
      [|do 4 right; left; done].
    destruct (js_truthy (Some query)) eqn:Htruthy; [|do 4 right; left; done].
    do 6 right. split; [done|]. exists query. split; [done|]. split; [done|].
    unfold search_params.
    by apply (run_tool_confluence _ "query" searchIndex _ query).
  - right. left. exists name. done.
Qed.

End ConfluenceRouteFacts.

(** X23.  The Confluence route guards its tools.  It answers 500 exactly
    when the body is not JSON or is [null].  It answers 200 exactly for the
    action [load] with a truthy [url] and for the action [search] with a
    truthy [query]: then with the result of the loader on [{ url }] or of
    the search on [{ query, limit }] - its data on success, its error
    message on failure - and since the parameter was checked, a failure is
    that of the work itself, never a missing parameter.  In every other case
    - a missing or unknown action, a [load] without [url], a [search] without
    [query] - it answers 400, no tool runs and nothing changes. *)
Theorem confluence_route_guards_the_tools `{Oracles}
    (indexPage searchIndex : Json → World → Exc Json * World) (body : option Json)
    (w : World) :
  let run := confluence_POST indexPage searchIndex body w in
  (response_status run.1 = 500 ↔ body = None ∨ body = Some JNull)
  ∧ (response_status run.1 = 200
     ↔ ∃ parsed,
         body = Some parsed
         ∧ ((get_property parsed "action"%string = Some (JStr "load")
             ∧ js_truthy (get_property parsed "url"%string) = true)
            ∨ (get_property parsed "action"%string = Some (JStr "search")
               ∧ js_truthy (get_property parsed "query"%string) = true)))
  ∧ (response_status run.1 ≠ 200 →
       response_status run.1 ∈ [400; 500]
       ∧ run.2 = w ∧ response_success run.1 = false ∧ response_data run.1 = None)
  ∧ (∀ parsed url,
       body = Some parsed →
       get_property parsed "action"%string = Some (JStr "load") →
       get_property parsed "url"%string = Some url → js_truthy (Some url) = true →
       run = match indexPage (JObj [("url"%string, url)]) w with
             | (Return data, w1) =>
                 ({| response_status := 200; response_success := true;
                     response_data := Some data; response_error := None |},
                  (dateNow w1).2)
             | (Throw error, w1) =>
                 ({| response_status := 200; response_success := false;
                     response_data := Some JNull; response_error := Some error |},
                  (dateNow w1).2)
             end)
  ∧ (∀ parsed query,
       body = Some parsed →
       get_property parsed "action"%string = Some (JStr "search") →
       get_property parsed "query"%string = Some query → js_truthy (Some query) = true →
       run = match searchIndex
                     (search_params query (get_property parsed "limit"%string)) w with
             | (Return data, w1) =>
                 ({| response_status := 200; response_success := true;
                     response_data := Some data; response_error := None |},
                  (dateNow w1).2)
             | (Throw error, w1) =>
                 ({| response_status := 200; response_success := false;
                     response_data := Some JNull; response_error := Some error |},
                  (dateNow w1).2)
             end).
Proof.
  intros run. subst run.
  assert (∀ message,
            confluence_POST indexPage searchIndex body w = (respond_error 500 message, w) →
            body = None ∨ body = Some JNull →
            (response_status (confluence_POST indexPage searchIndex body w).1 = 500
             ↔ body = None ∨ body = Some JNull)
            ∧ (response_status (confluence_POST indexPage searchIndex body w).1 ≠ 200 →
               response_status (confluence_POST indexPage searchIndex body w).1 ∈ [400; 500]
               ∧ (confluence_POST indexPage searchIndex body w).2 = w
               ∧ response_success (confluence_POST indexPage searchIndex body w).1 = false
               ∧ response_data (confluence_POST indexPage searchIndex body w).1 = None))
    as Hbroken.
  { intros message -> Hbody. simpl. split; [done|]. intros _. split; [set_solver|done]. }
  assert (∀ parsed message,
            body = Some parsed → parsed ≠ JNull →
            confluence_POST indexPage searchIndex body w = (respond_error 400 message, w) →
            (response_status (confluence_POST indexPage searchIndex body w).1 = 500
             ↔ body = None ∨ body = Some JNull)
            ∧ (response_status (confluence_POST indexPage searchIndex body w).1 ≠ 200 →
               response_status (confluence_POST indexPage searchIndex body w).1 ∈ [400; 500]
               ∧ (confluence_POST indexPage searchIndex body w).2 = w
               ∧ response_success (confluence_POST indexPage searchIndex body w).1 = false
               ∧ response_data (confluence_POST indexPage searchIndex body w).1 = None)
            ∧ response_status (confluence_POST indexPage searchIndex body w).1 ≠ 200)
    as Hrefused.
  { intros parsed message -> Hparsed ->. simpl.
    split; [split; [done|intros [?|?]; by simplify_eq]|].
    split; [|done]. intros _. split; [set_solver|done]. }
  assert (∀ parsed outcome,
            body = Some parsed → parsed ≠ JNull →
            confluence_POST indexPage searchIndex body w = served outcome →
            (response_status (confluence_POST indexPage searchIndex body w).1 = 500
             ↔ body = None ∨ body = Some JNull)
            ∧ (response_status (confluence_POST indexPage searchIndex body w).1 ≠ 200 →
               response_status (confluence_POST indexPage searchIndex body w).1 ∈ [400; 500]
               ∧ (confluence_POST indexPage searchIndex body w).2 = w
               ∧ response_success (confluence_POST indexPage searchIndex body w).1 = false
               ∧ response_data (confluence_POST indexPage searchIndex body w).1 = None)
            ∧ response_status (confluence_POST indexPage searchIndex body w).1 = 200)
    as Hserved.
  { intros parsed outcome -> Hparsed ->. rewrite served_status.
    split; [split; [done|intros [?|?]; by simplify_eq]|]. by split. }
  destruct body as [parsed|].
  2: { destruct (Hbroken "Internal server error"%string eq_refl) as [H500 Hframe]; [by left|].
       split; [exact H500|]. split; [by split; [|intros (? & ? & _)]|].
       split; [exact Hframe|]. by split; intros. }
  assert (parsed = JNull ∨ parsed ≠ JNull) as [->|Hparsed]
    by (destruct parsed; first [by left|by right]).
  { destruct (Hbroken "Internal server error"%string eq_refl) as [H500 Hframe]; [by right|].
    split; [exact H500|].
    split; [split; [done|by intros (? & [= <-] & [[? _]|[? _]])]|].
    split; [exact Hframe|]. split; by intros ? ? [= <-]. }
  destruct (confluence_POST_cases indexPage searchIndex parsed w Hparsed)
    as [[Haction Hrun]
       |[(name & Hname & Hload & Hsearch & Hrun)
        |[[Hname Hrun]
         |[(Hname & Hurl & Hrun)
          |[(Hname & Hquery & Hrun)
           |[(Hname & url & Hurl & Htruthy & Hrun)
            |(Hname & query & Hquery & Htruthy & Hrun)]]]]]];
    cbv zeta in Hrun.
  - destruct (Hrefused _ _ eq_refl Hparsed Hrun) as (H500 & Hframe & H200).
    split; [exact H500|]. split.
    { split; [done|]. intros (? & [= <-] & [[Ha _]|[Ha _]]); by rewrite Ha in Haction. }
    split; [exact Hframe|].
    split; intros ? ? [= <-] Ha; by rewrite Ha in Haction.
  - destruct (Hrefused _ _ eq_refl Hparsed Hrun) as (H500 & Hframe & H200).
    split; [exact H500|]. split.
    { split; [done|]. intros (? & [= <-] & [[Ha _]|[Ha _]]); congruence. }
    split; [exact Hframe|].
    split; intros ? ? [= <-] Ha; congruence.
  - destruct (Hrefused _ _ eq_refl Hparsed Hrun) as (H500 & Hframe & H200).
    split; [exact H500|]. split.
    { split; [done|]. intros (? & [= <-] & [[Ha _]|[Ha _]]); by apply Hname in Ha. }
    split; [exact Hframe|].
    split; intros ? ? [= <-] Ha; by apply Hname in Ha.
  - destruct (Hrefused _ _ eq_refl Hparsed Hrun) as (H500 & Hframe & H200).
    split; [exact H500|]. split.
    { split; [done|]. intros (? & [= <-] & [[_ Hu]|[Ha _]]); congruence. }
    split; [exact Hframe|].
    split; intros ? ? [= <-] Ha Hu Ht; [rewrite Hu in Hurl|]; congruence.
  - destruct (Hrefused _ _ eq_refl Hparsed Hrun) as (H500 & Hframe & H200).
    split; [exact H500|]. split.
    { split; [done|]. intros (? & [= <-] & [[Ha _]|[_ Hq]]); congruence. }
    split; [exact Hframe|].
    split; intros ? ? [= <-] Ha Hq Ht; [|rewrite Hq in Hquery]; congruence.
  - destruct (Hserved _ _ eq_refl Hparsed Hrun) as (H500 & Hframe & H200).
    split; [exact H500|]. split.
    { split; [|done]. intros _. exists parsed. split; [done|]. left.
      by rewrite Hurl. }
    split; [exact Hframe|].
    split; intros ? ? [= <-] Ha Hu Ht; [|congruence].
    rewrite Hurl in Hu. injection Hu as <-. exact Hrun.
  - destruct (Hserved _ _ eq_refl Hparsed Hrun) as (H500 & Hframe & H200).
    split; [exact H500|]. split.
    { split; [|done]. intros _. exists parsed. split; [done|]. right.
      by rewrite Hquery. }
    split; [exact Hframe|].
    split; intros ? ? [= <-] Ha Hq Ht; [congruence|].
    rewrite Hquery in Hq. injection Hq as <-. exact Hrun.
Qed.

(** ** The choice of the tool *)

(** X24.  [selectTool] never throws and never writes to the store, and the
    tool it answers is one of the registry.  For a task with a tool name the
    reasoning service is not consulted and the answer is the tool registered
    under that name, if any; for a task without one the answer is the tool
    registered under the name the service selects, and no tool when the
    service fails or selects a name that is not registered. *)
Theorem selectTool_answers_registered_tools `{Oracles} (registry : ToolRegistry)
    (task : Task) (s : State) :
  ∃ answer w',
    selectTool registry task s = (Return answer, {| db := db s; world := w' |})
    ∧ (∀ tool, answer = Some tool → tool ∈ registry)
    ∧ (∀ name, truthy_name (task_toolName task) = Some name →
               w' = world s ∧ answer = registry_get registry name)
    ∧ (truthy_name (task_toolName task) = None →
       match askSelectedTool task (registry_getNames registry) (world s) with
       | (Return selected, w1) => answer = registry_get registry selected ∧ w' = w1
       | (Throw _, w1) => answer = None ∧ w' = w1
       end).
Proof.
  assert (∀ name tool, registry_get registry name = Some tool → tool ∈ registry) as Hin.
  { intros name tool Hget. apply find_some in Hget as [Hin _]. by apply list_elem_of_In. }
  unfold selectTool. destruct (truthy_name (task_toolName task)) as [name|].
  - exists (registry_get registry name), (world s). run.
    split; [by destruct s|]. split; [by apply Hin|]. split; [|done].
    by intros ? [= <-].
  - run. destruct (askSelectedTool _ _ _) as [[selected|e] w].
    + exists (registry_get registry selected), w. split; [done|].
      split; [by apply Hin|]. split; done.
    + exists None, w. split; [done|]. split; [done|]. split; done.
Qed.

(** ** The properties on concrete runs *)

Section Runs.
#[local] Existing Instance Demo.demo_oracles.

Lemma demo_distinct (l : list Task) :
  bool_decide (NoDup (task_id <$> l)) = true → distinct_ids l.
Proof. apply bool_decide_eq_true_1. Defined.

(** C1 on the chain a <- b <- c (c also depends on a). *)
Lemma sorter_orders_acyclic_tasks_witness :
  distinct_ids Demo.chain_tasks ∧ acyclic Demo.chain_tasks
  ∧ ∃ out, Sorter.sortTasksByPriorityAndDependencies Demo.chain_tasks = Return out
           ∧ out ≡ₚ Demo.chain_tasks
           ∧ NoDup out
           ∧ ∀ t d, depends_on Demo.chain_tasks t d → occurs_before out d t.
Proof.
  assert (distinct_ids Demo.chain_tasks) as Hd by (apply demo_distinct; vm_compute; reflexivity).
  assert (acyclic Demo.chain_tasks) as Ha.
  { pose proof (sort_outcome _ Hd) as Hout.
    destruct (Sorter.sortTasksByPriorityAndDependencies Demo.chain_tasks) eqn:Hsort.
    - apply Hout.
    - vm_compute in Hsort. discriminate Hsort. }
  split; [exact Hd|]. split; [exact Ha|].
  exact (sorter_orders_acyclic_tasks Demo.chain_tasks Hd Ha).
Defined.

(** C2 on the cycle a -> b -> a. *)
Lemma cycle_fails_sorter_and_plan_witness :
  ∃ t s',
    t ∈ Demo.cyclic_tasks ∧ on_cycle Demo.cyclic_tasks t
    ∧ Sorter.sortTasksByPriorityAndDependencies Demo.cyclic_tasks
      = Throw ("Circular dependency detected involving task: " +:+ task_title t)%string
    ∧ executePlan Demo.demo_registry (Demo.demo_plan Demo.cyclic_tasks) Demo.demo_context
        (Demo.demo_state MissionExecuting Demo.cyclic_tasks)
      = (Return {| exec_success := false; exec_completedTasks := []; exec_failedTasks := [];
                   exec_reflections := [];
                   exec_error :=
                     Some ("Circular dependency detected involving task: "
                           +:+ task_title t)%string |}, s')
    ∧ tasks (db s') = Demo.cyclic_tasks
    ∧ toolUsage (db s') = []
    ∧ missions (db s') = [Demo.demo_mission MissionExecuting]
    ∧ world s' = 0%nat
    ∧ plan_status_in (db s') "p1" = Some PlanFailed.
Proof.
  apply (cycle_fails_sorter_and_plan Demo.demo_registry (Demo.demo_plan Demo.cyclic_tasks)
           Demo.demo_context (Demo.demo_state MissionExecuting Demo.cyclic_tasks)
           (Demo.demo_task "a" 0 "ok" (Some ["b"%string]))).
  - apply demo_distinct. vm_compute. reflexivity.
  - apply (tc_l _ _ (Demo.demo_task "b" 1 "ok" (Some ["a"%string]))); [|apply tc_once];
      (split; [|split]); simpl; repeat constructor.
Defined.

(** C3 on the plan where b depends on a and the tool of a fails. *)
Lemma failed_dependency_leaves_dependent_pending_witness :
  let s := Demo.demo_state MissionExecuting [Demo.task_A; Demo.task_B] in
  let run := executePlan Demo.demo_registry (Demo.demo_plan [Demo.task_A; Demo.task_B])
               Demo.demo_context s in
  toolUsage (db run.2) = [Demo.failed_usage_of_A]
  ∧ task_status_in (db run.2) "b" = Some TaskPending
  ∧ task_status_in (db run.2) "a" = Some TaskFailed
  ∧ plan_status_in (db run.2) "p1" = Some PlanFailed
  ∧ rows_of (db run.2) "b" = rows_of (db s) "b"
  ∧ ∃ result, run.1 = Return result ∧ exec_success result = false
              ∧ Demo.task_A ∈ exec_failedTasks result.
Proof.
  intros s run. split; [vm_compute; reflexivity|].
  apply (failed_dependency_leaves_dependent_pending Demo.demo_registry
           (Demo.demo_plan [Demo.task_A; Demo.task_B]) Demo.demo_context s run.2 run.1
           Demo.task_A Demo.task_B [Demo.failed_usage_of_A] Demo.failed_usage_of_A).
  - apply demo_distinct. vm_compute. reflexivity.
  - repeat constructor.
  - repeat constructor.
  - repeat constructor.
  - vm_compute. reflexivity.
  - exists TaskPending. vm_compute. reflexivity.
  - exists PlanDraft. vm_compute. reflexivity.
  - apply surjective_pairing.
  - vm_compute. reflexivity.
  - repeat constructor.
  - reflexivity.
  - reflexivity.
Defined.



(** C8 with a planner that is out of service: the exception of the first
    call is caught, the mission fails with the empty failure result. *)
Lemma executeMission_catches_and_ends_terminal_witness :
  let mission := Demo.demo_mission MissionPending in
  let s := Demo.demo_state MissionPending [] in
  let s1 := with_mission_status "m1" MissionPlanning None s in
  step_throws Demo.unplanned_agent mission s "planner unavailable" s1
  ∧ executeMission Demo.unplanned_agent mission s
    = (Return (failure_result "planner unavailable"),
       with_mission_status "m1" MissionFailed None s1)
  ∧ mission_status_in
      (db (executeMission Demo.unplanned_agent mission s).2) "m1" = Some MissionFailed.
Proof.
  intros mission s s1.
  assert (step_throws Demo.unplanned_agent mission s "planner unavailable" s1) as Hthrow
    by (left; reflexivity).
  split; [exact Hthrow|].
  destruct (executeMission_catches_and_ends_terminal Demo.unplanned_agent Demo.demo_registry
              mission s) as (Hcatch & _).
  split; [exact (Hcatch _ _ Hthrow)|]. vm_compute. reflexivity.
Defined.

(** *** Where the code departs from the specification *)


(** C7.  A task that has no row in the store: its tool is called and
    succeeds, the store refuses the usage record - in the [try] and again in
    the [catch] - and the invocation ends with the error of the store and
    without any record. *)
Lemma usage_record_refused_without_task_row :
  let task := Demo.demo_task "a" 0 "ok" None in
  let s := Demo.demo_state MissionExecuting [] in
  let invoked := executeTool Demo.ok_tool (JObj []) (with_taskId Demo.demo_context "a") s in
  let executed := executeTask Demo.demo_registry task Demo.demo_context s in
  rows_of (db s) "a" = []
  ∧ (tool_execute Demo.ok_tool (JObj []) 1%nat).1
    = Return {| result_success := true; result_data := Some (JStr "done");
                result_error := None |}
  ∧ invoked.1 = Throw "FOREIGN KEY constraint failed"%string
  ∧ toolUsage (db invoked.2) = []
  ∧ world invoked.2 = 4%nat
  ∧ executed.1 = Throw "FOREIGN KEY constraint failed"%string
  ∧ toolUsage (db executed.2) = []
  ∧ db executed.2 = db s.
Proof. vm_compute. repeat split. Qed.

(** C6.  A mission that is [completed] is moved to [pending] by
    [pauseMission] and by the route's [pause], to [executing] by the route's
    [resume], and to [failed] by [cancelMission] and by a [resumeMission]
    whose new run does not succeed. *)
Lemma pause_reopens_completed_mission :
  let s := Demo.demo_state MissionCompleted [] in
  let agent := ServiceManagementAgentImpl Demo.demo_registry in
  mission_status_in (db s) "m1" = Some MissionCompleted
  ∧ mission_status_in (db (pauseMission "m1" s).2) "m1" = Some MissionPending
  ∧ mission_status_in (db (PATCH "m1" (Some "pause"%string) s).2) "m1" = Some MissionPending
  ∧ mission_status_in (db (PATCH "m1" (Some "resume"%string) s).2) "m1"
    = Some MissionExecuting
  ∧ mission_status_in (db (cancelMission "m1" s).2) "m1" = Some MissionFailed
  ∧ mission_status_in (db (resumeMission agent "m1" s).2) "m1" = Some MissionFailed.
Proof. vm_compute. repeat split. Qed.

(** C8.  With the engines of the repository and a judge that raises an
    error during the completion assessment, [executeMission] fails the
    mission but returns the result of the plan execution: the completed set
    holds the task that ran, and there is no error message. *)
Lemma judge_error_keeps_task_sets :
  let mission := Demo.demo_mission MissionPending in
  let run := executeMission (ServiceManagementAgentImpl Demo.demo_registry) mission
               (Demo.demo_state MissionPending []) in
  (∀ result w, (assessCompletion mission result w).1 = Throw "judge unavailable"%string)
  ∧ mission_status_in (db run.2) "m1" = Some MissionFailed
  ∧ ∃ result, run.1 = Return result
              ∧ exec_success result = false
              ∧ (task_id <$> exec_completedTasks result) = ["id2"]%string
              ∧ exec_error result = None.
Proof.
  split; [done|]. vm_compute. split; [done|]. eexists. repeat split.
Qed.

End Runs.

(** ** More concrete runs *)

Section MoreRuns.
#[local] Existing Instance Demo.demo_oracles.

Lemma demo_acyclic (l : list Task) :
  distinct_ids l →
  match Sorter.sortTasksByPriorityAndDependencies l with
  | Return _ => True
  | Throw _ => False
  end →
  acyclic l.
Proof.
  intros Hd Hreturns. pose proof (sort_outcome l Hd) as Hout.
  destruct (Sorter.sortTasksByPriorityAndDependencies l); [apply Hout|destruct Hreturns].
Defined.


(** X2 on three tasks of which two share the id a: one of the two is kept. *)
Lemma sorter_keeps_one_task_per_id_witness :
  ∃ out,
    Sorter.sortTasksByPriorityAndDependencies DemoTools.repeated_tasks = Return out
    ∧ length out = 2%nat
    ∧ NoDup (task_id <$> out)
    ∧ (∀ t, t ∈ out → t ∈ DemoTools.repeated_tasks)
    ∧ (∀ t, t ∈ DemoTools.repeated_tasks → ∃ u, u ∈ out ∧ task_id u = task_id t)
    ∧ length out = size (ids_of DemoTools.repeated_tasks).
Proof.
  eexists. split; [vm_compute; reflexivity|]. split; [reflexivity|].
  apply (sorter_keeps_one_task_per_id DemoTools.repeated_tasks). vm_compute. reflexivity.
Defined.

(** X3 on a task for a tool nobody registered. *)
Lemma executeTask_unknown_tool_witness :
  executeTask Demo.demo_registry DemoTools.stray_task Demo.demo_context
    (Demo.demo_state MissionExecuting [DemoTools.stray_task])
  = (Throw "No suitable tool found for task: task a"%string,
     {| db := with_tasks
                (update_rows task_id "a"%string
                   (λ r, set_task_finished TaskFailed 5
                           (Some (JObj [("error"%string,
                                         JStr "No suitable tool found for task: task a")]))
                           (set_task_started 0 r)))
                (db (Demo.demo_state MissionExecuting [DemoTools.stray_task]));
        world := 2%nat |}).
Proof.
  apply (executeTask_unknown_tool Demo.demo_registry DemoTools.stray_task Demo.demo_context
           (Demo.demo_state MissionExecuting [DemoTools.stray_task]) "telepathy"%string);
    reflexivity.
Defined.

(** X6 and X7 on the plan where b depends on a and the tool of a fails. *)
Lemma executePlan_classifies_tasks_witness :
  let plan := Demo.demo_plan [Demo.task_A; Demo.task_B] in
  let s := Demo.demo_state MissionExecuting [Demo.task_A; Demo.task_B] in
  ∃ result s',
    executePlan Demo.demo_registry plan Demo.demo_context s = (Return result, s')
    ∧ NoDup (exec_completedTasks result ++ exec_failedTasks result)
    ∧ (∀ t, t ∈ exec_completedTasks result ++ exec_failedTasks result → t ∈ plan_tasks plan)
    ∧ ∀ t, t ∈ plan_tasks plan →
        (t ∈ exec_completedTasks result
         ∧ Forall (λ r, task_status r = TaskCompleted) (rows_of (db s') (task_id t)))
        ∨ (t ∈ exec_failedTasks result
           ∧ Forall (λ r, task_status r = TaskFailed) (rows_of (db s') (task_id t)))
        ∨ ((t ∉ exec_completedTasks result) ∧ (t ∉ exec_failedTasks result)
           ∧ Sorter.deps_of t ≠ []
           ∧ rows_of (db s') (task_id t) = rows_of (db s) (task_id t)).
Proof.
  intros plan s.
  assert (distinct_ids (plan_tasks plan)) as Hd by (apply demo_distinct; vm_compute; reflexivity).
  apply (executePlan_classifies_tasks Demo.demo_registry plan Demo.demo_context s Hd).
  apply (demo_acyclic _ Hd). vm_compute. exact I.
Defined.

Lemma independent_task_is_always_executed_witness :
  let plan := Demo.demo_plan [Demo.task_A; Demo.task_B] in
  let s := Demo.demo_state MissionExecuting [Demo.task_A; Demo.task_B] in
  ∃ result s',
    executePlan Demo.demo_registry plan Demo.demo_context s = (Return result, s')
    ∧ ((Demo.task_A ∈ exec_completedTasks result
        ∧ task_status_in (db s') "a"
          = ((λ _, TaskCompleted) <$> task_status_in (db s) "a"))
       ∨ (Demo.task_A ∈ exec_failedTasks result
          ∧ task_status_in (db s') "a"
            = ((λ _, TaskFailed) <$> task_status_in (db s) "a"))).
Proof.
  intros plan s.
  assert (distinct_ids (plan_tasks plan)) as Hd by (apply demo_distinct; vm_compute; reflexivity).
  apply (independent_task_is_always_executed Demo.demo_registry plan Demo.demo_context s
           Demo.task_A Hd).
  - apply (demo_acyclic _ Hd). vm_compute. exact I.
  - left.
  - reflexivity.
Defined.


Lemma dependency_without_row_blocks_witness :
  let plan := Demo.demo_plan [DemoTools.waiting_task] in
  let s := Demo.demo_state MissionExecuting [DemoTools.waiting_task] in
  ∃ result s',
    executePlan Demo.demo_registry plan Demo.demo_context s = (Return result, s')
    ∧ (DemoTools.waiting_task ∉ exec_completedTasks result)
    ∧ (DemoTools.waiting_task ∉ exec_failedTasks result).
Proof.
  intros plan s.
  apply (dependency_without_row_blocks Demo.demo_registry plan Demo.demo_context s
           DemoTools.waiting_task "ghost"%string).
  - left.
  - reflexivity.
Defined.


(** X11 on the plan the demo planner returns. *)
Lemma createPlan_files_fresh_rows_witness :
  let s := Demo.demo_state MissionPlanning [] in
  ∃ result s',
    createPlan (Demo.demo_mission MissionPlanning) Demo.demo_context s = (Return result, s')
    ∧ plan_id (planning_plan result) = "id1"%string
    ∧ (task_id <$> plan_tasks (planning_plan result)) = ["id2"%string]
    ∧ plans (db s') = plans (db s) ++ [plan_row (planning_plan result)]
    ∧ tasks (db s') = tasks (db s) ++ plan_tasks (planning_plan result)
    ∧ distinct_ids (plan_tasks (planning_plan result)).
Proof.
  intros s. eexists _, _. split; [vm_compute; reflexivity|].
  split; [reflexivity|]. split; [reflexivity|].
  destruct (createPlan_files_fresh_rows (Demo.demo_mission MissionPlanning) Demo.demo_context s
              _ _ eq_refl)
    as (planData & w & taskDatas & ids & _ & _ & _ & _ & Hd & _ & _ & _ & _ & _ & Hp & Ht & _).
  split; [exact Hp|]. split; [exact Ht|exact Hd].
Defined.

(** X14 on a mission whose first plan has one task of two completed. *)
Lemma adjustStrategy_keeps_plan_on_track_witness :
  let s := Demo.demo_state MissionExecuting DemoTools.half_done_tasks in
  adjustStrategy (Demo.demo_mission MissionExecuting) (Demo.demo_plan DemoTools.half_done_tasks)
    Demo.demo_context s
  = (Return (Demo.demo_plan DemoTools.half_done_tasks), s).
Proof.
  intros s.
  apply (adjustStrategy_keeps_plan_on_track (Demo.demo_mission MissionExecuting)
           (Demo.demo_plan DemoTools.half_done_tasks) Demo.demo_context s).
  - discriminate.
  - vm_compute. lia.
Defined.




(** X23 on a request to load a page, on one to search while the embedding
    service is down, and on a search without its query. *)
Lemma confluence_route_guards_the_tools_witness :
  confluence_POST DemoTools.demo_indexPage DemoTools.demo_searchIndex
    (Some (JObj [("action", JStr "load"); ("url", JStr "https://wiki/runbook")]%string)) 0%nat
  = ({| response_status := 200; response_success := true;
        response_data := Some (JObj [("title"%string, JStr "Runbook")]);
        response_error := None |}, 2%nat)
  ∧ confluence_POST DemoTools.demo_indexPage DemoTools.demo_searchIndex
      (Some (JObj [("action", JStr "search"); ("query", JStr "restart")]%string)) 0%nat
    = ({| response_status := 200; response_success := false;
          response_data := Some JNull;
          response_error := Some "embedding service unavailable"%string |}, 2%nat)
  ∧ response_status
      (confluence_POST DemoTools.demo_indexPage DemoTools.demo_searchIndex
         (Some (JObj [("action", JStr "search"); ("query", JStr "")]%string)) 0%nat).1
    ∈ [400; 500].
Proof.
  split; [|split].
  - destruct (confluence_route_guards_the_tools DemoTools.demo_indexPage
                DemoTools.demo_searchIndex
                (Some (JObj [("action", JStr "load");
                             ("url", JStr "https://wiki/runbook")]%string)) 0%nat)
      as (_ & _ & _ & Hload & _).
    exact (Hload _ (JStr "https://wiki/runbook") eq_refl eq_refl eq_refl eq_refl).
  - destruct (confluence_route_guards_the_tools DemoTools.demo_indexPage
                DemoTools.demo_searchIndex
                (Some (JObj [("action", JStr "search");
                             ("query", JStr "restart")]%string)) 0%nat)
      as (_ & _ & _ & _ & Hsearch).
    exact (Hsearch _ (JStr "restart") eq_refl eq_refl eq_refl eq_refl).
  - destruct (confluence_route_guards_the_tools DemoTools.demo_indexPage
                DemoTools.demo_searchIndex
                (Some (JObj [("action", JStr "search"); ("query", JStr "")]%string)) 0%nat)
      as (_ & _ & Hrefused & _).
    apply Hrefused. discriminate.
Defined.

End MoreRuns.

Section ListlessRuns.
#[local] Existing Instance DemoTools.listless_oracles.


End ListlessRuns.

Section MeterRuns.
#[local] Existing Instance DemoTools.meter_oracles.

(** X19 on an operation that always times out: three calls, and waits of
    1000 and 2000 milliseconds between them. *)
Lemma withRetry_backs_off_witness :
  let run := withRetry DemoTools.meter_wait DemoTools.always_failing 3 1000
               {| DemoTools.meter_calls := 0; DemoTools.meter_waited := 0 |} in
  run.1 = Throw "timeout"%string
  ∧ ∃ attempts : nat,
      DemoTools.meter_calls run.2 = (0 + attempts)%nat
      ∧ (attempts ≤ Z.to_nat 3)%nat
      ∧ (1 ≤ 3 → (1 ≤ attempts)%nat)
      ∧ (∀ e, run.1 = Throw e → attempts = Z.to_nat 3)
      ∧ DemoTools.meter_waited run.2 = 0 + 1000 * (2 ^ Z.of_nat (attempts - 1) - 1)
      ∧ (3 < 1 → run = (Throw "undefined"%string,
                        {| DemoTools.meter_calls := 0; DemoTools.meter_waited := 0 |})).
Proof.
  intros run. split; [reflexivity|].
  apply (@withRetry_backs_off DemoTools.meter_oracles Z
           DemoTools.meter_wait DemoTools.always_failing
           DemoTools.meter_calls DemoTools.meter_waited 3 1000
           {| DemoTools.meter_calls := 0; DemoTools.meter_waited := 0 |}).
  - intros w. split; reflexivity.
  - intros ms w. split; reflexivity.
Defined.

End MeterRuns.
